(** * Address matcher: the waterfall matching engine

    A shallow embedding of [src/match.py], [src/fallback.py] and of the
    orchestration in [src/main.py] and [src/app.py].

    - Python [str] values are modelled as [string]; a character is a code
      point below 256. [str.strip] and [str.lower] stay within these;
      [str.upper] does but for three code points, which
      [PyStr.upper_leaves] names, and a statement that rests on the value
      of an upper-cased text is made for text without them.
    - Scores are Python floats; they are modelled as rationals ([Q]), the
      order on which is the order the code's comparisons use.
    - The database connection is modelled as the sequence of rows of
      [raw_addresses], in the order the database returns them, and every
      [conn.execute] is recorded in a trace of events.
    - Third-party library functions (rapidfuzz scorers, double metaphone,
      the sentence encoder, the HTTP client) are parameters of the stages;
      [Module RapidFuzz] gives the two rapidfuzz scorers concretely.
    - SQL equality on text is equality of strings; the message that
      [api_match] prints on a failed request is not part of the trace. *)

From Stdlib Require Import Bool List Arith ZArith QArith Lia Lra.
From Stdlib Require Import Ascii String.
Import ListNotations.

Close Scope Q_scope.
Open Scope nat_scope.
Open Scope string_scope.
Open Scope list_scope.

(** ** Python string operations *)

Module PyStr.

(** [str.isspace] on one character: the code points below 256 that Python
    strips with [str.strip()]. *)
Definition is_space (c : ascii) : bool :=
  let n := nat_of_ascii c in
  (Nat.leb 9 n && Nat.leb n 13) || (Nat.leb 28 n && Nat.leb n 32)
  || Nat.eqb n 133 || Nat.eqb n 160.

Fixpoint lstrip (s : string) : string :=
  match s with
  | EmptyString => EmptyString
  | String c s' => if is_space c then lstrip s' else s
  end.

(** Removes trailing white space: a character is kept when something
    that is not white space follows it or it is not white space itself. *)
Fixpoint rstrip (s : string) : string :=
  match s with
  | EmptyString => EmptyString
  | String c s' =>
      match rstrip s' with
      | EmptyString => if is_space c then EmptyString else String c EmptyString
      | r => String c r
      end
  end.

(** [s.strip()] *)
Definition strip (s : string) : string := rstrip (lstrip s).

(** The upper-case form of one character: the letters a-z (97-122) and
    the letters 224-254 other than the division sign 247 go to their
    capitals, 32 below; nothing else below 256 has another upper-case
    form, but for the three code points of [upper_leaves]. *)
Definition upper_char (c : ascii) : ascii :=
  let n := nat_of_ascii c in
  if (Nat.leb 97 n && Nat.leb n 122)
     || (Nat.leb 224 n && Nat.leb n 254 && negb (Nat.eqb n 247))
  then ascii_of_nat (n - 32) else c.

(** [s.upper()], one character at a time. *)
Fixpoint upper (s : string) : string :=
  match s with
  | EmptyString => EmptyString
  | String c s' => String (upper_char c) (upper s')
  end.

(** The three code points below 256 whose upper-case form is not a single
    code point below 256: the micro sign 181 (to U+039C), the sharp s 223
    (to the two letters SS) and the y with diaeresis 255 (to U+0178).
    [upper_char] leaves them as they are. *)
Definition upper_leaves (c : ascii) : bool :=
  let n := nat_of_ascii c in
  Nat.eqb n 181 || Nat.eqb n 223 || Nat.eqb n 255.

(** The text holds none of them: [upper] is [str.upper] on it. *)
Fixpoint upper_stays (s : string) : bool :=
  match s with
  | EmptyString => true
  | String c s' => negb (upper_leaves c) && upper_stays s'
  end.

(** Truthiness of a string: [if s:]. *)
Definition nonempty (s : string) : bool :=
  match s with EmptyString => false | _ => true end.

(** [sep.join(l)] *)
Fixpoint join (sep : string) (l : list string) : string :=
  match l with
  | [] => ""
  | [x] => x
  | x :: rest => x ++ sep ++ join sep rest
  end.

(** [' '.join(t for t in tokens if t)] *)
Definition join_nonempty (tokens : list string) : string :=
  join " " (filter nonempty tokens).

Fixpoint all_space (s : string) : bool :=
  match s with
  | EmptyString => true
  | String c s' => is_space c && all_space s'
  end.

End PyStr.

(** ** The rapidfuzz scorers

    [fuzz.ratio], [fuzz.token_sort_ratio] and [fuzz.token_set_ratio] of the
    rapidfuzz library, after its reference implementation with the default
    arguments (no preprocessing, no score cutoff). Scores are on the scale
    0 to 100. *)

Module RapidFuzz.
Import PyStr.

(** [s.split()]: the maximal runs of characters that are not white space.
    [cur] holds the token being read, reversed. *)
Fixpoint rev_string (acc s : string) : string :=
  match s with
  | EmptyString => acc
  | String c s' => rev_string (String c acc) s'
  end.

Definition flush (cur : string) (out : list string) : list string :=
  match cur with
  | EmptyString => out
  | _ => rev_string "" cur :: out
  end.

Fixpoint split_aux (s cur : string) : list string :=
  match s with
  | EmptyString => flush cur []
  | String c s' =>
      if is_space c then flush cur (split_aux s' "")
      else split_aux s' (String c cur)
  end.

Definition split (s : string) : list string := split_aux s "".

(** [sorted(tokens)]: insertion sort on the code-point order. *)
Fixpoint insert (x : string) (l : list string) : list string :=
  match l with
  | [] => [x]
  | y :: l' => if String.leb x y then x :: l else y :: insert x l'
  end.

Fixpoint sorted (l : list string) : list string :=
  match l with
  | [] => []
  | x :: l' => insert x (sorted l')
  end.

Definition mem (x : string) (l : list string) : bool :=
  existsb (String.eqb x) l.

(** [set(tokens)], as the list of distinct tokens. *)
Fixpoint dedup (l : list string) : list string :=
  match l with
  | [] => []
  | x :: l' => if mem x l' then dedup l' else x :: dedup l'
  end.

(** Length of a longest common subsequence, row by row: [lcs_step] fills
    one row of the table from the row above it. *)
Fixpoint lcs_step (x : ascii) (b : string) (diag : nat)
         (above : list nat) (left : nat) : list nat :=
  match b, above with
  | String y b', up :: rest =>
      let v := if Ascii.eqb x y then S diag else Nat.max up left in
      v :: lcs_step x b' up rest v
  | _, _ => []
  end.

Definition lcs_next (x : ascii) (b : string) (prev : list nat) : list nat :=
  match prev with
  | p0 :: tl => 0 :: lcs_step x b p0 tl 0
  | [] => []
  end.

Fixpoint lcs_rows (a b : string) (prev : list nat) : list nat :=
  match a with
  | EmptyString => prev
  | String x a' => lcs_rows a' b (lcs_next x b prev)
  end.

Definition lcs (a b : string) : nat :=
  last (lcs_rows a b (repeat 0 (S (String.length b)))) 0.

(** [Indel.distance]: insertions and deletions only. *)
Definition indel_distance (a b : string) : nat :=
  String.length a + String.length b - 2 * lcs a b.

(** [_norm_distance(dist, lensum, 0)] *)
Definition norm_distance (dist lensum : nat) : Q :=
  match lensum with
  | O => 100%Q
  | S _ =>
      Qred (Qmake (100 * (Z.of_nat lensum - Z.of_nat dist))
                  (Pos.of_nat lensum))
  end.

(** [fuzz.ratio] *)
Definition ratio (a b : string) : Q :=
  norm_distance (indel_distance a b) (String.length a + String.length b).

(** [fuzz.token_sort_ratio] *)
Definition token_sort_ratio (s1 s2 : string) : Q :=
  ratio (join " " (sorted (split s1))) (join " " (sorted (split s2))).

Definition qmax (a b : Q) : Q := if Qle_bool a b then b else a.

Definition is_nil {A} (l : list A) : bool :=
  match l with [] => true | _ => false end.

(** [fuzz.token_set_ratio] *)
Definition token_set_ratio (s1 s2 : string) : Q :=
  if negb (nonempty s1) || negb (nonempty s2) then 0%Q else
  let tokens_a := dedup (split s1) in
  let tokens_b := dedup (split s2) in
  if is_nil tokens_a || is_nil tokens_b then 0%Q else
  let intersect := filter (fun t => mem t tokens_b) tokens_a in
  let diff_ab := filter (fun t => negb (mem t tokens_b)) tokens_a in
  let diff_ba := filter (fun t => negb (mem t tokens_a)) tokens_b in
  if negb (is_nil intersect) && (is_nil diff_ab || is_nil diff_ba)
  then 100%Q else
  let diff_ab_joined := join " " (sorted diff_ab) in
  let diff_ba_joined := join " " (sorted diff_ba) in
  let ab_len := String.length diff_ab_joined in
  let ba_len := String.length diff_ba_joined in
  let sect_len := String.length (join " " intersect) in
  let sep := match sect_len with O => 0 | S _ => 1 end in
  let sect_ab_len := sect_len + sep + ab_len in
  let sect_ba_len := sect_len + sep + ba_len in
  let result :=
    norm_distance (indel_distance diff_ab_joined diff_ba_joined)
                  (sect_ab_len + sect_ba_len) in
  match sect_len with
  | O => result
  | S _ =>
      let sect_ab_ratio :=
        norm_distance (sep + ab_len) (sect_len + sect_ab_len) in
      let sect_ba_ratio :=
        norm_distance (sep + ba_len) (sect_len + sect_ba_len) in
      qmax (qmax result sect_ab_ratio) sect_ba_ratio
  end.

End RapidFuzz.

(** ** Data model *)

(** A candidate identifier ([hhid]). The code tests it with [if hhid:], so
    besides [None] the identifier 0 counts as absent. *)
Definition Hhid := Z.

Definition truthy (h : option Hhid) : bool :=
  match h with
  | Some z => negb (Z.eqb z 0)
  | None => false
  end.

(** One row of [raw_addresses]; the fields carry the column names. Text
    columns hold strings (the ingestion replaces missing values by ''). *)
Module Row.
Record t := mk {
  hhid : Hhid;
  house : string;
  predir : string;
  street : string;
  strtype : string;
  postdir : string;
  apttype : string;
  aptnbr : string;
  address : string;
  zip : string
}.
End Row.

(** The parsed address, a dict in the code; the fields carry its keys.
    [original_address] is [None] when the key is absent. [city], [state]
    and [zip_code] hold the text the f-string of [api_match] prints for
    them ('' when the key is absent). *)
Module Parsed.
Record t := mk {
  id : string;
  street_number : string;
  predir : string;
  street_name : string;
  street_type : string;
  postdir : string;
  apt_type : string;
  unit : string;
  original_address : option string;
  city : string;
  state : string;
  zip_code : string
}.
End Parsed.

(** The bind parameters of the lookup of [api_match]. *)
Module Api.
Record t := mk {
  house : string;
  street : string;
  zip5 : string;
  predir : string;
  postdir : string;
  strtype : string;
  apt_type : string;
  unit : string
}.
End Api.

(** The validator's answer. [address_components] of the top result: a key
    that is absent or null is [None]. *)
Record Components := {
  number : option string;
  predirectional : option string;
  c_street : option string;
  suffix : option string;
  postdirectional : option string;
  secondaryunit : option string;
  secondarynumber : option string;
  c_zip : option string
}.

(** One entry of ["results"]: its components and its ["accuracy"]
    (0.0 when absent). *)
Record GeoResult := {
  address_components : Components;
  accuracy : Q
}.

(** What [resp.json()] gives: it raises on a body that is not JSON.
    [Json results] stands for a JSON object of the shape the validator
    documents: ["results"] is absent or a list of objects, whose
    ["address_components"] is absent or an object with text or null under
    its keys. JSON of another shape, on which the [.get] and [.strip] of
    [fallback.py:169-184] would raise, is not represented. *)
Inductive Body :=
| NotJson
| Json (results : list GeoResult).

(** What [requests.get] followed by [raise_for_status] gives: an exception
    (connection error, timeout, status that is not a success) or a
    response. *)
Inductive HttpReply :=
| RequestError
| Response (body : Body).

(** The values of [match_type]. *)
Inductive MatchType :=
| mt_exact | mt_fuzzy | mt_phonetic | mt_embedding | mt_api | mt_unmatched.

Definition match_type_name (m : MatchType) : string :=
  match m with
  | mt_exact => "exact"
  | mt_fuzzy => "fuzzy"
  | mt_phonetic => "phonetic"
  | mt_embedding => "embedding"
  | mt_api => "api"
  | mt_unmatched => "unmatched"
  end.

(** ** SQL statements and their meaning on the store *)

Inductive Sql :=
| SelectExact (p : Parsed.t)          (* match.py:11-30 *)
| SelectFuzzy (num : string)          (* match.py:64-68 *)
| SelectPhonetic (num : string)       (* fallback.py:30-34 *)
| SelectEmbedding (num : string)      (* fallback.py:104 *)
| SelectApi (a : Api.t)               (* fallback.py:187-203 *)
| SelectAddress (h : Hhid).           (* main.py:112, app.py:86 *)

Notation "a =s b" := (String.eqb a b) (at level 70, no associativity).

(** The WHERE clause of [exact_match]. *)
Definition exact_where (p : Parsed.t) (r : Row.t) : bool :=
  (Row.house r =s Parsed.street_number p)
  && ((Row.predir r =s Parsed.predir p)
      || ((Row.predir r =s "") && (Parsed.predir p =s "")))
  && (Row.street r =s Parsed.street_name p)
  && (Row.strtype r =s Parsed.street_type p)
  && ((Row.postdir r =s Parsed.postdir p)
      || ((Row.postdir r =s "") && (Parsed.postdir p =s "")))
  && (((Row.apttype r =s Parsed.apt_type p)
       && (Row.aptnbr r =s Parsed.unit p))
      || ((Parsed.apt_type p =s "") && (Parsed.unit p =s "")
          && (Row.apttype r =s "") && (Row.aptnbr r =s ""))).

(** The WHERE clause of the lookup of [api_match]. *)
Definition api_where (a : Api.t) (r : Row.t) : bool :=
  (Row.house r =s Api.house a)
  && (Row.street r =s Api.street a)
  && (Row.zip r =s Api.zip5 a)
  && ((Api.predir a =s "") || (Row.predir r =s Api.predir a))
  && ((Api.postdir a =s "") || (Row.postdir r =s Api.postdir a))
  && ((Api.strtype a =s "") || (Row.strtype r =s Api.strtype a))
  && (((Api.apt_type a =s "") && (Row.apttype r =s ""))
      || (negb (Api.apt_type a =s "")
          && (Row.apttype r =s Api.apt_type a)))
  && (((Api.unit a =s "") && (Row.aptnbr r =s ""))
      || (negb (Api.unit a =s "") && (Row.aptnbr r =s Api.unit a))).

Definition sql_where (q : Sql) (r : Row.t) : bool :=
  match q with
  | SelectExact p => exact_where p r
  | SelectFuzzy num => Row.house r =s num
  | SelectPhonetic num => Row.house r =s num
  | SelectEmbedding num => Row.house r =s num
  | SelectApi a => api_where a r
  | SelectAddress h => Z.eqb (Row.hhid r) h
  end.

(** ** Effects: the trace of a call and the exceptions it may raise *)

Inductive Event :=
| Execute (q : Sql)               (* conn.execute(q, params) *)
| Encode (text : string)          (* EMB_MODEL.encode(text) *)
| HttpGet (q key : string).       (* requests.get(url, params) *)

Inductive PyExn :=
| KeyError (key : string)
| JSONDecodeError.

Inductive Outcome (A : Type) :=
| Returned (a : A)
| Raised (e : PyExn).
Arguments Returned {A} a.
Arguments Raised {A} e.

(** A computation: what it returns or raises, and the events it performed,
    in order. *)
Definition M (A : Type) : Type := Outcome A * list Event.

Definition ret {A} (a : A) : M A := (Returned a, []).

Definition raise {A} (e : PyExn) : M A := (Raised e, []).

Definition bind {A B} (m : M A) (f : A -> M B) : M B :=
  match m with
  | (Returned a, t) => let '(r, t') := f a in (r, t ++ t')
  | (Raised e, t) => (Raised e, t)
  end.

Definition emit (e : Event) : M unit := (Returned tt, [e]).

Definition value {A} (m : M A) : Outcome A := fst m.
Definition trace {A} (m : M A) : list Event := snd m.

Declare Scope py_scope.
Delimit Scope py_scope with py.
Notation "x <- c1 ;; c2" := (bind c1 (fun x => c2))
  (at level 100, c1 at next level, right associativity) : py_scope.
Notation "' pat <- c1 ;; c2" := (bind c1 (fun x => match x with pat => c2 end))
  (at level 100, pat pattern, c1 at next level, right associativity) : py_scope.
Notation "c1 ;; c2" := (bind c1 (fun _ => c2))
  (at level 100, right associativity) : py_scope.
Open Scope py_scope.

(** ** Score arithmetic *)

Definition Qlt_bool (a b : Q) : bool := negb (Qle_bool b a).

(** Rounding to the nearest integer, ties to even. *)
Definition round_half_even (q : Q) : Z :=
  let n := Qnum q in
  let d := Zpos (Qden q) in
  let f := (n / d)%Z in
  let r2 := (2 * (n mod d))%Z in
  if (r2 <? d)%Z then f
  else if (d <? r2)%Z then (f + 1)%Z
  else if Z.even f then f else (f + 1)%Z.

(** [round(x, 2)] *)
Definition round2 (q : Q) : Q :=
  Qred (Qmake (round_half_even (q * 100)%Q) 100).

Definition or_empty (o : option string) : string :=
  match o with Some s => s | None => "" end.

(** ** The matcher stages *)

(** The candidate tracked by the loop of [fuzzy_match] (the dict [best]). *)
Record Best := {
  best_hhid : option Hhid;
  best_score : Q;
  best_apttype : string;
  best_aptnbr : string
}.

Section Stages.

(** The rows of [raw_addresses]. *)
Variable store : list Row.t.

(** [rapidfuzz.fuzz.token_sort_ratio] and [token_set_ratio]. *)
Variable token_sort_ratio : string -> string -> Q.
Variable token_set_ratio : string -> string -> Q.

(** [metaphone.doublemetaphone]: the primary and the secondary code. *)
Variable doublemetaphone : string -> string * string.

(** [EMB_MODEL.encode] and [sklearn]'s [cosine_similarity] of two
    encodings. *)
Variable Vector : Type.
Variable encode : string -> Vector.
Variable cosine_similarity : Vector -> Vector -> Q.

(** [os.getenv("GEOCODIO_API_KEY")] and the validator service: what a
    request with a query and a key gives. *)
Variable api_key : option string.
Variable http_get : string -> string -> HttpReply.

(** [conn.execute(q, params).mappings().all()] *)
Definition execute (q : Sql) : M (list Row.t) :=
  emit (Execute q) ;; ret (filter (sql_where q) store).

(** [.first()] *)
Definition first (rows : list Row.t) : option Row.t :=
  match rows with
  | [] => None
  | r :: _ => Some r
  end.

(** [match.py:5-35] *)
Definition exact_match (parsed : Parsed.t) : M (option Hhid * Q) :=
  rows <- execute (SelectExact parsed) ;;
  match first rows with
  | Some row => ret (Some (Row.hhid row), 1%Q)
  | None => ret (None, 0%Q)
  end.

(** The full street string of the query ([match.py:55-61]). *)
Definition parsed_full (parsed : Parsed.t) : string :=
  PyStr.upper (PyStr.join_nonempty
    [Parsed.predir parsed; Parsed.street_name parsed;
     Parsed.street_type parsed; Parsed.postdir parsed]).

(** The full street string of a candidate ([match.py:75-81]). *)
Definition canon_full (r : Row.t) : string :=
  PyStr.upper (PyStr.join_nonempty
    [Row.predir r; Row.street r; Row.strtype r; Row.postdir r]).

Definition best_init : Best :=
  {| best_hhid := None; best_score := 0%Q;
     best_apttype := ""; best_aptnbr := "" |}.

(** One iteration of the loop of [fuzzy_match] ([match.py:73-91]). *)
Definition fuzzy_step (pfull : string) (best : Best) (r : Row.t) : Best :=
  let score := token_sort_ratio pfull (canon_full r) in
  if Qlt_bool (best_score best) score
  then {| best_hhid := Some (Row.hhid r); best_score := score;
          best_apttype := Row.apttype r; best_aptnbr := Row.aptnbr r |}
  else best.

(** [match.py:38-99] *)
Definition fuzzy_match (parsed : Parsed.t) (threshold : Q)
  : M (option Hhid * Q) :=
  let num := PyStr.strip (Parsed.street_number parsed) in
  if negb (PyStr.nonempty num) then ret (None, 0%Q) else
  let pfull := parsed_full parsed in
  candidates <- execute (SelectFuzzy num) ;;
  let best := fold_left (fuzzy_step pfull) candidates best_init in
  if Qle_bool threshold (best_score best)
     && (Parsed.unit parsed =s best_aptnbr best)
  then ret (best_hhid best, round2 (best_score best))
  else ret (None, 0%Q).

(** One iteration of the scoring loop of [phonetic_match]
    ([fallback.py:68-71]). *)
Definition phonetic_step (pfull : string) (best : option Hhid * Q)
           (r : Row.t) : option Hhid * Q :=
  let score := token_set_ratio pfull (PyStr.upper (Row.address r)) in
  if Qlt_bool (snd best) score then (Some (Row.hhid r), score) else best.

(** [fallback.py:14-75] *)
Definition phonetic_match (parsed : Parsed.t) (threshold : Q)
  : M (option Hhid * Q) :=
  let num := PyStr.upper (PyStr.strip (Parsed.street_number parsed)) in
  let parsed_unit := PyStr.upper (PyStr.strip (Parsed.unit parsed)) in
  if negb (PyStr.nonempty num) then ret (None, 0%Q) else
  rows <- execute (SelectPhonetic num) ;;
  if RapidFuzz.is_nil rows then ret (None, 0%Q) else
  let pfull := parsed_full parsed in
  let target_code :=
    fst (doublemetaphone (PyStr.upper (Parsed.street_name parsed))) in
  let phon :=
    filter (fun r =>
              fst (doublemetaphone (PyStr.upper (Row.street r)))
              =s target_code) rows in
  if RapidFuzz.is_nil phon then ret (None, 0%Q) else
  let phon' :=
    if PyStr.nonempty parsed_unit
    then filter (fun r =>
                   PyStr.upper (PyStr.strip (Row.aptnbr r)) =s parsed_unit)
                phon
    else phon in
  if RapidFuzz.is_nil phon' then ret (None, 0%Q) else
  let best := fold_left (phonetic_step pfull) phon' (None, 0%Q) in
  if Qle_bool threshold (snd best)
  then ret (fst best, round2 (snd best))
  else ret (None, 0%Q).

(** The loop of [embedding_match] ([fallback.py:112-126]); every
    candidate that passes the unit filter is encoded. *)
Fixpoint embedding_loop (parsed_unit : string) (parsed_emb : Vector)
         (rows : list Row.t) (best : option Hhid * Q)
  : M (option Hhid * Q) :=
  match rows with
  | [] => ret best
  | r :: rest =>
      let canon_unit := PyStr.upper (PyStr.strip (Row.aptnbr r)) in
      if PyStr.nonempty parsed_unit && negb (parsed_unit =s canon_unit)
      then embedding_loop parsed_unit parsed_emb rest best
      else
        let cand_addr := PyStr.upper (PyStr.strip (Row.address r)) in
        emit (Encode cand_addr) ;;
        let cos_sim := cosine_similarity parsed_emb (encode cand_addr) in
        embedding_loop parsed_unit parsed_emb rest
          (if Qlt_bool (snd best) cos_sim
           then (Some (Row.hhid r), cos_sim) else best)
  end.

(** [fallback.py:82-130] *)
Definition embedding_match (parsed : Parsed.t) (emb_threshold : Q)
  : M (option Hhid * Q) :=
  let pfull := parsed_full parsed in
  let num := PyStr.upper (PyStr.strip (Parsed.street_number parsed)) in
  let parsed_unit := PyStr.upper (PyStr.strip (Parsed.unit parsed)) in
  if negb (PyStr.nonempty num) then ret (None, 0%Q) else
  rows <- execute (SelectEmbedding num) ;;
  if RapidFuzz.is_nil rows then ret (None, 0%Q) else
  emit (Encode pfull) ;;
  best <- embedding_loop parsed_unit (encode pfull) rows (None, 0%Q) ;;
  if truthy (fst best) && Qle_bool emb_threshold (snd best)
  then ret (fst best, round2 (snd best * 100)%Q)
  else ret (None, 0%Q).

(** The query string of [api_match] ([fallback.py:147-151]); [KeyError]
    when the parsed address has no ['original_address']. *)
Definition api_query (parsed : Parsed.t) : M string :=
  match Parsed.original_address parsed with
  | None => raise (KeyError "original_address")
  | Some street_part =>
      ret (PyStr.strip (street_part ++ ", " ++ Parsed.city parsed ++ ", "
                        ++ Parsed.state parsed ++ " "
                        ++ Parsed.zip_code parsed))
  end.

(** The bind parameters built from the top result
    ([fallback.py:177-184, 204-213]). *)
Definition api_params (top : Components) : Api.t :=
  let norm o := PyStr.upper (PyStr.strip (or_empty o)) in
  {| Api.house := norm (number top);
     Api.street := norm (c_street top);
     Api.zip5 := PyStr.strip (or_empty (c_zip top));
     Api.predir := norm (predirectional top);
     Api.postdir := norm (postdirectional top);
     Api.strtype := norm (suffix top);
     Api.apt_type := norm (secondaryunit top);
     Api.unit := norm (secondarynumber top) |}.

(** [api_match] from the test of the query string on
    ([fallback.py:153-220]). *)
Definition api_lookup (key full : string) : M (option Hhid * Q * string) :=
  if negb (PyStr.nonempty full)
  then ret (None, 0%Q, "no original_address") else
  emit (HttpGet full key) ;;
  match http_get full key with
  | RequestError => ret (None, 0%Q, "api request error")
  | Response NotJson => raise JSONDecodeError
  | Response (Json results) =>
      match results with
      | [] => ret (None, 0%Q, "no api result")
      | top :: _ =>
          let confidence := accuracy top in
          rows <- execute (SelectApi (api_params (address_components top))) ;;
          match first rows with
          | Some row => ret (Some (Row.hhid row), confidence, "api match")
          | None => ret (None, 0%Q, "api returned but no match")
          end
      end
  end.

(** [fallback.py:133-220] *)
Definition api_match (parsed : Parsed.t) : M (option Hhid * Q * string) :=
  match api_key with
  | None | Some EmptyString => ret (None, 0%Q, "no api key")
  | Some key =>
      full <- api_query parsed ;;
      api_lookup key full
  end.

End Stages.

Arguments embedding_loop {Vector} encode cosine_similarity.
Arguments embedding_match store {Vector} encode cosine_similarity.

(** ** The waterfall orchestrator *)

(** The local variables of the orchestrator. *)
Record Locals := {
  l_hhid : option Hhid;
  l_score : Q;
  l_mtype : option MatchType;
  l_reason : string
}.

(** [hhid, score, mtype, reason = None, 0.0, None, ''] *)
Definition locals_init : Locals :=
  {| l_hhid := None; l_score := 0%Q; l_mtype := None; l_reason := "" |}.

(** The record appended to [results] by [match_all], and the JSON object
    returned by [match_address] (whose [raw_address] is left out). *)
Record MatchResult := {
  transaction_id : string;
  address_id : option Hhid;
  matched_address : option string;
  confidence : Q;
  match_type : option MatchType;
  reason : string
}.

(** The stage the orchestrator is about to run. *)
Inductive Pc :=
| AtExact | AtFuzzy | AtPhonetic | AtEmbedding | AtApi | Finished.

(** The two orchestrators: the loop body of [match_all] ([main.py:63-126])
    and [match_address] ([app.py:44-101]). *)
Inductive Caller := Batch | Endpoint.

Section Orchestrator.

Variable store : list Row.t.
Variable token_sort_ratio : string -> string -> Q.
Variable token_set_ratio : string -> string -> Q.
Variable doublemetaphone : string -> string * string.
Variable Vector : Type.
Variable encode : string -> Vector.
Variable cosine_similarity : Vector -> Vector -> Q.
Variable api_key : option string.
Variable http_get : string -> string -> HttpReply.

Variable caller : Caller.

(** The outcome of one stage, written into the locals: on a truthy
    [hhid] the match type and reason of the stage, otherwise its
    rejection reason and the next stage. *)
Definition settle (h : option Hhid) (s : Q) (mt : MatchType)
           (hit miss : string) (next : Pc) (st : Locals) : Pc * Locals :=
  if truthy h
  then (Finished,
        {| l_hhid := h; l_score := s; l_mtype := Some mt;
           l_reason := hit |})
  else (next,
        {| l_hhid := h; l_score := s; l_mtype := l_mtype st;
           l_reason := miss |}).

(** [api_reason or "unmatched"] in [match_address]; [api_reason] in
    [match_all]. *)
Definition unmatched_reason (api_reason : string) : string :=
  match caller with
  | Batch => api_reason
  | Endpoint => if PyStr.nonempty api_reason then api_reason else "unmatched"
  end.

(** One stage of the waterfall ([main.py:67-106], [app.py:47-80]). *)
Definition step (parsed : Parsed.t) (pc : Pc) (st : Locals)
  : M (Pc * Locals) :=
  match pc with
  | AtExact =>
      '(h, s) <- exact_match store parsed ;;
      ret (settle h s mt_exact "exact match" "no exact match" AtFuzzy st)
  | AtFuzzy =>
      '(h, s) <- fuzzy_match store token_sort_ratio parsed 70%Q ;;
      ret (settle h s mt_fuzzy "fuzzy match" "low fuzzy score" AtPhonetic st)
  | AtPhonetic =>
      '(h, s) <- phonetic_match store token_set_ratio doublemetaphone
                   parsed 70%Q ;;
      ret (settle h s mt_phonetic "phonetic match" "no phonetic match"
                  AtEmbedding st)
  | AtEmbedding =>
      '(h, s) <- embedding_match store encode cosine_similarity
                   parsed (3 # 4)%Q ;;
      ret (settle h s mt_embedding "embedding match" "low embedding score"
                  AtApi st)
  | AtApi =>
      '(h, s, api_reason) <- api_match store api_key http_get parsed ;;
      if truthy h
      then ret (Finished,
                {| l_hhid := h; l_score := s; l_mtype := Some mt_api;
                   l_reason := api_reason |})
      else ret (Finished,
                {| l_hhid := h; l_score := s; l_mtype := Some mt_unmatched;
                   l_reason := unmatched_reason api_reason |})
  | Finished => ret (Finished, st)
  end.

(** [n] stages in a row. *)
Fixpoint steps (n : nat) (parsed : Parsed.t) (pc : Pc) (st : Locals)
  : M (Pc * Locals) :=
  match n with
  | O => ret (pc, st)
  | S n' =>
      '(pc', st') <- step parsed pc st ;;
      steps n' parsed pc' st'
  end.

(** The whole waterfall: at most five stages. *)
Definition waterfall (parsed : Parsed.t) : M Locals :=
  '(_, st) <- steps 5 parsed AtExact locals_init ;;
  ret st.

(** The by-id lookup of the matched display address
    ([main.py:109-116], [app.py:83-90]). *)
Definition resolve_address (h : option Hhid) : M (option string) :=
  let absent := match caller with Batch => Some "" | Endpoint => None end in
  match h with
  | Some id =>
      if truthy h then
        rows <- execute store (SelectAddress id) ;;
        match first rows with
        | Some address_row => ret (Some (Row.address address_row))
        | None => ret absent
        end
      else ret absent
  | None => ret absent
  end.

(** The confidence placed in the result: [score] in [match_all],
    [round(score, 2)] in [match_address]. *)
Definition reported (score : Q) : Q :=
  match caller with
  | Batch => score
  | Endpoint => round2 score
  end.

(** The same orchestration written as the nested conditionals of the
    source; [match_one_nested_eq] relates it to [match_one]. *)
Definition waterfall_nested (parsed : Parsed.t)
  : M (option Hhid * Q * option MatchType * string) :=
  '(hhid, score) <- exact_match store parsed ;;
  if truthy hhid then ret (hhid, score, Some mt_exact, "exact match") else
  '(hhid, score) <- fuzzy_match store token_sort_ratio parsed 70%Q ;;
  if truthy hhid then ret (hhid, score, Some mt_fuzzy, "fuzzy match") else
  '(hhid, score) <- phonetic_match store token_set_ratio doublemetaphone
                      parsed 70%Q ;;
  if truthy hhid
  then ret (hhid, score, Some mt_phonetic, "phonetic match") else
  '(hhid, score) <- embedding_match store encode cosine_similarity
                      parsed (3 # 4)%Q ;;
  if truthy hhid
  then ret (hhid, score, Some mt_embedding, "embedding match") else
  '(hhid, score, api_reason) <- api_match store api_key http_get parsed ;;
  if truthy hhid
  then ret (hhid, score, Some mt_api, api_reason)
  else ret (hhid, score, Some mt_unmatched, unmatched_reason api_reason).

Definition match_one_nested (parsed : Parsed.t) : M MatchResult :=
  '(hhid, score, mtype, reason) <- waterfall_nested parsed ;;
  matched <- resolve_address hhid ;;
  ret {| transaction_id := Parsed.id parsed;
         address_id := hhid;
         matched_address := matched;
         confidence := reported score;
         match_type := mtype;
         reason := reason |}.

(** One transaction through the waterfall, up to the result record. *)
Definition match_one (parsed : Parsed.t) : M MatchResult :=
  st <- waterfall parsed ;;
  matched <- resolve_address (l_hhid st) ;;
  ret {| transaction_id := Parsed.id parsed;
         address_id := l_hhid st;
         matched_address := matched;
         confidence := reported (l_score st);
         match_type := l_mtype st;
         reason := l_reason st |}.

End Orchestrator.

Arguments step store token_sort_ratio token_set_ratio doublemetaphone
  {Vector} encode cosine_similarity api_key http_get caller.
Arguments steps store token_sort_ratio token_set_ratio doublemetaphone
  {Vector} encode cosine_similarity api_key http_get caller.
Arguments waterfall store token_sort_ratio token_set_ratio doublemetaphone
  {Vector} encode cosine_similarity api_key http_get caller.
Arguments waterfall_nested store token_sort_ratio token_set_ratio
  doublemetaphone {Vector} encode cosine_similarity api_key http_get caller.
Arguments match_one_nested store token_sort_ratio token_set_ratio
  doublemetaphone {Vector} encode cosine_similarity api_key http_get caller.
Arguments match_one store token_sort_ratio token_set_ratio doublemetaphone
  {Vector} encode cosine_similarity api_key http_get caller.

(** ** Reference definitions

    The notions the specification uses to describe the stages, written
    independently of the loops of the code. *)

(** The single highest-scoring element: the first one that no later
    element beats. *)
Fixpoint argmax_first {A} (f : A -> Q) (l : list A) : option A :=
  match l with
  | [] => None
  | x :: rest =>
      match argmax_first f rest with
      | Some b => if Qlt_bool (f x) (f b) then Some b else Some x
      | None => Some x
      end
  end.

(** Null-equivalence of two fields: equal, or both empty. *)
Definition null_equiv (a b : string) : Prop :=
  a = b \/ (a = "" /\ b = "").

(** The comparison the lookup of [api_match] applies to directionals and
    street type: an empty query field matches anything. *)
Definition wildcard (query candidate : string) : Prop :=
  query = "" \/ candidate = query.

(** The waterfall as the specification words it: the stages in their
    order, stopping at the first one whose candidate is not null. *)
Fixpoint first_hit (stages : list (MatchType * M (option Hhid * Q)))
  : M (MatchType * option Hhid * Q) :=
  match stages with
  | [] => ret (mt_unmatched, None, 0%Q)
  | (mt, run) :: rest =>
      '(h, s) <- run ;;
      match h with
      | Some _ => ret (mt, h, s)
      | None => first_hit rest
      end
  end.

(** The waterfall with the test the orchestrators apply to a candidate,
    [if hhid:]: the stages in their order, stopping at the first one whose
    candidate is neither null nor the identifier 0. When no stage has such
    a candidate the run is unmatched, with the candidate and the score of
    the stage that ran last. *)
Fixpoint first_taken (stages : list (MatchType * M (option Hhid * Q)))
         (last : option Hhid * Q) : M (MatchType * option Hhid * Q) :=
  match stages with
  | [] => ret (mt_unmatched, fst last, snd last)
  | (mt, run) :: rest =>
      '(h, s) <- run ;;
      if truthy h then ret (mt, h, s) else first_taken rest (h, s)
  end.

(** The five stages as the orchestrators call them, in their order, each
    with its match type; the reason of the API matcher is left out. *)
Definition stage_runs (store : list Row.t)
           (token_sort_ratio token_set_ratio : string -> string -> Q)
           (doublemetaphone : string -> string * string)
           {Vector : Type} (encode : string -> Vector)
           (cosine_similarity : Vector -> Vector -> Q)
           (api_key : option string)
           (http_get : string -> string -> HttpReply)
           (parsed : Parsed.t) : list (MatchType * M (option Hhid * Q)) :=
  [ (mt_exact, exact_match store parsed);
    (mt_fuzzy, fuzzy_match store token_sort_ratio parsed 70%Q);
    (mt_phonetic,
     phonetic_match store token_set_ratio doublemetaphone parsed 70%Q);
    (mt_embedding,
     embedding_match store encode cosine_similarity parsed (3 # 4)%Q);
    (mt_api,
     '(h, s, _) <- api_match store api_key http_get parsed ;; ret (h, s)) ].

(** The locals after a stage that found a candidate. *)
Definition hit_locals (h : option Hhid) (s : Q) (mt : MatchType)
           (why : string) : Locals :=
  {| l_hhid := h; l_score := s; l_mtype := Some mt; l_reason := why |}.

(** Every identifier of the store is one the orchestrator takes for a
    candidate. *)
Definition ids_truthy (store : list Row.t) : Prop :=
  forall r, In r store -> Row.hhid r <> 0%Z.

(** The candidates that share the query's house number. *)
Definition same_house (store : list Row.t) (num : string) : list Row.t :=
  filter (fun r => Row.house r =s num) store.

(** The survivors of the two filters of [phonetic_match]. *)
Definition phonetic_survivors (doublemetaphone : string -> string * string)
           (store : list Row.t) (parsed : Parsed.t) : list Row.t :=
  let num := PyStr.upper (PyStr.strip (Parsed.street_number parsed)) in
  let parsed_unit := PyStr.upper (PyStr.strip (Parsed.unit parsed)) in
  let target := fst (doublemetaphone (PyStr.upper (Parsed.street_name parsed))) in
  filter (fun r =>
            negb (PyStr.nonempty parsed_unit)
            || (PyStr.upper (PyStr.strip (Row.aptnbr r)) =s parsed_unit))
    (filter (fun r =>
               fst (doublemetaphone (PyStr.upper (Row.street r))) =s target)
       (same_house store num)).

(** The street-string similarity of a candidate to the query, as
    [fuzzy_match] computes it. *)
Definition street_score (token_sort_ratio : string -> string -> Q)
           (parsed : Parsed.t) (r : Row.t) : Q :=
  token_sort_ratio (parsed_full parsed) (canon_full r).

(** The full-address similarity of a candidate to the query, as
    [phonetic_match] computes it. *)
Definition address_score (token_set_ratio : string -> string -> Q)
           (parsed : Parsed.t) (r : Row.t) : Q :=
  token_set_ratio (parsed_full parsed) (PyStr.upper (Row.address r)).

(** What the loop of [fuzzy_match] remembers of a candidate. *)
Definition best_of (score : Q) (r : Row.t) : Best :=
  {| best_hhid := Some (Row.hhid r); best_score := score;
     best_apttype := Row.apttype r; best_aptnbr := Row.aptnbr r |}.

(** ** Concrete data for the examples *)

Module Demo.

Definition row (h : Z) (house predir street strtype apttype aptnbr
                address : string) : Row.t :=
  {| Row.hhid := h; Row.house := house; Row.predir := predir;
     Row.street := street; Row.strtype := strtype; Row.postdir := "";
     Row.apttype := apttype; Row.aptnbr := aptnbr;
     Row.address := address; Row.zip := "11211" |}.

Definition query (num predir name type apt_type unit : string)
  : Parsed.t :=
  {| Parsed.id := "tx1"; Parsed.street_number := num;
     Parsed.predir := predir; Parsed.street_name := name;
     Parsed.street_type := type; Parsed.postdir := "";
     Parsed.apt_type := apt_type; Parsed.unit := unit;
     Parsed.original_address := Some (num ++ " " ++ name ++ " " ++ type)%string;
     Parsed.city := "BROOKLYN"; Parsed.state := "NY";
     Parsed.zip_code := "11211" |}.

(** Two candidates at house 123: the units 4A on MAIN ST and 4B on
    MAIN STREET. *)
Definition main_4a : Row.t :=
  row 1 "123" "" "MAIN" "ST" "APT" "4A" "123 MAIN ST APT 4A".
Definition main_street_4b : Row.t :=
  row 2 "123" "" "MAIN" "STREET" "APT" "4B" "123 MAIN STREET APT 4B".
Definition two_units : list Row.t := [main_4a; main_street_4b].

Definition q_main_4a : Parsed.t := query "123" "" "MAIN" "ST" "APT" "4A".
Definition q_main_4b : Parsed.t := query "123" "" "MAIN" "ST" "APT" "4B".

(** The parsed address whose every component is the empty string. *)
Definition q_empty : Parsed.t :=
  {| Parsed.id := ""; Parsed.street_number := ""; Parsed.predir := "";
     Parsed.street_name := ""; Parsed.street_type := "";
     Parsed.postdir := ""; Parsed.apt_type := ""; Parsed.unit := "";
     Parsed.original_address := Some ""; Parsed.city := "";
     Parsed.state := ""; Parsed.zip_code := "" |}.

(** A candidate without a house number, and the query for it. *)
Definition no_house : Row.t := row 5 "" "" "MAIN" "ST" "" "" "MAIN ST".
Definition q_no_house : Parsed.t := query "" "" "MAIN" "ST" "" "".

(** 123 N MAIN ST, and the query 123 MAIN ST without directional. *)
Definition north_main : Row.t :=
  row 7 "123" "N" "MAIN" "ST" "" "" "123 N MAIN ST".
Definition q_main : Parsed.t := query "123" "" "MAIN" "ST" "" "".
Definition q_north_main : Parsed.t := query "123" "N" "MAIN" "ST" "" "".

(** 123 N MAIN ST once more, under the identifier 0. *)
Definition zero_main : Row.t :=
  row 0 "123" "N" "MAIN" "ST" "" "" "123 N MAIN ST".

(** The validator's answer for 123 Main St: no directional, no unit. *)
Definition geo_main : GeoResult :=
  {| address_components :=
       {| number := Some "123"; predirectional := None;
          c_street := Some "Main"; suffix := Some "St";
          postdirectional := None; secondaryunit := None;
          secondarynumber := None; c_zip := Some "11211" |};
     accuracy := 1%Q |}.
Definition http_main (q key : string) : HttpReply :=
  Response (Json [geo_main]).

(** A candidate whose display address carries more words than the
    street string of the query for it. *)
Definition main_brooklyn : Row.t :=
  row 9 "123" "" "MAIN" "ROAD" "" "" "123 MAIN ST BROOKLYN".

(** Stand-ins for the libraries that are not modelled: a phonetic code
    that is the word itself, and an encoder that keeps the text, with
    similarity 1 on equal texts and 0 otherwise. *)
Definition metaphone_id (s : string) : string * string := (s, "").
Definition encode_id (s : string) : string := s.
Definition cosine_eq (a b : string) : Q := if a =s b then 1%Q else 0%Q.

(** An encoder under which any two texts have the cosine 0.8. *)
Definition cosine_four_fifths (a b : string) : Q := (4 # 5)%Q.

(** 123 1ST AVE, and the query 123 FIRST AVENUE for it. *)
Definition first_ave : Row.t :=
  row 4 "123" "" "1ST" "AVE" "" "" "123 1ST AVE".
Definition q_first_avenue : Parsed.t :=
  query "123" "" "FIRST" "AVENUE" "" "".

(** A query at a house number no candidate has. *)
Definition q_elsewhere : Parsed.t := query "999" "" "MAIN" "ST" "" "".

(** A validator that is never reached, or always fails. *)
Definition http_down (q key : string) : HttpReply := RequestError.

Definition run (store : list Row.t) (key : option string)
           (http : string -> string -> HttpReply) (c : Caller)
           (p : Parsed.t) : M MatchResult :=
  match_one store RapidFuzz.token_sort_ratio RapidFuzz.token_set_ratio
            metaphone_id encode_id cosine_eq key http c p.

End Demo.

(** ** The parser, the batch driver and the endpoint *)

(** The tags of [usaddress.tag]: label and text, a label at most once. *)
Definition Tagged := list (string * string).

(** [d.get(key, default)] *)
Fixpoint dict_get (d : Tagged) (key default : string) : string :=
  match d with
  | [] => default
  | (k, v) :: rest => if k =s key then v else dict_get rest key default
  end.

(** The dict that [parse_address] builds from the tags ([parse.py:13-46]);
    it has no ['city'], ['state'] or ['zip_code']. *)
Definition parse_tagged (tagged : Tagged) (record_id raw_address : string)
  : Parsed.t :=
  let field label := PyStr.upper (PyStr.strip (dict_get tagged label "")) in
  {| Parsed.id := record_id;
     Parsed.street_number := field "AddressNumber";
     Parsed.predir := field "StreetNamePreDirectional";
     Parsed.street_name := field "StreetName";
     Parsed.street_type := field "StreetNamePostType";
     Parsed.postdir := field "StreetNamePostDirectional";
     Parsed.apt_type := field "OccupancyType";
     Parsed.unit := field "OccupancyIdentifier";
     Parsed.original_address := Some raw_address;
     Parsed.city := ""; Parsed.state := ""; Parsed.zip_code := "" |}.

(** [parse.py:4-46]. [usaddress_tag] is the tagger; it gives [None] when
    [usaddress.tag] raises, and so does [parse_address]. *)
Definition parse_address (usaddress_tag : string -> option Tagged)
           (record_id raw_address : string) : option Parsed.t :=
  match usaddress_tag raw_address with
  | Some tagged => Some (parse_tagged tagged record_id raw_address)
  | None => None
  end.

(** A row of [raw_transactions] as [parse_all] selects it: [city], [state]
    and [zip_code] as they are printed. *)
Record RawTransaction := {
  raw_id : string;
  address_line_1 : option string;
  address_line_2 : option string;
  raw_city : string;
  raw_state : string;
  raw_zip_code : string
}.

(** [coalesce(address_line_1, '') || ' ' || coalesce(address_line_2, '')] *)
Definition full_addr (r : RawTransaction) : string :=
  or_empty (address_line_1 r) ++ " " ++ or_empty (address_line_2 r).

(** [p['city'] = row['city']] and the two assignments after it
    ([main.py:38-40]). *)
Definition with_place (p : Parsed.t) (r : RawTransaction) : Parsed.t :=
  {| Parsed.id := Parsed.id p;
     Parsed.street_number := Parsed.street_number p;
     Parsed.predir := Parsed.predir p;
     Parsed.street_name := Parsed.street_name p;
     Parsed.street_type := Parsed.street_type p;
     Parsed.postdir := Parsed.postdir p;
     Parsed.apt_type := Parsed.apt_type p;
     Parsed.unit := Parsed.unit p;
     Parsed.original_address := Parsed.original_address p;
     Parsed.city := raw_city r;
     Parsed.state := raw_state r;
     Parsed.zip_code := raw_zip_code r |}.

(** The loop of [parse_all] ([main.py:33-42]): the rows of
    [parsed_transactions], or [None] when the tagger raises on a row. The
    dict of [parse_address] is never empty, so every row is appended. *)
Fixpoint parse_all (usaddress_tag : string -> option Tagged)
         (rows : list RawTransaction) : option (list Parsed.t) :=
  match rows with
  | [] => Some []
  | row :: rest =>
      match parse_address usaddress_tag (raw_id row) (full_addr row) with
      | None => None
      | Some p =>
          match parse_all usaddress_tag rest with
          | None => None
          | Some parsed => Some (with_place p row :: parsed)
          end
      end
  end.

(** What [match_all] writes: the table [matches], the file
    [matched_output.csv] (the same records) and the file
    [unmatched_report.json]. *)
Record BatchOutput := {
  matches : list MatchResult;
  unmatched_report : list MatchResult
}.

Definition is_unmatched (r : MatchResult) : bool :=
  match match_type r with
  | Some mt_unmatched => true
  | _ => false
  end.

Section Drivers.

Variable store : list Row.t.
Variable token_sort_ratio : string -> string -> Q.
Variable token_set_ratio : string -> string -> Q.
Variable doublemetaphone : string -> string * string.
Variable Vector : Type.
Variable encode : string -> Vector.
Variable cosine_similarity : Vector -> Vector -> Q.
Variable api_key : option string.
Variable http_get : string -> string -> HttpReply.

(** The loop of [match_all] ([main.py:62-126]) over the rows of
    [parsed_transactions], which are given; the statement that reads them
    is not part of the trace. *)
Fixpoint match_rows (parsed_rows : list Parsed.t) : M (list MatchResult) :=
  match parsed_rows with
  | [] => ret []
  | row :: rest =>
      r <- match_one store token_sort_ratio token_set_ratio doublemetaphone
             encode cosine_similarity api_key http_get Batch row ;;
      results <- match_rows rest ;;
      ret (r :: results)
  end.

(** [main.py:52-138]: the results are written once the loop is over. *)
Definition match_all (parsed_rows : list Parsed.t) : M BatchOutput :=
  results <- match_rows parsed_rows ;;
  ret {| matches := results;
         unmatched_report := filter is_unmatched results |}.

End Drivers.

Arguments match_rows store token_sort_ratio token_set_ratio doublemetaphone
  {Vector} encode cosine_similarity api_key http_get.
Arguments match_all store token_sort_ratio token_set_ratio doublemetaphone
  {Vector} encode cosine_similarity api_key http_get.

(** The lower-case form of one character: the capitals A-Z (65-90) and
    the capitals 192-222 other than the multiplication sign 215 go to
    their small letters, 32 above; nothing else below 256 changes. *)
Definition lower_char (c : ascii) : ascii :=
  let n := nat_of_ascii c in
  if (Nat.leb 65 n && Nat.leb n 90)
     || (Nat.leb 192 n && Nat.leb n 222 && negb (Nat.eqb n 215))
  then ascii_of_nat (n + 32) else c.

(** [s.lower().replace(" ", "_")] *)
Fixpoint lower_underscore (s : string) : string :=
  match s with
  | EmptyString => EmptyString
  | String c s' =>
      String (if Ascii.eqb c " " then "_"%char else lower_char c)
             (lower_underscore s')
  end.

(** What the view [match_address] ends with: a 400 reply with its error,
    the 200 reply with the raw address and the result, or an exception
    that leaves the view ([None] when it is the tagger's). *)
Inductive Reply :=
| BadRequest (error : string)
| Answer (raw_address : string) (result : MatchResult)
| Unhandled (e : option PyExn).

Section Endpoint.

Variable store : list Row.t.
Variable token_sort_ratio : string -> string -> Q.
Variable token_set_ratio : string -> string -> Q.
Variable doublemetaphone : string -> string * string.
Variable Vector : Type.
Variable encode : string -> Vector.
Variable cosine_similarity : Vector -> Vector -> Q.
Variable api_key : option string.
Variable http_get : string -> string -> HttpReply.
Variable usaddress_tag : string -> option Tagged.

(** [app.py:22-101]. [raw_address] is the value of the key of that name
    in the payload, [None] when the key is absent. The dict that
    [parse_address] returns always has its nine keys, so the test
    [if not parsed] of the view never holds and has no counterpart here. *)
Definition match_address (raw_address : option string)
  : Reply * list Event :=
  let raw := PyStr.strip (or_empty raw_address) in
  if negb (PyStr.nonempty raw)
  then (BadRequest "raw_address is required", [])
  else
    let tx_id := lower_underscore raw in
    match parse_address usaddress_tag tx_id raw with
    | None => (Unhandled None, [])
    | Some parsed =>
        match match_one store token_sort_ratio token_set_ratio
                doublemetaphone encode cosine_similarity api_key http_get
                Endpoint parsed with
        | (Returned result, t) => (Answer raw result, t)
        | (Raised e, t) => (Unhandled (Some e), t)
        end
    end.

End Endpoint.

Arguments match_address store token_sort_ratio token_set_ratio
  doublemetaphone {Vector} encode cosine_similarity api_key http_get
  usaddress_tag.

(** More data for the examples. *)
Module Sample.

(** The tags of 123 n main st apt 4b. *)
Definition tags_main : Tagged :=
  [("AddressNumber", "123"); ("StreetNamePreDirectional", "n");
   ("StreetName", "main"); ("StreetNamePostType", " st");
   ("OccupancyType", "apt"); ("OccupancyIdentifier", "4b ")].

(** A tagger that knows one address and raises on the text "?". *)
Definition tagger (raw : string) : option Tagged :=
  if PyStr.strip raw =s "?" then None else Some tags_main.

Definition tx (id line1 : string) : RawTransaction :=
  {| raw_id := id; address_line_1 := Some line1; address_line_2 := None;
     raw_city := "BROOKLYN"; raw_state := "NY"; raw_zip_code := "11211" |}.

(** A validator whose answer is not JSON. *)
Definition http_garbage (q key : string) : HttpReply := Response NotJson.

(** A validator that finds nothing. *)
Definition http_nothing (q key : string) : HttpReply := Response (Json []).

(** Two rows with the identifier 7. *)
Definition shared_id : list Row.t :=
  [Demo.row 7 "1" "" "OAK" "ST" "" "" "1 OAK ST";
   Demo.row 7 "123" "N" "MAIN" "ST" "" "" "123 N MAIN ST"].

End Sample.

(** ** Further reference definitions *)

(** A candidate agrees with the query on the seven fields the Exact matcher
    compares. *)
Definition agrees (p : Parsed.t) (r : Row.t) : Prop :=
  Row.house r = Parsed.street_number p /\
  Row.predir r = Parsed.predir p /\
  Row.street r = Parsed.street_name p /\
  Row.strtype r = Parsed.street_type p /\
  Row.postdir r = Parsed.postdir p /\
  Row.apttype r = Parsed.apt_type p /\
  Row.aptnbr r = Parsed.unit p.

(** The house number and the unit number as the Phonetic and the Embedding
    matcher normalise them. *)
Definition norm_number (parsed : Parsed.t) : string :=
  PyStr.upper (PyStr.strip (Parsed.street_number parsed)).
Definition norm_unit (parsed : Parsed.t) : string :=
  PyStr.upper (PyStr.strip (Parsed.unit parsed)).

(** The unit filter of the Embedding matcher: without a parsed unit every
    candidate passes. *)
Definition unit_passes (parsed : Parsed.t) (r : Row.t) : bool :=
  negb (PyStr.nonempty (norm_unit parsed)
        && negb (norm_unit parsed =s PyStr.upper (PyStr.strip (Row.aptnbr r)))).

(** The candidates the Embedding matcher encodes. *)
Definition embedding_eligible (store : list Row.t) (parsed : Parsed.t)
  : list Row.t :=
  filter (unit_passes parsed) (same_house store (norm_number parsed)).

(** The text of a candidate that is encoded, and its cosine similarity to
    the query. *)
Definition cand_addr (r : Row.t) : string :=
  PyStr.upper (PyStr.strip (Row.address r)).
Definition cosine_score {Vector : Type} (encode : string -> Vector)
           (cosine_similarity : Vector -> Vector -> Q)
           (parsed : Parsed.t) (r : Row.t) : Q :=
  cosine_similarity (encode (parsed_full parsed)) (encode (cand_addr r)).

(** A stage returns and finds nothing the orchestrator takes for a
    candidate. *)
Definition misses (stage : M (option Hhid * Q)) : Prop :=
  exists h s, value stage = Returned (h, s) /\ truthy h = false.

(** The display address the orchestrator reports when it has none:
    [''] in [match_all], [None] in [match_address]. *)
Definition no_address (caller : Caller) : option string :=
  match caller with Batch => Some "" | Endpoint => None end.

(** The requests to the validator in a trace: query and key. *)
Fixpoint requests (t : list Event) : list (string * string) :=
  match t with
  | [] => []
  | HttpGet q key :: rest => (q, key) :: requests rest
  | _ :: rest => requests rest
  end.

(** * Properties *)

(** ** Strings *)

Section StringFacts.
Import PyStr.

Lemma rstrip_empty_iff s : rstrip s = "" <-> all_space s = true.
Proof.
induction s as [|c s IH]; simpl.
- tauto.
- destruct (rstrip s) eqn:E.
  + destruct (is_space c); simpl.
    * rewrite <- IH. tauto.
    * split; discriminate.
  + split; [discriminate|].
    intros H. apply andb_true_iff in H as [_ H].
    apply IH in H. discriminate.
Qed.

Lemma lstrip_all_space s : all_space (lstrip s) = all_space s.
Proof.
induction s as [|c s IH]; simpl; auto.
destruct (is_space c) eqn:E; simpl; auto.
now rewrite E.
Qed.

Lemma strip_empty_iff s : strip s = "" <-> all_space s = true.
Proof.
unfold strip. now rewrite rstrip_empty_iff, lstrip_all_space.
Qed.

Lemma all_space_app s t :
all_space (s ++ t) = all_space s && all_space t.
Proof.
induction s as [|c s IH]; simpl; auto.
now rewrite IH, andb_assoc.
Qed.

Lemma strip_empty s : s = "" -> strip s = "".
Proof. now intros ->. Qed.

Lemma nonempty_false_iff s : nonempty s = false <-> s = "".
Proof. destruct s; simpl; split; congruence. Qed.

Lemma nonempty_true_iff s : nonempty s = true <-> s <> "".
Proof. destruct s; simpl; split; congruence. Qed.

End StringFacts.

(** ** The order on scores *)

Lemma Qlt_bool_iff a b : Qlt_bool a b = true <-> (a < b)%Q.
Proof.
  unfold Qlt_bool. rewrite negb_true_iff.
  split; intros H.
  - apply Qnot_le_lt. intros Hle. apply Qle_bool_iff in Hle. congruence.
  - destruct (Qle_bool b a) eqn:E; auto.
    apply Qle_bool_iff in E. exfalso. apply (Qlt_not_le _ _ H E).
Qed.

Lemma Qlt_bool_false_iff a b : Qlt_bool a b = false <-> (b <= a)%Q.
Proof.
  unfold Qlt_bool. rewrite negb_false_iff. apply Qle_bool_iff.
Qed.

(** ** The monad of traces *)

Lemma value_bind_returned {A B} (m : M A) (f : A -> M B) a :
  value m = Returned a -> value (bind m f) = value (f a).
Proof.
  destruct m as [[x|e] t]; simpl; intros H; inversion H; subst.
  unfold value. simpl. now destruct (f a).
Qed.

Lemma trace_bind_returned {A B} (m : M A) (f : A -> M B) a :
  value m = Returned a -> trace (bind m f) = trace m ++ trace (f a).
Proof.
  destruct m as [[x|e] t]; simpl; intros H; inversion H; subst.
  unfold trace. simpl. now destruct (f a).
Qed.

Lemma bind_returned {A B} (a : A) (t : list Event) (f : A -> M B) :
  bind (Returned a, t) f = (value (f a), t ++ trace (f a)).
Proof. simpl. now destruct (f a). Qed.

Lemma bind_ret_l {A B} (a : A) (f : A -> M B) : bind (ret a) f = f a.
Proof. unfold ret. simpl. now destruct (f a). Qed.

Lemma bind_assoc {A B C} (m : M A) (f : A -> M B) (g : B -> M C) :
  bind (bind m f) g = bind m (fun a => bind (f a) g).
Proof.
  destruct m as [[a|e] t]; simpl; auto.
  destruct (f a) as [[b|e] t1]; simpl; auto.
  destruct (g b) as [r t2]. now rewrite app_assoc.
Qed.

Lemma bind_execute {B} store q (f : list Row.t -> M B) :
  bind (execute store q) f =
  (value (f (filter (sql_where q) store)),
   Execute q :: trace (f (filter (sql_where q) store))).
Proof.
  unfold execute, emit, bind, ret, value, trace. simpl.
  now destruct (f _).
Qed.

Lemma value_bind_execute {B} store q (f : list Row.t -> M B) :
  value (bind (execute store q) f) = value (f (filter (sql_where q) store)).
Proof. now rewrite bind_execute. Qed.

Lemma value_bind_emit {B} e (f : unit -> M B) :
  value (bind (emit e) f) = value (f tt).
Proof. unfold emit. now rewrite bind_returned. Qed.

(** ** The highest-scoring candidate *)

Section Argmax.
Context {A : Type} (f : A -> Q).

Lemma argmax_first_in l x : argmax_first f l = Some x -> In x l.
Proof.
  revert x. induction l as [|y l IH]; simpl; intros x H; [discriminate|].
  destruct (argmax_first f l) as [b|].
  - destruct (Qlt_bool (f y) (f b)); inversion H; subst; auto.
  - inversion H; auto.
Qed.

Lemma argmax_first_none l : argmax_first f l = None <-> l = [].
Proof.
  destruct l as [|y l]; simpl; [tauto|].
  destruct (argmax_first f l) as [b|];
    [destruct (Qlt_bool (f y) (f b))|]; split; discriminate.
Qed.

(** No element scores above the selected one. *)
Lemma argmax_first_max l x :
  argmax_first f l = Some x -> forall y, In y l -> (f y <= f x)%Q.
Proof.
  revert x. induction l as [|z l IH]; simpl; intros x H y Hy; [tauto|].
  destruct (argmax_first f l) as [b|] eqn:E.
  - destruct (Qlt_bool (f z) (f b)) eqn:L; inversion H; subst.
    + destruct Hy as [->|Hy]; [|now apply IH].
      apply Qlt_bool_iff in L. now apply Qlt_le_weak.
    + apply Qlt_bool_false_iff in L.
      destruct Hy as [->|Hy]; [apply Qle_refl|].
      eapply Qle_trans; [apply (IH b eq_refl y Hy)|exact L].
  - inversion H; subst. apply argmax_first_none in E. subst.
    destruct Hy as [->|[]]. apply Qle_refl.
Qed.

(** The selected element is the first of its score: everything before it
    scores strictly less. *)
Lemma argmax_first_earliest l x :
  argmax_first f l = Some x ->
  exists before after,
    l = before ++ x :: after /\
    forall y, In y before -> (f y < f x)%Q.
Proof.
  revert x. induction l as [|z l IH]; simpl; intros x H; [discriminate|].
  destruct (argmax_first f l) as [b|] eqn:E.
  - destruct (Qlt_bool (f z) (f b)) eqn:L; inversion H; subst.
    + destruct (IH x eq_refl) as (bf & af & -> & Hb).
      exists (z :: bf), af. split; [reflexivity|].
      intros y [->|Hy]; [now apply Qlt_bool_iff|auto].
    + exists [], l. split; [reflexivity|]. intros y [].
  - inversion H; subst. exists [], l. split; [reflexivity|]. intros y [].
Qed.

End Argmax.

(** ** The Fuzzy matcher *)

Section FuzzyFacts.
Variable store : list Row.t.
Variable tsr : string -> string -> Q.
Variable p : Parsed.t.

Let score := street_score tsr p.

(** The loop keeps the first candidate of the highest score, provided
    it beats the score the loop started from. *)
Lemma fuzzy_loop rows : forall b,
  fold_left (fuzzy_step tsr (parsed_full p)) rows b =
  match argmax_first score rows with
  | Some r => if Qlt_bool (best_score b) (score r)
              then best_of (score r) r else b
  | None => b
  end.
Proof.
  induction rows as [|r rows IH]; intros b; simpl; [reflexivity|].
  rewrite IH. unfold fuzzy_step.
  fold (street_score tsr p r). fold score.
  fold (best_of (score r) r).
  destruct (argmax_first score rows) as [m|] eqn:E.
  - destruct (Qlt_bool (best_score b) (score r)) eqn:L1; simpl.
    + destruct (Qlt_bool (score r) (score m)) eqn:L2.
      * replace (Qlt_bool (best_score b) (score m)) with true; auto.
        symmetry. apply Qlt_bool_iff. apply Qlt_bool_iff in L1, L2.
        eapply Qlt_trans; eauto.
      * now rewrite L1.
    + destruct (Qlt_bool (score r) (score m)) eqn:L2; auto.
      rewrite L1.
      replace (Qlt_bool (best_score b) (score m)) with false; auto.
      symmetry. apply Qlt_bool_false_iff.
      apply Qlt_bool_false_iff in L1, L2. eapply Qle_trans; eauto.
  - destruct (Qlt_bool (best_score b) (score r)); reflexivity.
Qed.

(** What [fuzzy_match] returns once the house number passes the guard. *)
Lemma fuzzy_match_value threshold :
  PyStr.strip (Parsed.street_number p) <> "" ->
  (0 < threshold)%Q ->
  fuzzy_match store tsr p threshold =
  (Returned
     match argmax_first score
             (same_house store (PyStr.strip (Parsed.street_number p))) with
     | Some r =>
         if Qle_bool threshold (score r)
            && (Parsed.unit p =s Row.aptnbr r)
         then (Some (Row.hhid r), round2 (score r))
         else (None, 0%Q)
     | None => (None, 0%Q)
     end,
   [Execute (SelectFuzzy (PyStr.strip (Parsed.street_number p)))]).
Proof.
  intros Hnum Hthr. unfold fuzzy_match.
  apply nonempty_true_iff in Hnum. rewrite Hnum. simpl negb. cbv iota.
  unfold execute, emit, ret, bind. simpl sql_where.
  fold (same_house store (PyStr.strip (Parsed.street_number p))).
  rewrite fuzzy_loop.
  assert (Hlow : Qle_bool threshold 0 = false).
  { destruct (Qle_bool threshold 0) eqn:E; auto.
    apply Qle_bool_iff in E. exfalso. apply (Qlt_not_le _ _ Hthr E). }
  destruct (argmax_first score _) as [r|] eqn:E; simpl best_score.
  - destruct (Qlt_bool 0 (score r)) eqn:L; simpl.
    + destruct (Qle_bool threshold (score r) && _); reflexivity.
    + rewrite Hlow. simpl.
      replace (Qle_bool threshold (score r)) with false; [reflexivity|].
      symmetry. destruct (Qle_bool threshold (score r)) eqn:E2; auto.
      apply Qle_bool_iff in E2. apply Qlt_bool_false_iff in L.
      exfalso. apply (Qlt_not_le _ _ Hthr). eapply Qle_trans; eauto.
  - rewrite Hlow. reflexivity.
Qed.

End FuzzyFacts.

(** Claim C4. For a parsed address whose street number is not empty (after
    trimming) the Fuzzy matcher tracks the single highest-scoring candidate
    of the same house number, and returns it, with its rounded score, if
    and only if its street-string score reaches the threshold and its unit
    number is string-equal to the parsed one; in every other case it
    returns no candidate and the score 0.0. The unit type takes no part. *)
Theorem fuzzy_match_best_gate store tsr p threshold :
  PyStr.strip (Parsed.street_number p) <> "" ->
  (0 < threshold)%Q ->
  let candidates :=
    same_house store (PyStr.strip (Parsed.street_number p)) in
  let score := street_score tsr p in
  match argmax_first score candidates with
  | Some r =>
      In r candidates /\
      (forall y, In y candidates -> (score y <= score r)%Q) /\
      (((threshold <= score r)%Q /\ Parsed.unit p = Row.aptnbr r) ->
       value (fuzzy_match store tsr p threshold)
       = Returned (Some (Row.hhid r), round2 (score r))) /\
      (~ ((threshold <= score r)%Q /\ Parsed.unit p = Row.aptnbr r) ->
       value (fuzzy_match store tsr p threshold) = Returned (None, 0%Q))
  | None =>
      candidates = [] /\
      value (fuzzy_match store tsr p threshold) = Returned (None, 0%Q)
  end.
Proof.
  intros Hnum Hthr candidates score.
  rewrite (fuzzy_match_value store tsr p threshold Hnum Hthr).
  fold candidates score. unfold value; simpl fst.
  destruct (argmax_first score candidates) as [r|] eqn:E.
  - split; [eapply argmax_first_in; eauto|].
    split; [eapply argmax_first_max; eauto|].
    destruct (Qle_bool threshold (score r)) eqn:L;
      destruct (Parsed.unit p =s Row.aptnbr r) eqn:U; simpl;
      split; intros H; try reflexivity.
    + exfalso. apply H. split; [now apply Qle_bool_iff|now apply String.eqb_eq].
    + destruct H as [_ H]. apply String.eqb_eq in H. congruence.
    + destruct H as [H _]. apply Qle_bool_iff in H. congruence.
    + destruct H as [H _]. apply Qle_bool_iff in H. congruence.
  - split; [now apply (argmax_first_none score)|reflexivity].
Qed.

Lemma fuzzy_match_best_gate_witness :
  value (fuzzy_match Demo.two_units RapidFuzz.token_sort_ratio
                     Demo.q_main_4a 70)
  = Returned (Some 1%Z, 100%Q).
Proof.
  pose proof (fuzzy_match_best_gate Demo.two_units
                RapidFuzz.token_sort_ratio Demo.q_main_4a 70
                ltac:(vm_compute; discriminate) ltac:(reflexivity)) as H.
  cbv zeta in H.
  match type of H with
  | context [argmax_first ?f ?l] =>
      replace (argmax_first f l) with (Some Demo.main_4a) in H
        by (vm_compute; reflexivity)
  end.
  destruct H as (_ & _ & H & _).
  rewrite H; [vm_compute; reflexivity|].
  split; [vm_compute; discriminate|reflexivity].
Defined.

(** Claim C9. The unit-number gate of the Fuzzy matcher is applied to the
    single highest-scoring candidate only: when that candidate reaches the
    threshold but carries another unit number than the parsed one, the
    stage returns no candidate, whatever the other candidates of the same
    house number are. *)
Theorem fuzzy_unit_gate_on_best_only store tsr p threshold r :
  PyStr.strip (Parsed.street_number p) <> "" ->
  (0 < threshold)%Q ->
  argmax_first (street_score tsr p)
    (same_house store (PyStr.strip (Parsed.street_number p))) = Some r ->
  (threshold <= street_score tsr p r)%Q ->
  Row.aptnbr r <> Parsed.unit p ->
  value (fuzzy_match store tsr p threshold) = Returned (None, 0%Q).
Proof.
  intros Hnum Hthr Hbest _ Hunit.
  rewrite (fuzzy_match_value store tsr p threshold Hnum Hthr), Hbest.
  unfold value; simpl fst.
  destruct (Parsed.unit p =s Row.aptnbr r) eqn:U.
  - apply String.eqb_eq in U. congruence.
  - now rewrite andb_false_r.
Qed.

(** The highest-scoring candidate has unit 4A; the other candidate reaches
    the threshold and has the parsed unit 4B, and is not returned. *)
Lemma fuzzy_unit_gate_on_best_only_witness :
  In Demo.main_street_4b (same_house Demo.two_units "123")
  /\ (70 <= street_score RapidFuzz.token_sort_ratio Demo.q_main_4b
              Demo.main_street_4b)%Q
  /\ Row.aptnbr Demo.main_street_4b = Parsed.unit Demo.q_main_4b
  /\ value (fuzzy_match Demo.two_units RapidFuzz.token_sort_ratio
                        Demo.q_main_4b 70)
     = Returned (None, 0%Q).
Proof.
  split; [right; left; reflexivity|].
  split; [vm_compute; discriminate|].
  split; [reflexivity|].
  apply (fuzzy_unit_gate_on_best_only Demo.two_units
           RapidFuzz.token_sort_ratio Demo.q_main_4b 70 Demo.main_4a).
  - vm_compute; discriminate.
  - reflexivity.
  - vm_compute; reflexivity.
  - vm_compute; discriminate.
  - vm_compute; discriminate.
Defined.

(** ** The field comparisons of the Exact and the API lookup *)

Section LookupFacts.

Lemma eqb_or_both_empty a b :
(a =s b) || ((a =s "") && (b =s "")) = (a =s b).
Proof.
destruct (a =s b) eqn:E; simpl; auto.
destruct (a =s "") eqn:Ea; simpl; auto.
destruct (b =s "") eqn:Eb; simpl; auto.
apply String.eqb_eq in Ea, Eb. subst. now rewrite String.eqb_refl in E.
Qed.

(** The four-way test on a field of the API lookup is equality. *)
Lemma api_unit_test q c :
((q =s "") && (c =s "")) || (negb (q =s "") && (c =s q)) = (c =s q).
Proof.
destruct (q =s "") eqn:Eq; simpl.
- apply String.eqb_eq in Eq. subst. now rewrite orb_false_r.
- reflexivity.
Qed.

Lemma null_equiv_eq a b : null_equiv a b <-> a = b.
Proof.
unfold null_equiv. split; [intros [H|[-> ->]]; auto|auto].
Qed.

Lemma wildcard_spec q c :
(q =s "") || (c =s q) = true <-> wildcard q c.
Proof.
unfold wildcard. rewrite orb_true_iff, !String.eqb_eq. tauto.
Qed.

(** The WHERE clause of [exact_match] is equality on the seven fields. *)
Lemma exact_where_spec p r :
exact_where p r = true <->
Row.house r = Parsed.street_number p /\
Row.predir r = Parsed.predir p /\
Row.street r = Parsed.street_name p /\
Row.strtype r = Parsed.street_type p /\
Row.postdir r = Parsed.postdir p /\
Row.apttype r = Parsed.apt_type p /\
Row.aptnbr r = Parsed.unit p.
Proof.
unfold exact_where. rewrite !eqb_or_both_empty.
rewrite !andb_true_iff, orb_true_iff, !andb_true_iff, !String.eqb_eq.
split.
- intros (((((H1 & H2) & H3) & H4) & H5) & [[H6 H7]|(((A & B) & C) & D)]);
    repeat split; auto; congruence.
- intros (H1 & H2 & H3 & H4 & H5 & H6 & H7). repeat split; auto.
Qed.

End LookupFacts.

(** Claim C2, as the code has it. The lookup of the API matcher compares
    house number, street name and zip by equality, and unit type and unit
    number each by equality, which is null-equivalence: an empty field
    matches an empty field only. For the two directionals and the street
    type an empty query field matches every candidate value, and a
    non-empty one must be equal. The Exact matcher compares all its seven
    fields by equality. *)
Theorem api_where_rule (a : Api.t) (p : Parsed.t) (r : Row.t) :
  (api_where a r = true <->
   Row.house r = Api.house a /\
   Row.street r = Api.street a /\
   Row.zip r = Api.zip5 a /\
   wildcard (Api.predir a) (Row.predir r) /\
   wildcard (Api.postdir a) (Row.postdir r) /\
   wildcard (Api.strtype a) (Row.strtype r) /\
   null_equiv (Row.apttype r) (Api.apt_type a) /\
   null_equiv (Row.aptnbr r) (Api.unit a))
  /\
  (exact_where p r = true <->
   Row.house r = Parsed.street_number p /\
   Row.street r = Parsed.street_name p /\
   null_equiv (Row.predir r) (Parsed.predir p) /\
   null_equiv (Row.postdir r) (Parsed.postdir p) /\
   null_equiv (Row.strtype r) (Parsed.street_type p) /\
   null_equiv (Row.apttype r) (Parsed.apt_type p) /\
   null_equiv (Row.aptnbr r) (Parsed.unit p)).
Proof.
  split.
  - unfold api_where. rewrite !api_unit_test.
    rewrite !andb_true_iff, !wildcard_spec, !String.eqb_eq, !null_equiv_eq.
    tauto.
  - rewrite exact_where_spec, !null_equiv_eq. tauto.
Qed.

(** Claim C2 fails as stated: the validator's answer has no directional,
    the candidate has the directional N, and the lookup of the API matcher
    returns the candidate; the Exact matcher rejects the same pair. *)
Lemma api_lookup_empty_directional_matches :
  Api.predir (api_params (address_components Demo.geo_main)) = ""
  /\ Row.predir Demo.north_main = "N"
  /\ value (api_match [Demo.north_main] (Some "key") Demo.http_main
                      Demo.q_main)
     = Returned (Some 7%Z, 1%Q, "api match")
  /\ value (exact_match [Demo.north_main] Demo.q_main)
     = Returned (None, 0%Q).
Proof. repeat split; vm_compute; reflexivity. Qed.

(** ** The house-number guard *)

(** Claim C8, as the code has it. The Fuzzy, Phonetic and Embedding
    matchers return no candidate and the score 0.0, without any lookup,
    when the parsed street number is empty or blank. The Exact matcher has
    no such guard: it always runs its lookup, the house number being one
    more field compared by equality. *)
Theorem house_guard_skips store tsr tss dm (V : Type)
        (enc : string -> V) (cos : V -> V -> Q) p thr :
  PyStr.strip (Parsed.street_number p) = "" ->
  fuzzy_match store tsr p thr = (Returned (None, 0%Q), [])
  /\ phonetic_match store tss dm p thr = (Returned (None, 0%Q), [])
  /\ embedding_match store enc cos p thr = (Returned (None, 0%Q), [])
  /\ trace (exact_match store p) = [Execute (SelectExact p)].
Proof.
  intros H. unfold fuzzy_match, phonetic_match, embedding_match.
  rewrite H. simpl. repeat split.
  unfold exact_match, execute, emit, ret, bind, trace. simpl.
  destruct (first _); reflexivity.
Qed.

Lemma house_guard_skips_witness :
  fuzzy_match [Demo.no_house] RapidFuzz.token_sort_ratio Demo.q_no_house 70
  = (Returned (None, 0%Q), []).
Proof.
  apply (house_guard_skips [Demo.no_house] RapidFuzz.token_sort_ratio
           RapidFuzz.token_set_ratio Demo.metaphone_id string
           Demo.encode_id Demo.cosine_eq Demo.q_no_house 70).
  reflexivity.
Defined.

(** Claim C8 fails as stated for the Exact matcher: with an empty street
    number it runs its lookup and returns the candidate that has no house
    number either. *)
Lemma exact_match_not_skipped :
  Parsed.street_number Demo.q_no_house = ""
  /\ exact_match [Demo.no_house] Demo.q_no_house
     = (Returned (Some 5%Z, 1%Q), [Execute (SelectExact Demo.q_no_house)]).
Proof. split; reflexivity. Qed.

(** ** The API matcher *)

Section ApiFacts.

Variable store : list Row.t.
Variable api_key : option string.
Variable http_get : string -> string -> HttpReply.

(** The query string holds its two commas, so it is never empty. *)
Lemma api_query_nonempty p s :
Parsed.original_address p = Some s ->
exists full, api_query p = ret full /\ full <> "".
Proof.
intros H. unfold api_query. rewrite H. eexists. split; [reflexivity|].
intros E. apply strip_empty_iff in E.
rewrite all_space_app in E. apply andb_true_iff in E as [_ E].
simpl in E. discriminate.
Qed.

(** The reasons [api_lookup] gives on a query string that is not empty. *)
Lemma api_lookup_reasons key full h s r :
full <> "" ->
value (api_lookup store http_get key full) = Returned (h, s, r) ->
r = "api request error" \/ r = "no api result" \/ r = "api match"
\/ r = "api returned but no match".
Proof.
intros Hfull. unfold api_lookup.
apply nonempty_true_iff in Hfull. rewrite Hfull. simpl negb. cbv iota.
unfold emit, bind, ret, value, execute.
destruct (http_get full key) as [|[|[|top rest]]]; simpl.
- intros H; inversion H; auto.
- discriminate.
- intros H; inversion H; auto.
- destruct (first _); simpl; intros H; inversion H; auto.
Qed.

(** A candidate that is absent comes with the score 0.0. *)
Lemma api_match_none_score p s r :
value (api_match store api_key http_get p) = Returned (None, s, r) ->
s = 0%Q.
Proof.
unfold api_match, api_query, api_lookup, execute, emit, bind, ret, raise,
  value.
destruct api_key as [[|c k]|]; simpl; try (intros H; now inversion H).
destruct (Parsed.original_address p); simpl; [|discriminate].
destruct (PyStr.nonempty _); simpl; [|intros H; now inversion H].
destruct (http_get _ _) as [|[|[|top rest]]]; simpl;
  try (intros H; now inversion H).
destruct (first _); simpl; intros H; now inversion H.
Qed.

(** The score that comes with a candidate is the accuracy of the
  validator's top result. *)
Lemma api_match_accuracy p h s r :
value (api_match store api_key http_get p) = Returned (Some h, s, r) ->
exists key full top rest,
  http_get full key = Response (Json (top :: rest)) /\ s = accuracy top.
Proof.
unfold api_match, api_query, api_lookup, execute, emit, bind, ret, raise,
  value.
destruct api_key as [[|c k]|]; simpl; try discriminate.
destruct (Parsed.original_address p); simpl; [|discriminate].
destruct (PyStr.nonempty _); simpl; [|discriminate].
destruct (http_get _ _) as [|[|[|top rest]]] eqn:E; simpl;
  try discriminate.
destruct (filter _ store) as [|row rows]; simpl; [discriminate|].
intros H; inversion H; subst.
do 4 eexists. split; [exact E|reflexivity].
Qed.

(** The candidate of the API matcher is a row of the store. *)
Lemma api_match_in_store p h s r :
value (api_match store api_key http_get p) = Returned (Some h, s, r) ->
exists row, In row store /\ Row.hhid row = h.
Proof.
unfold api_match, api_query, api_lookup, execute, emit, bind, ret, raise,
  value.
destruct api_key as [[|c k]|]; simpl; try discriminate.
destruct (Parsed.original_address p); simpl; [|discriminate].
destruct (PyStr.nonempty _); simpl; [|discriminate].
destruct (http_get _ _) as [|[|[|top rest]]]; simpl; try discriminate.
destruct (filter _ store) as [|row rows] eqn:E; simpl; [discriminate|].
intros H; inversion H; subst. exists row. split; auto.
assert (Hin : In row (row :: rows)) by now left.
rewrite <- E in Hin. now apply filter_In in Hin.
Qed.

End ApiFacts.

(** Claim C10. For every parsed input that has the key 'original_address'
    the query string of the API matcher is not empty, since it is built
    with its literal commas: the empty-query branch is never taken and no
    call returns the reason 'no original_address'. *)
Theorem api_empty_query_unreachable store api_key http_get p street_part :
  Parsed.original_address p = Some street_part ->
  (exists full, api_query p = ret full /\ full <> "")
  /\ forall h s r,
      value (api_match store api_key http_get p) = Returned (h, s, r) ->
      r <> "no original_address".
Proof.
  intros H. split; [eapply api_query_nonempty; eauto|].
  intros h s r. unfold api_match.
  destruct api_key as [[|c k]|].
  - simpl. intros E; inversion E. discriminate.
  - destruct (api_query_nonempty p street_part H) as (full & Hq & Hfull).
    rewrite Hq, bind_ret_l. intros E.
    apply api_lookup_reasons in E; auto.
    destruct E as [-> | [-> | [-> | ->]]]; discriminate.
  - simpl. intros E; inversion E. discriminate.
Qed.

(** With every component empty the query string is [", ,"]. *)
Lemma api_empty_query_unreachable_witness :
  api_query Demo.q_empty = ret ", ,"
  /\ forall h s r,
      value (api_match [] (Some "key") Demo.http_down Demo.q_empty)
      = Returned (h, s, r) ->
      r <> "no original_address".
Proof.
  split; [vm_compute; reflexivity|].
  apply (api_empty_query_unreachable [] (Some "key") Demo.http_down
           Demo.q_empty "").
  reflexivity.
Defined.

(** ** The Phonetic matcher *)

Section PhoneticFacts.

Variable store : list Row.t.
Variable tss : string -> string -> Q.
Variable dm : string -> string * string.
Variable p : Parsed.t.

Let score := address_score tss p.

(** The scoring loop keeps the first survivor of the highest score,
  provided it beats the score the loop started from. *)
Lemma phonetic_loop rows : forall b,
fold_left (phonetic_step tss (parsed_full p)) rows b =
match argmax_first score rows with
| Some r => if Qlt_bool (snd b) (score r)
            then (Some (Row.hhid r), score r) else b
| None => b
end.
Proof.
induction rows as [|r rows IH]; intros b; simpl; [reflexivity|].
rewrite IH. unfold phonetic_step.
fold (address_score tss p r). fold score.
destruct (argmax_first score rows) as [m|] eqn:E.
- destruct (Qlt_bool (snd b) (score r)) eqn:L1; simpl.
  + destruct (Qlt_bool (score r) (score m)) eqn:L2.
    * replace (Qlt_bool (snd b) (score m)) with true; auto.
      symmetry. apply Qlt_bool_iff. apply Qlt_bool_iff in L1, L2.
      eapply Qlt_trans; eauto.
    * now rewrite L1.
  + destruct (Qlt_bool (score r) (score m)) eqn:L2; auto.
    rewrite L1.
    replace (Qlt_bool (snd b) (score m)) with false; auto.
    symmetry. apply Qlt_bool_false_iff.
    apply Qlt_bool_false_iff in L1, L2. eapply Qle_trans; eauto.
- destruct (Qlt_bool (snd b) (score r)); reflexivity.
Qed.

Lemma filter_all_true {A} (l : list A) : filter (fun _ => true) l = l.
Proof. induction l; simpl; congruence. Qed.

Lemma is_nil_filter_nil {A} (f : A -> bool) (l : list A) :
RapidFuzz.is_nil l = true -> filter f l = [].
Proof. destruct l; simpl; [reflexivity|discriminate]. Qed.

Lemma upper_nonempty s : PyStr.nonempty (PyStr.upper s) = PyStr.nonempty s.
Proof. destruct s; reflexivity. Qed.

(** What [phonetic_match] returns once the house number passes the
  guard. *)
Lemma phonetic_match_value threshold :
PyStr.strip (Parsed.street_number p) <> "" ->
(0 < threshold)%Q ->
value (phonetic_match store tss dm p threshold) =
Returned
  match argmax_first score (phonetic_survivors dm store p) with
  | Some r =>
      if Qle_bool threshold (score r)
      then (Some (Row.hhid r), round2 (score r))
      else (None, 0%Q)
  | None => (None, 0%Q)
  end.
Proof.
intros Hnum Hthr. unfold phonetic_match, phonetic_survivors.
apply nonempty_true_iff in Hnum. rewrite upper_nonempty, Hnum.
simpl negb. cbv iota.
rewrite bind_execute. unfold value at 1. simpl fst.
set (num := PyStr.upper (PyStr.strip (Parsed.street_number p))).
set (pu := PyStr.upper (PyStr.strip (Parsed.unit p))).
change (filter (sql_where (SelectPhonetic num)) store)
  with (same_house store num).
set (target := fst (dm (PyStr.upper (Parsed.street_name p)))).
set (byphon := fun r : Row.t =>
                 fst (dm (PyStr.upper (Row.street r))) =s target).
assert (Hlow : Qle_bool threshold 0 = false).
{ destruct (Qle_bool threshold 0) eqn:E; auto.
  apply Qle_bool_iff in E. exfalso. apply (Qlt_not_le _ _ Hthr E). }
destruct (RapidFuzz.is_nil (same_house store num)) eqn:N1.
{ rewrite (is_nil_filter_nil byphon _ N1). reflexivity. }
destruct (RapidFuzz.is_nil (filter byphon (same_house store num))) eqn:N2.
{ rewrite (is_nil_filter_nil _ _ N2). reflexivity. }
set (phon := filter byphon (same_house store num)) in *.
assert (Hsurv :
  (if PyStr.nonempty pu
   then filter (fun r => PyStr.upper (PyStr.strip (Row.aptnbr r)) =s pu)
          phon
   else phon)
  = filter (fun r => negb (PyStr.nonempty pu)
                     || (PyStr.upper (PyStr.strip (Row.aptnbr r)) =s pu))
      phon).
{ destruct (PyStr.nonempty pu); simpl; [reflexivity|].
  now rewrite filter_all_true. }
rewrite Hsurv. clear Hsurv.
set (surv := filter _ phon).
destruct (RapidFuzz.is_nil surv) eqn:N3.
{ destruct surv; [reflexivity|discriminate]. }
rewrite phonetic_loop. simpl snd.
destruct (argmax_first score surv) as [r|] eqn:E.
- destruct (Qlt_bool 0 (score r)) eqn:L; simpl.
  + destruct (Qle_bool threshold (score r)); reflexivity.
  + rewrite Hlow.
    replace (Qle_bool threshold (score r)) with false; [reflexivity|].
    symmetry. destruct (Qle_bool threshold (score r)) eqn:E2; auto.
    apply Qle_bool_iff in E2. apply Qlt_bool_false_iff in L.
    exfalso. apply (Qlt_not_le _ _ Hthr). eapply Qle_trans; eauto.
- simpl. rewrite Hlow. reflexivity.
Qed.

Lemma phonetic_survivors_in r :
In r (phonetic_survivors dm store p) -> In r store.
Proof.
unfold phonetic_survivors, same_house. intros H.
apply filter_In in H as [H _]. apply filter_In in H as [H _].
now apply filter_In in H as [H _].
Qed.

End PhoneticFacts.

(** Claim C5, as the code has it. The Phonetic matcher scores its
    survivors with [token_set_ratio], applied to the query's full street
    string and the candidate's upper-cased display address, and accepts the
    first survivor of the highest score when that score reaches the
    threshold. The Fuzzy matcher scores with [token_sort_ratio]. *)
Theorem phonetic_match_token_set store tss dm p threshold :
  PyStr.strip (Parsed.street_number p) <> "" ->
  (0 < threshold)%Q ->
  let score r := tss (parsed_full p) (PyStr.upper (Row.address r)) in
  value (phonetic_match store tss dm p threshold) =
  Returned
    match argmax_first score (phonetic_survivors dm store p) with
    | Some r =>
        if Qle_bool threshold (score r)
        then (Some (Row.hhid r), round2 (score r))
        else (None, 0%Q)
    | None => (None, 0%Q)
    end.
Proof.
  intros Hnum Hthr score.
  apply (phonetic_match_value store tss dm p threshold Hnum Hthr).
Qed.

Lemma phonetic_match_token_set_witness :
  value (phonetic_match [Demo.main_brooklyn] RapidFuzz.token_set_ratio
           Demo.metaphone_id Demo.q_main 70)
  = Returned (Some 9%Z, 100%Q).
Proof.
  rewrite (phonetic_match_token_set [Demo.main_brooklyn]
             RapidFuzz.token_set_ratio Demo.metaphone_id Demo.q_main 70
             ltac:(vm_compute; discriminate) ltac:(reflexivity)).
  vm_compute. reflexivity.
Defined.

(** Claim C5 fails as stated: the two scorers differ on the street string
    MAIN ST and the display address 123 MAIN ST BROOKLYN, and the Phonetic
    matcher accepts that candidate with its own scorer while it would
    reject it with the scorer of the Fuzzy matcher. *)
Lemma phonetic_scorer_differs :
  RapidFuzz.token_set_ratio "MAIN ST" "123 MAIN ST BROOKLYN" = 100%Q
  /\ RapidFuzz.token_sort_ratio "MAIN ST" "123 MAIN ST BROOKLYN"
     = (1400 # 27)%Q
  /\ (forall dm,
        value (phonetic_match [Demo.main_brooklyn]
                 RapidFuzz.token_set_ratio dm Demo.q_main 70)
        = Returned (Some 9%Z, 100%Q))
  /\ (forall dm,
        value (phonetic_match [Demo.main_brooklyn]
                 RapidFuzz.token_sort_ratio dm Demo.q_main 70)
        = Returned (None, 0%Q)).
Proof.
  split; [vm_compute; reflexivity|].
  split; [vm_compute; reflexivity|].
  split; intros dm;
    (rewrite phonetic_match_value;
     [|vm_compute; discriminate|reflexivity]);
    unfold phonetic_survivors;
    change (same_house [Demo.main_brooklyn]
              (PyStr.upper (PyStr.strip (Parsed.street_number Demo.q_main))))
      with [Demo.main_brooklyn];
    cbn [filter Demo.main_brooklyn Demo.row Demo.q_main Demo.query
         Row.street Parsed.street_name];
    rewrite String.eqb_refl; vm_compute; reflexivity.
Qed.

(** ** The Embedding matcher *)

(** A loop that keeps the element seen so far that scores highest keeps the
    first element of the highest score, provided it beats the start. *)
Lemma track_best {A S} (f : A -> Q) (sc : S -> Q) (mk : A -> S) :
  (forall x, sc (mk x) = f x) ->
  forall l b,
    fold_left (fun b x => if Qlt_bool (sc b) (f x) then mk x else b) l b =
    match argmax_first f l with
    | Some r => if Qlt_bool (sc b) (f r) then mk r else b
    | None => b
    end.
Proof.
  intros Hmk. induction l as [|x l IH]; intros b; simpl; [reflexivity|].
  rewrite IH.
  destruct (argmax_first f l) as [m|] eqn:E.
  - destruct (Qlt_bool (sc b) (f x)) eqn:L1.
    + rewrite Hmk.
      destruct (Qlt_bool (f x) (f m)) eqn:L2; [|now rewrite ?L1].
      replace (Qlt_bool (sc b) (f m)) with true; [reflexivity|].
      symmetry. apply Qlt_bool_iff. apply Qlt_bool_iff in L1, L2.
      eapply Qlt_trans; eauto.
    + destruct (Qlt_bool (f x) (f m)) eqn:L2; [reflexivity|].
      rewrite L1.
      replace (Qlt_bool (sc b) (f m)) with false; [reflexivity|].
      symmetry. apply Qlt_bool_false_iff.
      apply Qlt_bool_false_iff in L1, L2. eapply Qle_trans; eauto.
  - destruct (Qlt_bool (sc b) (f x)); reflexivity.
Qed.

Section EmbeddingFacts.

Variable store : list Row.t.
Variable V : Type.
Variable enc : string -> V.
Variable cos : V -> V -> Q.
Variable p : Parsed.t.

Let score := cosine_score enc cos p.

(** The loop of the Embedding matcher: the candidates that pass the unit
    filter are encoded, in their order, and the best of them is kept. *)
Lemma embedding_loop_run rows : forall best,
  embedding_loop enc cos (norm_unit p) (enc (parsed_full p)) rows best =
  (Returned
     (fold_left
        (fun b r => if Qlt_bool (snd b) (score r)
                    then (Some (Row.hhid r), score r) else b)
        (filter (unit_passes p) rows) best),
   map (fun r => Encode (cand_addr r)) (filter (unit_passes p) rows)).
Proof.
  induction rows as [|r rows IH]; intros best; cbn [embedding_loop filter].
  - reflexivity.
  - set (c := PyStr.nonempty (norm_unit p)
              && negb (norm_unit p
                       =s PyStr.upper (PyStr.strip (Row.aptnbr r)))).
    assert (Hc : unit_passes p r = negb c) by reflexivity.
    rewrite Hc. destruct c; cbn [negb].
    + apply IH.
    + unfold emit. rewrite bind_returned, IH. reflexivity.
Qed.

(** The Embedding matcher once the house number passes the guard. *)
Lemma embedding_match_run threshold :
  PyStr.strip (Parsed.street_number p) <> "" ->
  (0 < threshold)%Q ->
  embedding_match store enc cos p threshold =
  (Returned
     match argmax_first score (embedding_eligible store p) with
     | Some r =>
         if truthy (Some (Row.hhid r)) && Qle_bool threshold (score r)
         then (Some (Row.hhid r), round2 (score r * 100)%Q)
         else (None, 0%Q)
     | None => (None, 0%Q)
     end,
   Execute (SelectEmbedding (norm_number p))
   :: match same_house store (norm_number p) with
      | [] => []
      | _ :: _ =>
          Encode (parsed_full p)
          :: map (fun r => Encode (cand_addr r)) (embedding_eligible store p)
      end).
Proof.
  intros Hnum Hthr. unfold embedding_match.
  fold (norm_number p). fold (norm_unit p).
  apply nonempty_true_iff in Hnum.
  unfold norm_number at 1. rewrite upper_nonempty, Hnum. cbn [negb].
  rewrite bind_execute.
  change (filter (sql_where (SelectEmbedding (norm_number p))) store)
    with (same_house store (norm_number p)).
  unfold embedding_eligible.
  destruct (same_house store (norm_number p)) as [|r0 rows] eqn:E.
  { reflexivity. }
  cbn [RapidFuzz.is_nil]. unfold emit. rewrite bind_returned.
  rewrite embedding_loop_run, bind_returned.
  rewrite (track_best score snd (fun r => (Some (Row.hhid r), score r)))
    by reflexivity.
  cbn [snd].
  assert (Hlow : forall x, (x <= 0)%Q -> Qle_bool threshold x = false).
  { intros x Hx. destruct (Qle_bool threshold x) eqn:L; auto.
    apply Qle_bool_iff in L. exfalso. apply (Qlt_not_le _ _ Hthr).
    eapply Qle_trans; eauto. }
  destruct (argmax_first score (filter (unit_passes p) (r0 :: rows)))
    as [r|].
  - destruct (Qlt_bool 0 (score r)) eqn:L; cbn [fst snd].
    + destruct (truthy (Some (Row.hhid r)) && Qle_bool threshold (score r));
        unfold ret, value, trace; cbn [fst snd app];
        now rewrite ?app_nil_r.
    + cbn [truthy andb]. apply Qlt_bool_false_iff in L.
      rewrite (Hlow _ L), andb_false_r.
      unfold ret, value, trace; cbn [fst snd app]. now rewrite ?app_nil_r.
  - unfold ret, value, trace; cbn [fst snd app truthy andb].
    now rewrite ?app_nil_r.
Qed.

End EmbeddingFacts.

(** ** What the stages return *)

Section StageResults.

Variable store : list Row.t.
Variable tsr tss : string -> string -> Q.
Variable dm : string -> string * string.
Variable V : Type.
Variable enc : string -> V.
Variable cos : V -> V -> Q.
Variable api_key : option string.
Variable http_get : string -> string -> HttpReply.
Variable p : Parsed.t.

Lemma value_trace {A} (m : M A) : m = (value m, trace m).
Proof. now destruct m. Qed.

Lemma exact_match_result :
exists h s,
  exact_match store p = (Returned (h, s), [Execute (SelectExact p)])
  /\ ((h = None /\ s = 0%Q)
      \/ exists r, In r store /\ h = Some (Row.hhid r) /\ s = 1%Q).
Proof.
unfold exact_match. rewrite bind_execute.
destruct (filter (sql_where (SelectExact p)) store) as [|r rows] eqn:E;
  simpl.
- exists None, 0%Q. split; auto.
- exists (Some (Row.hhid r)), 1%Q. split; auto. right. exists r.
  repeat split. assert (Hin : In r (r :: rows)) by now left.
  rewrite <- E in Hin. now apply filter_In in Hin.
Qed.

Lemma fuzzy_match_result threshold :
(0 < threshold)%Q ->
exists h s,
  value (fuzzy_match store tsr p threshold) = Returned (h, s)
  /\ ((h = None /\ s = 0%Q)
      \/ exists r sc, In r store /\ h = Some (Row.hhid r)
                      /\ (threshold <= sc)%Q /\ s = round2 sc).
Proof.
intros Hthr.
destruct (PyStr.nonempty (PyStr.strip (Parsed.street_number p))) eqn:G.
- apply nonempty_true_iff in G.
  rewrite (fuzzy_match_value store tsr p threshold G Hthr).
  unfold value; simpl fst.
  destruct (argmax_first _ _) as [r|] eqn:E; [|exists None, 0%Q; auto].
  apply argmax_first_in in E. apply filter_In in E as [E _].
  destruct (Qle_bool threshold _) eqn:L; simpl;
    [|exists None, 0%Q; auto].
  destruct (Parsed.unit p =s Row.aptnbr r); [|exists None, 0%Q; auto].
  eexists _, _. split; [reflexivity|]. right.
  exists r, (street_score tsr p r). apply Qle_bool_iff in L. auto.
- unfold fuzzy_match. rewrite G. exists None, 0%Q. auto.
Qed.

Lemma phonetic_match_result threshold :
(0 < threshold)%Q ->
exists h s,
  value (phonetic_match store tss dm p threshold) = Returned (h, s)
  /\ ((h = None /\ s = 0%Q)
      \/ exists r sc, In r store /\ h = Some (Row.hhid r)
                      /\ (threshold <= sc)%Q /\ s = round2 sc).
Proof.
intros Hthr.
destruct (PyStr.nonempty (PyStr.strip (Parsed.street_number p))) eqn:G.
- apply nonempty_true_iff in G.
  rewrite (phonetic_match_value store tss dm p threshold G Hthr).
  destruct (argmax_first _ _) as [r|] eqn:E; [|exists None, 0%Q; auto].
  apply argmax_first_in in E. apply phonetic_survivors_in in E.
  destruct (Qle_bool threshold _) eqn:L; [|exists None, 0%Q; auto].
  eexists _, _. split; [reflexivity|]. right.
  exists r, (address_score tss p r). apply Qle_bool_iff in L. auto.
- unfold phonetic_match. rewrite upper_nonempty, G.
  exists None, 0%Q. auto.
Qed.

Lemma embedding_loop_returns pu pe rows : forall best,
exists b, value (embedding_loop enc cos pu pe rows best) = Returned b.
Proof.
induction rows as [|r rows IH]; intros best; cbn [embedding_loop].
- eexists; reflexivity.
- destruct (_ && _); [apply IH|].
  rewrite value_bind_emit. apply IH.
Qed.

Lemma embedding_match_result threshold :
exists h s,
  value (embedding_match store enc cos p threshold) = Returned (h, s)
  /\ ((h = None /\ s = 0%Q)
      \/ (truthy h = true
          /\ exists c, (threshold <= c)%Q /\ s = round2 (c * 100)%Q)).
Proof.
unfold embedding_match.
destruct (negb _); [exists None, 0%Q; auto|].
rewrite value_bind_execute.
destruct (RapidFuzz.is_nil _); [exists None, 0%Q; auto|].
rewrite value_bind_emit.
match goal with
| |- context [embedding_loop enc cos ?pu ?pe ?rows ?b] =>
    destruct (embedding_loop_returns pu pe rows b) as [best Hb]
end.
rewrite (value_bind_returned _ _ _ Hb).
destruct (truthy (fst best)) eqn:T; simpl; [|exists None, 0%Q; auto].
destruct (Qle_bool threshold (snd best)) eqn:L;
  [|exists None, 0%Q; auto].
eexists _, _. split; [reflexivity|]. right. split; auto.
exists (snd best). apply Qle_bool_iff in L. auto.
Qed.

Lemma api_match_result h s r :
value (api_match store api_key http_get p) = Returned (h, s, r) ->
(h = None /\ s = 0%Q)
\/ exists row, In row store /\ h = Some (Row.hhid row).
Proof.
destruct h as [h|]; intros H.
- right. apply api_match_in_store in H as (row & Hin & <-). eauto.
- left. split; auto. eapply api_match_none_score; eauto.
Qed.

End StageResults.

(** ** The orchestrator *)

Lemma bind_ext {A B} (m : M A) (f g : A -> M B) :
  (forall a, f a = g a) -> bind m f = bind m g.
Proof.
  intros H. destruct m as [[a|e] t]; simpl; [now rewrite H|reflexivity].
Qed.

Lemma bind_ret_r {A} (m : M A) : bind m ret = m.
Proof.
  destruct m as [[a|e] t]; simpl; [now rewrite app_nil_r|reflexivity].
Qed.

Section OrchestratorFacts.

Variable store : list Row.t.
Variable tsr tss : string -> string -> Q.
Variable dm : string -> string * string.
Variable V : Type.
Variable enc : string -> V.
Variable cos : V -> V -> Q.
Variable api_key : option string.
Variable http_get : string -> string -> HttpReply.
Variable caller : Caller.
Variable p : Parsed.t.

Let run_steps := steps store tsr tss dm enc cos api_key http_get caller.

Lemma steps_finished n st : run_steps n p Finished st = ret (Finished, st).
Proof.
induction n; cbn [run_steps steps step]; [reflexivity|].
rewrite bind_ret_l. apply IHn.
Qed.

(** The waterfall as nested conditionals on the results of the stages. *)
Lemma waterfall_unfold :
waterfall store tsr tss dm enc cos api_key http_get caller p =
('(h1, s1) <- exact_match store p ;;
 if truthy h1 then ret (hit_locals h1 s1 mt_exact "exact match") else
 '(h2, s2) <- fuzzy_match store tsr p 70%Q ;;
 if truthy h2 then ret (hit_locals h2 s2 mt_fuzzy "fuzzy match") else
 '(h3, s3) <- phonetic_match store tss dm p 70%Q ;;
 if truthy h3 then ret (hit_locals h3 s3 mt_phonetic "phonetic match") else
 '(h4, s4) <- embedding_match store enc cos p (3 # 4)%Q ;;
 if truthy h4
 then ret (hit_locals h4 s4 mt_embedding "embedding match") else
 '(h5, s5, r5) <- api_match store api_key http_get p ;;
 if truthy h5 then ret (hit_locals h5 s5 mt_api r5)
 else ret (hit_locals h5 s5 mt_unmatched (unmatched_reason caller r5))).
Proof.
unfold waterfall. fold run_steps.
assert (Hfin : forall n st,
           ('(_, st') <- run_steps n p Finished st ;; ret st') = ret st).
{ intros n st. now rewrite steps_finished, bind_ret_l. }
assert (HS : forall n pc st,
           run_steps (S n) p pc st
           = ('(pc', st') <-
                step store tsr tss dm enc cos api_key http_get caller
                     p pc st ;;
              run_steps n p pc' st')) by reflexivity.
rewrite HS. cbn [step]. rewrite !bind_assoc.
apply bind_ext; intros [h1 s1]. rewrite bind_ret_l. unfold settle.
destruct (truthy h1); [apply Hfin|].
rewrite HS. cbn [step]. rewrite !bind_assoc.
apply bind_ext; intros [h2 s2]. rewrite bind_ret_l. unfold settle.
destruct (truthy h2); [apply Hfin|].
rewrite HS. cbn [step]. rewrite !bind_assoc.
apply bind_ext; intros [h3 s3]. rewrite bind_ret_l. unfold settle.
destruct (truthy h3); [apply Hfin|].
rewrite HS. cbn [step]. rewrite !bind_assoc.
apply bind_ext; intros [h4 s4]. rewrite bind_ret_l. unfold settle.
destruct (truthy h4); [apply Hfin|].
rewrite HS. cbn [step]. rewrite !bind_assoc.
apply bind_ext; intros [[h5 s5] r5].
destruct (truthy h5); rewrite bind_ret_l; apply Hfin.
Qed.

End OrchestratorFacts.

(** ** Rounding keeps integer lower bounds *)

Lemma round_half_even_ge (q : Q) (z : Z) :
  (inject_Z z <= q)%Q -> (z <= round_half_even q)%Z.
Proof.
  destruct q as [n d]. unfold Qle, round_half_even, inject_Z.
  cbn [Qnum Qden]. intros H.
  assert (Hf : (z <= n / Z.pos d)%Z).
  { apply Z.div_le_lower_bound; [reflexivity|].
    rewrite Z.mul_1_r in H. now rewrite Z.mul_comm. }
  set (f := (n / Z.pos d)%Z) in *.
  destruct (2 * (n mod Z.pos d) <? Z.pos d)%Z; [exact Hf|].
  destruct (Z.pos d <? 2 * (n mod Z.pos d))%Z; [lia|].
  destruct (Z.even f); lia.
Qed.

Lemma round2_ge (q : Q) (z : Z) :
  (inject_Z z <= q)%Q -> (inject_Z z <= round2 q)%Q.
Proof.
  intros H. unfold round2. rewrite Qred_correct.
  assert (H100 : (inject_Z (z * 100) <= q * 100)%Q).
  { rewrite inject_Z_mult. apply Qmult_le_compat_r; [exact H|discriminate]. }
  apply round_half_even_ge in H100.
  unfold Qle, inject_Z. simpl. lia.
Qed.

Section MatchFacts.

Variable store : list Row.t.
Variable tsr tss : string -> string -> Q.
Variable dm : string -> string * string.
Variable V : Type.
Variable enc : string -> V.
Variable cos : V -> V -> Q.
Variable api_key : option string.
Variable http_get : string -> string -> HttpReply.
Variable caller : Caller.
Variable p : Parsed.t.

Let the_waterfall :=
waterfall store tsr tss dm enc cos api_key http_get caller p.
Let the_match :=
match_one store tsr tss dm enc cos api_key http_get caller p.

(** The transliteration of the nested conditionals and the stage machine
  are the same computation. *)
Lemma match_one_nested_eq :
match_one_nested store tsr tss dm enc cos api_key http_get caller p
= the_match.
Proof.
unfold the_match, match_one, match_one_nested.
rewrite waterfall_unfold. unfold waterfall_nested, hit_locals.
rewrite !bind_assoc. apply bind_ext; intros [h1 s1].
destruct (truthy h1); [now rewrite !bind_ret_l|].
rewrite !bind_assoc. apply bind_ext; intros [h2 s2].
destruct (truthy h2); [now rewrite !bind_ret_l|].
rewrite !bind_assoc. apply bind_ext; intros [h3 s3].
destruct (truthy h3); [now rewrite !bind_ret_l|].
rewrite !bind_assoc. apply bind_ext; intros [h4 s4].
destruct (truthy h4); [now rewrite !bind_ret_l|].
rewrite !bind_assoc. apply bind_ext; intros [[h5 s5] r5].
destruct (truthy h5); now rewrite !bind_ret_l.
Qed.

Lemma resolve_address_returns h :
exists m, value (resolve_address store caller h) = Returned m.
Proof.
unfold resolve_address. destruct h as [id|]; [|eexists; reflexivity].
destruct (truthy (Some id)); [|eexists; reflexivity].
rewrite value_bind_execute. destruct (first _); eexists; reflexivity.
Qed.

(** The result record is made of the locals the waterfall ends with. *)
Lemma match_one_of_waterfall res :
value the_match = Returned res <->
exists st m,
  value the_waterfall = Returned st
  /\ value (resolve_address store caller (l_hhid st)) = Returned m
  /\ res = {| transaction_id := Parsed.id p;
              address_id := l_hhid st;
              matched_address := m;
              confidence := reported caller (l_score st);
              match_type := l_mtype st;
              reason := l_reason st |}.
Proof.
unfold the_match, match_one. fold the_waterfall.
destruct the_waterfall as [[st|e] t] eqn:W.
- rewrite bind_returned. unfold value at 1. cbn [fst].
  destruct (resolve_address_returns (l_hhid st)) as [m Hm].
  rewrite (value_bind_returned _ _ _ Hm). unfold ret, value at 1. cbn [fst].
  split.
  + intros H. inversion H. exists st, m. auto.
  + intros (st' & m' & Hst & Hm' & ->).
    unfold value in Hst. cbn [fst] in Hst. inversion Hst; subst st'.
    rewrite Hm in Hm'. now inversion Hm'.
- split; [discriminate|].
  intros (st' & m' & Hst & _). discriminate.
Qed.

(** What the locals hold when the waterfall returns, by match type. *)
Lemma waterfall_locals st :
value the_waterfall = Returned st ->
truthy (l_hhid st) = true /\
((l_mtype st = Some mt_exact /\ l_score st = 1%Q)
 \/ (l_mtype st = Some mt_fuzzy
     /\ exists sc, (70 <= sc)%Q /\ l_score st = round2 sc)
 \/ (l_mtype st = Some mt_phonetic
     /\ exists sc, (70 <= sc)%Q /\ l_score st = round2 sc)
 \/ (l_mtype st = Some mt_embedding
     /\ exists c, (3 # 4 <= c)%Q /\ l_score st = round2 (c * 100)%Q)
 \/ (l_mtype st = Some mt_api
     /\ exists key full top rest,
         http_get full key = Response (Json (top :: rest))
         /\ l_score st = accuracy top))
\/ (truthy (l_hhid st) = false /\ l_mtype st = Some mt_unmatched
    /\ (l_hhid st = None -> l_score st = 0%Q)).
Proof.
unfold the_waterfall. rewrite waterfall_unfold.
destruct (exact_match_result store p) as (h1 & s1 & E1 & F1).
rewrite E1, bind_returned. unfold value at 1. cbn [fst].
destruct (truthy h1) eqn:T1.
{ intros H; inversion H; subst st. left. split; [exact T1|]. left.
  split; [reflexivity|].
  destruct F1 as [[-> _]|(r & _ & _ & ->)]; [discriminate|reflexivity]. }
destruct (fuzzy_match_result store tsr p 70 eq_refl) as (h2 & s2 & E2 & F2).
rewrite (value_bind_returned _ _ _ E2).
destruct (truthy h2) eqn:T2.
{ intros H; inversion H; subst st. left. split; [exact T2|].
  right; left. split; [reflexivity|].
  destruct F2 as [[-> _]|(r & sc & _ & _ & L & ->)]; [discriminate|].
  exists sc. auto. }
destruct (phonetic_match_result store tss dm p 70 eq_refl)
  as (h3 & s3 & E3 & F3).
rewrite (value_bind_returned _ _ _ E3).
destruct (truthy h3) eqn:T3.
{ intros H; inversion H; subst st. left. split; [exact T3|].
  right; right; left. split; [reflexivity|].
  destruct F3 as [[-> _]|(r & sc & _ & _ & L & ->)]; [discriminate|].
  exists sc. auto. }
destruct (embedding_match_result store V enc cos p (3 # 4))
  as (h4 & s4 & E4 & F4).
rewrite (value_bind_returned _ _ _ E4).
destruct (truthy h4) eqn:T4.
{ intros H; inversion H; subst st. left. split; [exact T4|].
  right; right; right; left. split; [reflexivity|].
  destruct F4 as [[-> _]|(_ & c & L & ->)]; [discriminate|].
  exists c. auto. }
destruct (value (api_match store api_key http_get p))
  as [[[h5 s5] r5]|e] eqn:E5.
- rewrite (value_bind_returned _ _ _ E5).
  destruct (truthy h5) eqn:T5; intros H; inversion H; subst st.
  + left. split; [exact T5|]. repeat right. split; [reflexivity|].
    destruct h5 as [h5|]; [|discriminate].
    eapply api_match_accuracy; eauto.
  + right. split; [exact T5|]. split; [reflexivity|].
    cbn [l_hhid l_score hit_locals]. intros ->.
    eapply api_match_none_score; eauto.
- destruct (api_match store api_key http_get p) as [[x|e'] t5];
    [discriminate|].
  unfold value; simpl. discriminate.
Qed.

End MatchFacts.

Lemma reported_ge caller (q : Q) (z : Z) :
  (inject_Z z <= q)%Q -> (inject_Z z <= reported caller q)%Q.
Proof.
  destruct caller; simpl; [auto|apply round2_ge].
Qed.

(** ** Rounding keeps integer upper bounds *)

Lemma round_half_even_le (q : Q) (z : Z) :
  (q <= inject_Z z)%Q -> (round_half_even q <= z)%Z.
Proof.
  destruct q as [n d]. unfold Qle, round_half_even, inject_Z.
  cbn [Qnum Qden]. rewrite Z.mul_1_r. intros H.
  pose proof (Z.div_mod n (Z.pos d) ltac:(discriminate)) as Hdm.
  pose proof (Z.mod_pos_bound n (Z.pos d) ltac:(reflexivity)) as Hm.
  set (f := (n / Z.pos d)%Z) in *.
  set (m := (n mod Z.pos d)%Z) in *.
  destruct (2 * m <? Z.pos d)%Z eqn:E1.
  - nia.
  - apply Z.ltb_ge in E1. assert (f < z)%Z by nia.
    destruct (Z.pos d <? 2 * m)%Z; [lia|]. destruct (Z.even f); lia.
Qed.

Lemma round2_le (q : Q) (z : Z) :
  (q <= inject_Z z)%Q -> (round2 q <= inject_Z z)%Q.
Proof.
  intros H. unfold round2. rewrite Qred_correct.
  assert (H100 : (q * 100 <= inject_Z (z * 100))%Q).
  { rewrite inject_Z_mult. apply Qmult_le_compat_r; [exact H|discriminate]. }
  apply round_half_even_le in H100.
  unfold Qle, inject_Z. simpl. lia.
Qed.

Lemma reported_le caller (q : Q) (z : Z) :
  (q <= inject_Z z)%Q -> (reported caller q <= inject_Z z)%Q.
Proof.
  destruct caller; simpl; [auto|apply round2_le].
Qed.

(** ** The scale of the rapidfuzz scorers *)

Lemma norm_distance_range dist lensum :
  dist <= lensum ->
  (0 <= RapidFuzz.norm_distance dist lensum
   /\ RapidFuzz.norm_distance dist lensum <= 100)%Q.
Proof.
  intros H. unfold RapidFuzz.norm_distance.
  destruct lensum as [|n]; [split; discriminate|].
  rewrite Qred_correct. unfold Qle. cbn [Qnum Qden].
  assert (Hp : Z.pos (Pos.of_nat (S n)) = Z.of_nat (S n)).
  { rewrite <- positive_nat_Z, Nat2Pos.id by discriminate. reflexivity. }
  rewrite Hp. split; lia.
Qed.

Lemma token_sort_ratio_range a b :
  (0 <= RapidFuzz.token_sort_ratio a b
   /\ RapidFuzz.token_sort_ratio a b <= 100)%Q.
Proof.
  unfold RapidFuzz.token_sort_ratio, RapidFuzz.ratio.
  apply norm_distance_range. unfold RapidFuzz.indel_distance. lia.
Qed.

(** ** The stage a result comes from *)

Lemma fuzzy_match_hit store tsr p threshold h s :
  (0 < threshold)%Q ->
  value (fuzzy_match store tsr p threshold) = Returned (Some h, s) ->
  exists r,
    argmax_first (street_score tsr p)
      (same_house store (PyStr.strip (Parsed.street_number p))) = Some r
    /\ h = Row.hhid r
    /\ s = round2 (street_score tsr p r)
    /\ (threshold <= street_score tsr p r)%Q.
Proof.
  intros Hthr.
  destruct (PyStr.nonempty (PyStr.strip (Parsed.street_number p))) eqn:G.
  - apply nonempty_true_iff in G.
    rewrite (fuzzy_match_value store tsr p threshold G Hthr).
    unfold value. cbn [fst].
    destruct (argmax_first _ _) as [r|] eqn:E; [|discriminate].
    destruct (Qle_bool threshold _) eqn:L; cbn [andb]; [|discriminate].
    destruct (_ =s _); [|discriminate].
    intros H; inversion H; subst. exists r.
    apply Qle_bool_iff in L. auto.
  - unfold fuzzy_match. rewrite G. discriminate.
Qed.

Lemma phonetic_match_hit store tss dm p threshold h s :
  (0 < threshold)%Q ->
  value (phonetic_match store tss dm p threshold) = Returned (Some h, s) ->
  exists r,
    argmax_first (address_score tss p) (phonetic_survivors dm store p)
    = Some r
    /\ h = Row.hhid r
    /\ s = round2 (address_score tss p r)
    /\ (threshold <= address_score tss p r)%Q.
Proof.
  intros Hthr.
  destruct (PyStr.nonempty (PyStr.strip (Parsed.street_number p))) eqn:G.
  - apply nonempty_true_iff in G.
    rewrite (phonetic_match_value store tss dm p threshold G Hthr).
    destruct (argmax_first _ _) as [r|] eqn:E; [|discriminate].
    destruct (Qle_bool threshold _) eqn:L; [|discriminate].
    intros H; inversion H; subst. exists r.
    apply Qle_bool_iff in L. auto.
  - unfold phonetic_match. rewrite upper_nonempty, G. discriminate.
Qed.

Lemma embedding_match_hit store (V : Type) (enc : string -> V)
      (cos : V -> V -> Q) p threshold h s :
  (0 < threshold)%Q ->
  value (embedding_match store enc cos p threshold) = Returned (Some h, s) ->
  exists r,
    argmax_first (cosine_score enc cos p) (embedding_eligible store p)
    = Some r
    /\ h = Row.hhid r
    /\ s = round2 (cosine_score enc cos p r * 100)%Q
    /\ (threshold <= cosine_score enc cos p r)%Q.
Proof.
  intros Hthr.
  destruct (PyStr.nonempty (PyStr.strip (Parsed.street_number p))) eqn:G.
  - apply nonempty_true_iff in G.
    rewrite (embedding_match_run store V enc cos p threshold G Hthr).
    unfold value. cbn [fst].
    destruct (argmax_first _ _) as [r|] eqn:E; [|discriminate].
    destruct (truthy _); cbn [andb]; [|discriminate].
    destruct (Qle_bool threshold _) eqn:L; [|discriminate].
    intros H; inversion H; subst. exists r.
    apply Qle_bool_iff in L. auto.
  - unfold embedding_match. rewrite upper_nonempty, G. discriminate.
Qed.

Lemma api_match_hit store api_key http_get p h s why :
  value (api_match store api_key http_get p) = Returned (Some h, s, why) ->
  why = "api match"
  /\ exists key full top rest,
      api_key = Some key
      /\ api_query p = ret full
      /\ http_get full key = Response (Json (top :: rest))
      /\ s = accuracy top.
Proof.
  unfold api_match.
  destruct api_key as [[|c k]|]; try discriminate.
  unfold api_query.
  destruct (Parsed.original_address p) as [sp|]; [|discriminate].
  rewrite bind_ret_l. unfold api_lookup.
  destruct (PyStr.nonempty _); cbn [negb]; [|discriminate].
  rewrite value_bind_emit.
  destruct (http_get _ _) as [|[|[|top rest]]] eqn:E; try discriminate.
  rewrite value_bind_execute.
  destruct (first _); [|discriminate].
  intros H. inversion H; subst. split; [reflexivity|].
  eexists. eexists. exists top, rest. repeat split. exact E.
Qed.

Section TakenStage.

Variable store : list Row.t.
Variable tsr tss : string -> string -> Q.
Variable dm : string -> string * string.
Variable V : Type.
Variable enc : string -> V.
Variable cos : V -> V -> Q.
Variable api_key : option string.
Variable http_get : string -> string -> HttpReply.
Variable caller : Caller.
Variable p : Parsed.t.

(** The candidate and the score the waterfall ends with are those that the
    stage of its match type returned; an unmatched run carries those of the
    API matcher. *)
Lemma waterfall_stage st :
value (waterfall store tsr tss dm enc cos api_key http_get caller p)
= Returned st ->
(l_mtype st = Some mt_exact /\ truthy (l_hhid st) = true
 /\ value (exact_match store p) = Returned (l_hhid st, l_score st))
\/ (l_mtype st = Some mt_fuzzy /\ truthy (l_hhid st) = true
    /\ value (fuzzy_match store tsr p 70)
       = Returned (l_hhid st, l_score st))
\/ (l_mtype st = Some mt_phonetic /\ truthy (l_hhid st) = true
    /\ value (phonetic_match store tss dm p 70)
       = Returned (l_hhid st, l_score st))
\/ (l_mtype st = Some mt_embedding /\ truthy (l_hhid st) = true
    /\ value (embedding_match store enc cos p (3 # 4))
       = Returned (l_hhid st, l_score st))
\/ (l_mtype st = Some mt_api /\ truthy (l_hhid st) = true
    /\ value (api_match store api_key http_get p)
       = Returned (l_hhid st, l_score st, l_reason st))
\/ (l_mtype st = Some mt_unmatched /\ truthy (l_hhid st) = false
    /\ exists why,
        value (api_match store api_key http_get p)
        = Returned (l_hhid st, l_score st, why)).
Proof.
intros H. rewrite waterfall_unfold in H.
destruct (exact_match_result store p) as (h1 & s1 & E1 & _).
assert (V1 : value (exact_match store p) = Returned (h1, s1))
  by now rewrite E1.
rewrite (value_bind_returned _ _ _ V1) in H.
destruct (truthy h1) eqn:T1.
{ inversion H; subst st. left. auto. }
destruct (fuzzy_match_result store tsr p 70 eq_refl) as (h2 & s2 & E2 & _).
rewrite (value_bind_returned _ _ _ E2) in H.
destruct (truthy h2) eqn:T2.
{ inversion H; subst st. right; left. auto. }
destruct (phonetic_match_result store tss dm p 70 eq_refl)
  as (h3 & s3 & E3 & _).
rewrite (value_bind_returned _ _ _ E3) in H.
destruct (truthy h3) eqn:T3.
{ inversion H; subst st. right; right; left. auto. }
destruct (embedding_match_result store V enc cos p (3 # 4))
  as (h4 & s4 & E4 & _).
rewrite (value_bind_returned _ _ _ E4) in H.
destruct (truthy h4) eqn:T4.
{ inversion H; subst st. right; right; right; left. auto. }
destruct (value (api_match store api_key http_get p))
  as [[[h5 s5] r5]|e] eqn:E5.
- rewrite (value_bind_returned _ _ _ E5) in H.
  destruct (truthy h5) eqn:T5; inversion H; subst st.
  + right; right; right; right; left. auto.
  + repeat right. split; [reflexivity|]. split; [exact T5|].
    exists r5. reflexivity.
- destruct (api_match store api_key http_get p) as [[x|e'] t5];
    [discriminate E5|].
  unfold value in H; simpl in H. discriminate H.
Qed.

End TakenStage.

(** Claim C3, as the code has it. The confidence of the result is the
    score that the stage of its match type returned, for the candidate that
    stage returned, on the scale of that stage, and is not brought back to
    the scale 0 to 1. For an exact match it is 1.0. For a fuzzy match it is
    the rounded street-string similarity of the returned candidate, the
    first of the highest similarity at its house number; for a phonetic
    match the rounded full-address similarity of the first phonetic
    survivor of the highest similarity: at least 70, and at most 100 when
    the scorer stays within its scale. For an embedding match it is the
    cosine similarity of the returned candidate times 100, rounded: at
    least 75, and at most 100 for a cosine of at most 1. For an api match
    it is the accuracy of the validator's top result. An unmatched result
    carries the score the API matcher returned, 0.0 when there is no
    candidate. The endpoint rounds the value to two decimals. *)
Theorem confidence_is_stage_score store tsr tss dm (V : Type)
        (enc : string -> V) (cos : V -> V -> Q) api_key http_get caller p
        res :
  value (match_one store tsr tss dm enc cos api_key http_get caller p)
  = Returned res ->
  (match_type res = Some mt_exact
   /\ value (exact_match store p) = Returned (address_id res, 1%Q)
   /\ confidence res = 1%Q)
  \/ (match_type res = Some mt_fuzzy
      /\ exists r,
          argmax_first (street_score tsr p)
            (same_house store (PyStr.strip (Parsed.street_number p)))
          = Some r
          /\ address_id res = Some (Row.hhid r)
          /\ value (fuzzy_match store tsr p 70)
             = Returned (address_id res, round2 (street_score tsr p r))
          /\ confidence res
             = reported caller (round2 (street_score tsr p r))
          /\ (70 <= confidence res)%Q
          /\ ((street_score tsr p r <= 100)%Q
              -> (confidence res <= 100)%Q))
  \/ (match_type res = Some mt_phonetic
      /\ exists r,
          argmax_first (address_score tss p) (phonetic_survivors dm store p)
          = Some r
          /\ address_id res = Some (Row.hhid r)
          /\ value (phonetic_match store tss dm p 70)
             = Returned (address_id res, round2 (address_score tss p r))
          /\ confidence res
             = reported caller (round2 (address_score tss p r))
          /\ (70 <= confidence res)%Q
          /\ ((address_score tss p r <= 100)%Q
              -> (confidence res <= 100)%Q))
  \/ (match_type res = Some mt_embedding
      /\ exists r,
          argmax_first (cosine_score enc cos p) (embedding_eligible store p)
          = Some r
          /\ address_id res = Some (Row.hhid r)
          /\ value (embedding_match store enc cos p (3 # 4))
             = Returned (address_id res,
                         round2 (cosine_score enc cos p r * 100)%Q)
          /\ confidence res
             = reported caller (round2 (cosine_score enc cos p r * 100)%Q)
          /\ (75 <= confidence res)%Q
          /\ ((cosine_score enc cos p r <= 1)%Q
              -> (confidence res <= 100)%Q))
  \/ (match_type res = Some mt_api
      /\ exists key full top rest,
          api_key = Some key
          /\ api_query p = ret full
          /\ http_get full key = Response (Json (top :: rest))
          /\ value (api_match store api_key http_get p)
             = Returned (address_id res, accuracy top, "api match")
          /\ confidence res = reported caller (accuracy top))
  \/ (match_type res = Some mt_unmatched
      /\ exists s why,
          value (api_match store api_key http_get p)
          = Returned (address_id res, s, why)
          /\ confidence res = reported caller s
          /\ (address_id res = None -> confidence res = 0%Q)).
Proof.
  intros H. apply match_one_of_waterfall in H as (st & m & W & _ & ->).
  apply waterfall_stage in W.
  cbn [match_type confidence address_id].
  destruct W as [(Hm & T & E)|[(Hm & T & E)|[(Hm & T & E)|[(Hm & T & E)
                |[(Hm & T & E)|(Hm & T & why & E)]]]]].
  - left. split; [exact Hm|].
    destruct (exact_match_result store p) as (h & s & E' & F).
    rewrite E' in E. inversion E; subst h s.
    destruct F as [[Hn _]|(r & _ & _ & Hs)]; [now rewrite Hn in T|].
    split; [|rewrite Hs; now destruct caller].
    rewrite E'. unfold value. cbn [fst]. now rewrite Hs.
  - right; left. split; [exact Hm|].
    destruct (l_hhid st) as [h|] eqn:Eh; [|discriminate T].
    destruct (fuzzy_match_hit store tsr p 70 h _ eq_refl E)
      as (r & Ha & Hh & Hs & L).
    exists r. rewrite <- Hh, <- Hs.
    split; [exact Ha|]. split; [reflexivity|]. split; [exact E|].
    split; [reflexivity|]. rewrite Hs. split.
    + apply (reported_ge caller _ 70), (round2_ge _ 70), L.
    + intros U. apply (reported_le caller _ 100), (round2_le _ 100), U.
  - right; right; left. split; [exact Hm|].
    destruct (l_hhid st) as [h|] eqn:Eh; [|discriminate T].
    destruct (phonetic_match_hit store tss dm p 70 h _ eq_refl E)
      as (r & Ha & Hh & Hs & L).
    exists r. rewrite <- Hh, <- Hs.
    split; [exact Ha|]. split; [reflexivity|]. split; [exact E|].
    split; [reflexivity|]. rewrite Hs. split.
    + apply (reported_ge caller _ 70), (round2_ge _ 70), L.
    + intros U. apply (reported_le caller _ 100), (round2_le _ 100), U.
  - right; right; right; left. split; [exact Hm|].
    destruct (l_hhid st) as [h|] eqn:Eh; [|discriminate T].
    destruct (embedding_match_hit store V enc cos p (3 # 4) h _ eq_refl E)
      as (r & Ha & Hh & Hs & L).
    exists r. rewrite <- Hh, <- Hs.
    split; [exact Ha|]. split; [reflexivity|]. split; [exact E|].
    split; [reflexivity|]. rewrite Hs. split.
    + apply (reported_ge caller _ 75), (round2_ge _ 75).
      apply Qle_trans with ((3 # 4) * 100)%Q; [discriminate|].
      apply Qmult_le_compat_r; [exact L|discriminate].
    + intros U. apply (reported_le caller _ 100), (round2_le _ 100).
      apply Qle_trans with (1 * 100)%Q; [|discriminate].
      apply Qmult_le_compat_r; [exact U|discriminate].
  - right; right; right; right; left. split; [exact Hm|].
    destruct (l_hhid st) as [h|] eqn:Eh; [|discriminate T].
    destruct (api_match_hit store api_key http_get p h _ _ E)
      as (Hw & key & full & top & rest & Hk & Hq & Hh & Hs).
    exists key, full, top, rest. rewrite <- Hs, <- Hw.
    repeat split; auto.
  - repeat right. split; [exact Hm|].
    exists (l_score st), why. split; [exact E|]. split; [reflexivity|].
    intros Hn. rewrite Hn in E.
    rewrite (api_match_none_score store api_key http_get p _ _ E).
    now destruct caller.
Qed.

Lemma confidence_is_stage_score_witness :
  (70 <= (3889 # 50))%Q /\ ((3889 # 50) <= 100)%Q.
Proof.
  pose proof (confidence_is_stage_score [Demo.main_street_4b]
                RapidFuzz.token_sort_ratio RapidFuzz.token_set_ratio
                Demo.metaphone_id string Demo.encode_id Demo.cosine_eq
                None Demo.http_down Batch Demo.q_main_4b
                {| transaction_id := "tx1"; address_id := Some 2%Z;
                   matched_address := Some "123 MAIN STREET APT 4B";
                   confidence := (3889 # 50)%Q;
                   match_type := Some mt_fuzzy;
                   reason := "fuzzy match" |}
                ltac:(vm_compute; reflexivity)) as H.
  cbn [match_type confidence address_id] in H.
  destruct H as [[H _]|[(_ & r & _ & _ & _ & _ & Hlo & Hhi)
                |[[H _]|[[H _]|[[H _]|[H _]]]]]];
    [discriminate|split; [exact Hlo|]|discriminate..].
  apply Hhi, token_sort_ratio_range.
Defined.

(** Claim C3 fails as stated: a fuzzy match of 123 MAIN ST APT 4B on the
    candidate 123 MAIN STREET APT 4B has the confidence 77.78, whatever the
    later stages are, and with an encoder that gives the cosine 0.8 the
    embedding match of 123 FIRST AVENUE on 123 1ST AVE has the confidence
    80: neither lies between 0 and 1. *)
Lemma confidence_exceeds_one :
  (forall tss dm (V : Type) (enc : string -> V) cos key http,
      exists res,
        value (match_one [Demo.main_street_4b] RapidFuzz.token_sort_ratio
                 tss dm enc cos key http Batch Demo.q_main_4b)
        = Returned res
        /\ match_type res = Some mt_fuzzy
        /\ confidence res = (3889 # 50)%Q
        /\ ~ (confidence res <= 1)%Q)
  /\ exists res,
      value (match_one [Demo.first_ave] RapidFuzz.token_sort_ratio
               RapidFuzz.token_set_ratio Demo.metaphone_id Demo.encode_id
               Demo.cosine_four_fifths None Demo.http_down Batch
               Demo.q_first_avenue)
      = Returned res
      /\ match_type res = Some mt_embedding
      /\ confidence res = 80%Q
      /\ ~ (confidence res <= 1)%Q.
Proof.
  split.
  - intros. eexists. split; [vm_compute; reflexivity|].
    repeat split; intros H; vm_compute in H; now apply H.
  - eexists. split; [vm_compute; reflexivity|].
    repeat split; intros H; vm_compute in H; now apply H.
Qed.

(** ** Rejection reasons *)

(** Claim C6, as the code has it. The Fuzzy matcher returns a candidate
    and a score, and no reason. When it finds no candidate the orchestrator
    records the one reason 'low fuzzy score', be it that the blocking key
    found no candidates, that the best score was below the threshold or
    that the unit numbers differed, and goes on to the Phonetic matcher. *)
Theorem fuzzy_reject_reason_constant store tsr tss dm (V : Type)
        (enc : string -> V) (cos : V -> V -> Q) api_key http_get caller
        p st h s :
  value (fuzzy_match store tsr p 70) = Returned (h, s) ->
  truthy h = false ->
  value (step store tsr tss dm enc cos api_key http_get caller p AtFuzzy st)
  = Returned (AtPhonetic,
              {| l_hhid := h; l_score := s; l_mtype := l_mtype st;
                 l_reason := "low fuzzy score" |}).
Proof.
  intros Hv Ht. cbn [step].
  rewrite (value_bind_returned _ _ _ Hv). unfold settle. now rewrite Ht.
Qed.

Lemma fuzzy_reject_reason_constant_witness :
  value (step [Demo.main_4a] RapidFuzz.token_sort_ratio
           RapidFuzz.token_set_ratio Demo.metaphone_id Demo.encode_id
           Demo.cosine_eq None Demo.http_down Batch Demo.q_elsewhere
           AtFuzzy locals_init)
  = Returned (AtPhonetic,
              {| l_hhid := None; l_score := 0%Q; l_mtype := None;
                 l_reason := "low fuzzy score" |}).
Proof.
  apply (fuzzy_reject_reason_constant [Demo.main_4a]
           RapidFuzz.token_sort_ratio RapidFuzz.token_set_ratio
           Demo.metaphone_id string Demo.encode_id Demo.cosine_eq None
           Demo.http_down Batch Demo.q_elsewhere locals_init None 0%Q).
  - vm_compute; reflexivity.
  - reflexivity.
Defined.

(** Claim C6 fails as stated: a query whose house number no candidate has
    and a query whose only candidate scores below the threshold leave the
    Fuzzy stage with the same result and the same recorded reason. *)
Lemma fuzzy_reject_indistinct :
  same_house [Demo.first_ave] "999" = []
  /\ same_house [Demo.first_ave] "123" = [Demo.first_ave]
  /\ (street_score RapidFuzz.token_sort_ratio Demo.q_first_avenue
        Demo.first_ave < 70)%Q
  /\ fuzzy_match [Demo.first_ave] RapidFuzz.token_sort_ratio
       Demo.q_elsewhere 70
     = (Returned (None, 0%Q), [Execute (SelectFuzzy "999")])
  /\ fuzzy_match [Demo.first_ave] RapidFuzz.token_sort_ratio
       Demo.q_first_avenue 70
     = (Returned (None, 0%Q), [Execute (SelectFuzzy "123")])
  /\ forall tss dm (V : Type) (enc : string -> V) cos key http caller st,
      value (step [Demo.first_ave] RapidFuzz.token_sort_ratio tss dm enc
               cos key http caller Demo.q_elsewhere AtFuzzy st)
      = value (step [Demo.first_ave] RapidFuzz.token_sort_ratio tss dm enc
                 cos key http caller Demo.q_first_avenue AtFuzzy st).
Proof.
  repeat split; try (vm_compute; reflexivity).
Qed.

Section FallThrough.

Variable store : list Row.t.
Variable tsr tss : string -> string -> Q.
Variable dm : string -> string * string.
Variable V : Type.
Variable enc : string -> V.
Variable cos : V -> V -> Q.
Variable api_key : option string.
Variable http_get : string -> string -> HttpReply.
Variable caller : Caller.
Variable p : Parsed.t.

(** When the API matcher returns, so does the waterfall, and when no
  stage found a candidate the locals are those of the API stage. *)
Lemma waterfall_returns_if_api h5 s5 r5 :
value (api_match store api_key http_get p) = Returned (h5, s5, r5) ->
exists st,
  value (waterfall store tsr tss dm enc cos api_key http_get caller p)
  = Returned st
  /\ (truthy (l_hhid st) = false ->
      st = hit_locals h5 s5 mt_unmatched (unmatched_reason caller r5)).
Proof.
intros E5. rewrite waterfall_unfold.
destruct (exact_match_result store p) as (h1 & s1 & E1 & _).
rewrite E1, bind_returned. unfold value at 1. cbn [fst].
destruct (truthy h1) eqn:T1.
{ eexists. split; [reflexivity|]. cbn [l_hhid hit_locals]. congruence. }
destruct (fuzzy_match_result store tsr p 70 eq_refl) as (h2 & s2 & E2 & _).
rewrite (value_bind_returned _ _ _ E2).
destruct (truthy h2) eqn:T2.
{ eexists. split; [reflexivity|]. cbn [l_hhid hit_locals]. congruence. }
destruct (phonetic_match_result store tss dm p 70 eq_refl)
  as (h3 & s3 & E3 & _).
rewrite (value_bind_returned _ _ _ E3).
destruct (truthy h3) eqn:T3.
{ eexists. split; [reflexivity|]. cbn [l_hhid hit_locals]. congruence. }
destruct (embedding_match_result store V enc cos p (3 # 4))
  as (h4 & s4 & E4 & _).
rewrite (value_bind_returned _ _ _ E4).
destruct (truthy h4) eqn:T4.
{ eexists. split; [reflexivity|]. cbn [l_hhid hit_locals]. congruence. }
rewrite (value_bind_returned _ _ _ E5).
destruct (truthy h5) eqn:T5; eexists; (split; [reflexivity|]);
  cbn [l_hhid hit_locals]; congruence.
Qed.

Lemma unmatched_reason_nonempty r :
r <> "" -> unmatched_reason caller r = r.
Proof.
intros H. unfold unmatched_reason. destruct caller; auto.
apply nonempty_true_iff in H. now rewrite H.
Qed.

End FallThrough.

(** Claim C7, as the code has it. A validator that is not configured and a
    request that fails are no exceptions for the caller: the API matcher
    returns no candidate, the score 0.0 and the reason 'no api key',
    respectively 'api request error'. The guard on an empty query string
    returns no candidate, the score 0.0 and the reason
    'no original_address'. Whenever the API matcher returns no candidate
    with a reason, the API stage of the orchestrator ends with the match
    type 'unmatched' and that reason, and the match returns its result. *)
Theorem api_soft_failures store tsr tss dm (V : Type) (enc : string -> V)
        (cos : V -> V -> Q) api_key http_get caller p :
  ((api_key = None \/ api_key = Some "") ->
   api_match store api_key http_get p
   = (Returned (None, 0%Q, "no api key"), []))
  /\ (forall key,
        api_lookup store http_get key ""
        = (Returned (None, 0%Q, "no original_address"), []))
  /\ (forall key full,
        api_key = Some key -> key <> "" ->
        api_query p = ret full ->
        http_get full key = RequestError ->
        api_match store api_key http_get p
        = (Returned (None, 0%Q, "api request error"), [HttpGet full key]))
  /\ (forall r t,
        api_match store api_key http_get p = (Returned (None, 0%Q, r), t) ->
        r <> "" ->
        (forall st,
            step store tsr tss dm enc cos api_key http_get caller p AtApi st
            = (Returned (Finished, hit_locals None 0 mt_unmatched r), t))
        /\ exists res,
            value (match_one store tsr tss dm enc cos api_key http_get
                     caller p) = Returned res
            /\ (truthy (address_id res) = false ->
                match_type res = Some mt_unmatched /\ reason res = r)).
Proof.
  split; [|split; [|split]].
  - intros [-> | ->]; reflexivity.
  - reflexivity.
  - intros key full -> Hkey Hq Hreq. unfold api_match.
    destruct key as [|c k]; [congruence|].
    rewrite Hq, bind_ret_l. unfold api_lookup.
    assert (Hfull : PyStr.nonempty full = true).
    { unfold api_query in Hq.
      destruct (Parsed.original_address p) as [sp|] eqn:E; [|discriminate].
      destruct (api_query_nonempty p sp E) as (full' & Hq' & Hne).
      unfold api_query in Hq'. rewrite E in Hq'.
      rewrite Hq in Hq'. inversion Hq'; subst.
      now apply nonempty_true_iff. }
    rewrite Hfull, Hreq. reflexivity.
  - intros r t Hapi Hr. split.
    + intros st. cbn [step]. rewrite Hapi, bind_returned.
      cbn [truthy]. unfold ret, value, trace. cbn [fst snd].
      rewrite app_nil_r. unfold hit_locals.
      now rewrite unmatched_reason_nonempty.
    + assert (Hv : value (api_match store api_key http_get p)
                   = Returned (None, 0%Q, r)) by now rewrite Hapi.
      destruct (waterfall_returns_if_api store tsr tss dm V enc cos
                  api_key http_get caller p _ _ _ Hv) as (st & W & Hst).
      destruct (resolve_address_returns store caller (l_hhid st))
        as [m Hm].
      eexists. split.
      * apply match_one_of_waterfall. exists st, m. eauto.
      * cbn [address_id match_type reason]. intros Ht.
        rewrite (Hst Ht). cbn [l_mtype l_reason hit_locals].
        now rewrite unmatched_reason_nonempty.
Qed.

Lemma api_soft_failures_witness :
  api_match [] None Demo.http_down Demo.q_elsewhere
  = (Returned (None, 0%Q, "no api key"), [])
  /\ step [] RapidFuzz.token_sort_ratio RapidFuzz.token_set_ratio
       Demo.metaphone_id Demo.encode_id Demo.cosine_eq None Demo.http_down
       Batch Demo.q_elsewhere AtApi locals_init
     = (Returned (Finished, hit_locals None 0 mt_unmatched "no api key"),
        []).
Proof.
  pose proof (api_soft_failures [] RapidFuzz.token_sort_ratio
                RapidFuzz.token_set_ratio Demo.metaphone_id string
                Demo.encode_id Demo.cosine_eq None Demo.http_down Batch
                Demo.q_elsewhere) as (Ha & _ & _ & Hf).
  split; [apply Ha; now left|].
  apply (Hf "no api key" []); [apply Ha; now left|discriminate].
Defined.

(** Claim C7 fails as stated for the empty query: the reason of the guard
    is 'no original_address', not 'no original address', and with every
    component of the address empty the guard does not fire: the query
    string is [", ,"], the request is made, and the reason is that of the
    request. *)
Lemma api_empty_query_reason :
  (forall http key,
      api_lookup [] http key ""
      = (Returned (None, 0%Q, "no original_address"), []))
  /\ "no original_address" <> "no original address"
  /\ api_match [] (Some "key") Demo.http_down Demo.q_empty
     = (Returned (None, 0%Q, "api request error"), [HttpGet ", ," "key"]).
Proof.
  split; [reflexivity|]. split; [discriminate|]. vm_compute. reflexivity.
Qed.

(** ** Priority and short-circuit *)

Lemma bind_ext_on {A B} (m : M A) (f g : A -> M B) :
  (forall a, value m = Returned a -> f a = g a) -> bind m f = bind m g.
Proof.
  intros H. destruct m as [[a|e] t]; simpl; [|reflexivity].
  now rewrite (H a eq_refl).
Qed.

Lemma truthy_of_store store r :
  ids_truthy store -> In r store -> truthy (Some (Row.hhid r)) = true.
Proof.
  intros Hids Hin. simpl. apply negb_true_iff, Z.eqb_neq. now apply Hids.
Qed.

(** Claim C1, as the code has it. The orchestrator runs the stages in
    the order Exact, Fuzzy, Phonetic, Embedding, API and stops at the first
    one whose candidate passes the test [if hhid:], that is, a candidate
    that is neither null nor the identifier 0, with the match type, score
    and candidate of that stage; the events of the run are those of the
    stages up to that one. On a store without the identifier 0 this is the
    first stage whose candidate is not null. When the Exact matcher returns
    a candidate other than 0 the result has the match type 'exact' and,
    besides the lookup of the Exact matcher and the by-id lookup of the
    display address, nothing is executed. *)
Theorem waterfall_first_hit store tsr tss dm (V : Type) (enc : string -> V)
        (cos : V -> V -> Q) api_key http_get caller p :
  (st <- waterfall store tsr tss dm enc cos api_key http_get caller p ;;
   ret (l_mtype st, l_hhid st, l_score st))
  = ('(mt, h, s) <-
       first_taken (stage_runs store tsr tss dm enc cos api_key http_get p)
         (None, 0%Q) ;;
     ret (Some mt, h, s))
  /\ (ids_truthy store ->
      first_taken (stage_runs store tsr tss dm enc cos api_key http_get p)
        (None, 0%Q)
      = first_hit (stage_runs store tsr tss dm enc cos api_key http_get p))
  /\ forall h s,
      value (exact_match store p) = Returned (Some h, s) ->
      h <> 0%Z ->
      exists res,
        match_one store tsr tss dm enc cos api_key http_get caller p
        = (Returned res,
           [Execute (SelectExact p); Execute (SelectAddress h)])
        /\ match_type res = Some mt_exact
        /\ address_id res = Some h
        /\ confidence res = 1%Q.
Proof.
  split; [|split].
  - rewrite waterfall_unfold. unfold stage_runs, hit_locals.
    cbn [first_taken]. rewrite !bind_assoc.
    apply bind_ext; intros [h1 s1].
    destruct (truthy h1); [now rewrite !bind_ret_l|].
    rewrite !bind_assoc. apply bind_ext; intros [h2 s2].
    destruct (truthy h2); [now rewrite !bind_ret_l|].
    rewrite !bind_assoc. apply bind_ext; intros [h3 s3].
    destruct (truthy h3); [now rewrite !bind_ret_l|].
    rewrite !bind_assoc. apply bind_ext; intros [h4 s4].
    destruct (truthy h4); [now rewrite !bind_ret_l|].
    rewrite !bind_assoc. apply bind_ext; intros [[h5 s5] r5].
    rewrite !bind_ret_l.
    destruct (truthy h5); cbn [fst snd]; now rewrite !bind_ret_l.
  - intros Hids. unfold stage_runs. cbn [first_taken first_hit].
    apply bind_ext_on; intros [h1 s1] E1.
    destruct (exact_match_result store p) as (h & s & E & F).
    rewrite E in E1. inversion E1; subst h s. clear E E1.
    destruct h1 as [id|].
    { destruct F as [[? _]|(r & Hin & Hh & _)]; [discriminate|].
      now rewrite Hh, (truthy_of_store store r Hids Hin). }
    cbn [truthy].
    apply bind_ext_on; intros [h2 s2] E2.
    destruct (fuzzy_match_result store tsr p 70 eq_refl) as (h & s & E & F2).
    rewrite E in E2. inversion E2; subst h s. clear E E2.
    destruct h2 as [id|].
    { destruct F2 as [[? _]|(r & sc & Hin & Hh & _)]; [discriminate|].
      now rewrite Hh, (truthy_of_store store r Hids Hin). }
    cbn [truthy].
    apply bind_ext_on; intros [h3 s3] E3.
    destruct (phonetic_match_result store tss dm p 70 eq_refl)
      as (h & s & E & F3).
    rewrite E in E3. inversion E3; subst h s. clear E E3.
    destruct h3 as [id|].
    { destruct F3 as [[? _]|(r & sc & Hin & Hh & _)]; [discriminate|].
      now rewrite Hh, (truthy_of_store store r Hids Hin). }
    cbn [truthy].
    apply bind_ext_on; intros [h4 s4] E4.
    destruct (embedding_match_result store V enc cos p (3 # 4))
      as (h & s & E & F4).
    rewrite E in E4. inversion E4; subst h s. clear E E4.
    destruct h4 as [id|].
    { destruct F4 as [[? _]|[Ht _]]; [discriminate|]. now rewrite Ht. }
    cbn [truthy].
    rewrite !bind_assoc. apply bind_ext_on; intros [[h5 s5] r5] E5.
    rewrite !bind_ret_l.
    destruct (api_match_result store api_key http_get p _ _ _ E5)
      as [[-> ->]|(r & Hin & ->)].
    + reflexivity.
    + now rewrite (truthy_of_store store r Hids Hin).
  - intros h s Hex Hh0.
    destruct (exact_match_result store p) as (h1 & s1 & E & F).
    rewrite E in Hex. inversion Hex; subst h1 s1. clear Hex.
    destruct F as [[? _]|(r & Hin & Hh & ->)]; [discriminate|].
    assert (Ht : truthy (Some h) = true).
    { cbn [truthy]. now apply negb_true_iff, Z.eqb_neq. }
    assert (W : waterfall store tsr tss dm enc cos api_key http_get caller p
                = (Returned (hit_locals (Some h) 1 mt_exact "exact match"),
                   [Execute (SelectExact p)])).
    { rewrite waterfall_unfold, E, bind_returned, Ht. reflexivity. }
    unfold match_one. rewrite W, bind_returned.
    unfold resolve_address. cbn [l_hhid hit_locals]. rewrite Ht.
    rewrite bind_assoc, bind_execute.
    destruct (first (filter (sql_where (SelectAddress h)) store));
      eexists; (split; [reflexivity|]); repeat split;
      cbn [confidence l_score hit_locals]; now destruct caller.
Qed.

Lemma waterfall_first_hit_witness :
  exists res,
    Demo.run [Demo.north_main] None Demo.http_down Batch Demo.q_north_main
    = (Returned res,
       [Execute (SelectExact Demo.q_north_main);
        Execute (SelectAddress 7%Z)])
    /\ match_type res = Some mt_exact
    /\ address_id res = Some 7%Z
    /\ confidence res = 1%Q.
Proof.
  destruct (waterfall_first_hit [Demo.north_main]
              RapidFuzz.token_sort_ratio RapidFuzz.token_set_ratio
              Demo.metaphone_id string Demo.encode_id Demo.cosine_eq None
              Demo.http_down Batch Demo.q_north_main) as (_ & _ & H).
  apply (H 7%Z 1%Q); [vm_compute; reflexivity|discriminate].
Defined.

(** Claim C1 fails as stated on a candidate with the identifier 0: for the
    query 123 N MAIN ST the Exact matcher returns that candidate, which is
    not null, with the score 1.0, and the waterfall that stops at the first
    candidate that is not null ends there with the match type 'exact'. The
    orchestrator passes it over, runs the Fuzzy, Phonetic and Embedding
    matchers, which find the same row, and ends 'unmatched'. *)
Lemma exact_candidate_zero_passed_over :
  value (exact_match [Demo.zero_main] Demo.q_north_main)
  = Returned (Some 0%Z, 1%Q)
  /\ value (first_hit
              (stage_runs [Demo.zero_main] RapidFuzz.token_sort_ratio
                 RapidFuzz.token_set_ratio Demo.metaphone_id Demo.encode_id
                 Demo.cosine_eq None Demo.http_down Demo.q_north_main))
     = Returned (mt_exact, Some 0%Z, 1%Q)
  /\ exists res,
      Demo.run [Demo.zero_main] None Demo.http_down Batch Demo.q_north_main
      = (Returned res,
         [Execute (SelectExact Demo.q_north_main);
          Execute (SelectFuzzy "123");
          Execute (SelectPhonetic "123");
          Execute (SelectEmbedding "123");
          Encode "N MAIN ST";
          Encode "123 N MAIN ST"])
      /\ match_type res = Some mt_unmatched
      /\ address_id res = None.
Proof.
  split; [vm_compute; reflexivity|].
  split; [vm_compute; reflexivity|].
  eexists. split; [vm_compute; reflexivity|]. split; reflexivity.
Qed.

(** * Further properties of the stages *)

Lemma filter_first_match {A} (f : A -> bool) before x after :
  f x = true -> (forall y, In y before -> f y = false) ->
  filter f (before ++ x :: after) = x :: filter f after.
Proof.
  intros Hx Hb. induction before as [|y before IH]; simpl.
  - now rewrite Hx.
  - rewrite (Hb y (or_introl eq_refl)). apply IH.
    intros z Hz. apply Hb. now right.
Qed.

Lemma filter_none {A} (f : A -> bool) l :
  (forall y, In y l -> f y = false) -> filter f l = [].
Proof.
  induction l as [|y l IH]; simpl; intros H; [reflexivity|].
  rewrite (H y (or_introl eq_refl)). apply IH. intros z Hz. apply H. now right.
Qed.

Lemma agrees_iff p r : exact_where p r = true <-> agrees p r.
Proof. apply exact_where_spec. Qed.

Lemma not_agrees_iff p r : exact_where p r = false <-> ~ agrees p r.
Proof.
  rewrite <- agrees_iff. destruct (exact_where p r); split; congruence.
Qed.

(** Property X1. The Exact matcher returns, with the score 1.0, the first
    row of the store that agrees with the query on all seven fields, and
    no candidate with the score 0.0 when no row agrees; it runs its one
    lookup in both cases. *)
Theorem exact_match_first_agreeing store p :
  (forall before r after,
      store = before ++ r :: after ->
      agrees p r ->
      (forall y, In y before -> ~ agrees p y) ->
      exact_match store p
      = (Returned (Some (Row.hhid r), 1%Q), [Execute (SelectExact p)]))
  /\ ((forall r, In r store -> ~ agrees p r) ->
      exact_match store p
      = (Returned (None, 0%Q), [Execute (SelectExact p)])).
Proof.
  split.
  - intros before r after -> Hr Hb. unfold exact_match.
    rewrite bind_execute.
    change (sql_where (SelectExact p)) with (exact_where p).
    rewrite (filter_first_match (exact_where p) before r after).
    + reflexivity.
    + now apply agrees_iff.
    + intros y Hy. apply not_agrees_iff. now apply Hb.
  - intros H. unfold exact_match. rewrite bind_execute.
    change (sql_where (SelectExact p)) with (exact_where p).
    rewrite filter_none; [reflexivity|].
    intros y Hy. apply not_agrees_iff. now apply H.
Qed.

Lemma exact_match_first_agreeing_witness :
  exact_match [Demo.main_4a; Demo.north_main; Demo.north_main]
    Demo.q_north_main
  = (Returned (Some 7%Z, 1%Q), [Execute (SelectExact Demo.q_north_main)]).
Proof.
  destruct (exact_match_first_agreeing
              [Demo.main_4a; Demo.north_main; Demo.north_main]
              Demo.q_north_main) as [H _].
  apply (H [Demo.main_4a] Demo.north_main [Demo.north_main]).
  - reflexivity.
  - repeat split.
  - intros y [<-|[]] (_ & _ & _ & _ & _ & _ & H7). discriminate.
Defined.

Lemma unit_passes_iff p r :
  unit_passes p r = true <->
  (norm_unit p <> "" ->
   PyStr.upper (PyStr.strip (Row.aptnbr r)) = norm_unit p).
Proof.
  unfold unit_passes. rewrite negb_true_iff, andb_false_iff, negb_false_iff.
  rewrite nonempty_false_iff, String.eqb_eq. split.
  - intros [H|H] Hn; [contradiction|auto].
  - intros H. destruct (string_dec (norm_unit p) ""); [now left|].
    right. symmetry. auto.
Qed.

Lemma embedding_eligible_in store p r :
  In r (embedding_eligible store p) <->
  In r store /\ Row.house r = norm_number p /\ unit_passes p r = true.
Proof.
  unfold embedding_eligible, same_house.
  rewrite !filter_In, String.eqb_eq. tauto.
Qed.

(** Property X2. Once the house number passes the guard, the Embedding
    matcher considers the candidates of that house number, with the parsed
    unit number when the query has one, and returns the first of the
    highest cosine similarity, with 100 times that similarity rounded, if
    the similarity reaches the threshold and the identifier is not 0; in
    every other case it returns no candidate and the score 0.0. *)
Theorem embedding_match_best store (V : Type) (enc : string -> V)
        (cos : V -> V -> Q) p threshold :
  PyStr.strip (Parsed.street_number p) <> "" ->
  (0 < threshold)%Q ->
  let score := cosine_score enc cos p in
  match argmax_first score (embedding_eligible store p) with
  | Some r =>
      In r store /\ Row.house r = norm_number p
      /\ (norm_unit p <> "" ->
          PyStr.upper (PyStr.strip (Row.aptnbr r)) = norm_unit p)
      /\ (forall y, In y (embedding_eligible store p) ->
                    (score y <= score r)%Q)
      /\ value (embedding_match store enc cos p threshold)
         = Returned
             (if negb (Z.eqb (Row.hhid r) 0) && Qle_bool threshold (score r)
              then (Some (Row.hhid r), round2 (score r * 100)%Q)
              else (None, 0%Q))
  | None =>
      embedding_eligible store p = []
      /\ value (embedding_match store enc cos p threshold)
         = Returned (None, 0%Q)
  end.
Proof.
  intros Hnum Hthr score.
  rewrite (embedding_match_run store V enc cos p threshold Hnum Hthr).
  fold score. unfold value. cbn [fst].
  destruct (argmax_first score (embedding_eligible store p)) as [r|] eqn:E.
  - pose proof (argmax_first_in score _ _ E) as Hin.
    apply embedding_eligible_in in Hin as (Hs & Hh & Hu).
    repeat split; auto.
    + now apply unit_passes_iff.
    + now apply (argmax_first_max score _ _ E).
  - split; [now apply (argmax_first_none score)|reflexivity].
Qed.

Lemma embedding_match_best_witness :
  value (embedding_match [Demo.first_ave] Demo.encode_id
           Demo.cosine_four_fifths Demo.q_first_avenue (3 # 4))
  = Returned (Some 4%Z, 80%Q).
Proof.
  pose proof (embedding_match_best [Demo.first_ave] string Demo.encode_id
                Demo.cosine_four_fifths Demo.q_first_avenue (3 # 4)
                ltac:(vm_compute; discriminate) ltac:(reflexivity)) as H.
  cbv zeta in H.
  match type of H with
  | context [argmax_first ?f ?l] =>
      replace (argmax_first f l) with (Some Demo.first_ave) in H
        by (vm_compute; reflexivity)
  end.
  destruct H as (_ & _ & _ & _ & H). rewrite H. vm_compute. reflexivity.
Defined.

(** Property X3. Once the house number passes the guard, the Embedding
    matcher runs one lookup; when no candidate has the house number it
    encodes nothing, and otherwise it encodes the query once and then the
    display address of every candidate that passes the unit filter, once
    each and in the order of the store, whatever was encoded in earlier
    calls; candidates that fail the unit filter are not encoded. *)
Theorem embedding_match_encodes store (V : Type) (enc : string -> V)
        (cos : V -> V -> Q) p threshold :
  PyStr.strip (Parsed.street_number p) <> "" ->
  (0 < threshold)%Q ->
  trace (embedding_match store enc cos p threshold)
  = Execute (SelectEmbedding (norm_number p))
    :: match same_house store (norm_number p) with
       | [] => []
       | _ :: _ =>
           Encode (parsed_full p)
           :: map (fun r => Encode (cand_addr r))
                (filter (unit_passes p) (same_house store (norm_number p)))
       end.
Proof.
  intros Hnum Hthr.
  now rewrite (embedding_match_run store V enc cos p threshold Hnum Hthr).
Qed.

Lemma embedding_match_encodes_witness :
  trace (embedding_match Demo.two_units Demo.encode_id Demo.cosine_eq
           Demo.q_main_4b (3 # 4))
  = [Execute (SelectEmbedding "123"); Encode "MAIN ST";
     Encode "123 MAIN STREET APT 4B"].
Proof.
  rewrite (embedding_match_encodes Demo.two_units string Demo.encode_id
             Demo.cosine_eq Demo.q_main_4b (3 # 4)
             ltac:(vm_compute; discriminate) ltac:(reflexivity)).
  vm_compute. reflexivity.
Defined.

Lemma phonetic_survivors_iff dm store p r :
  In r (phonetic_survivors dm store p) <->
  In r store /\ Row.house r = norm_number p
  /\ fst (dm (PyStr.upper (Row.street r)))
     = fst (dm (PyStr.upper (Parsed.street_name p)))
  /\ (norm_unit p <> "" ->
      PyStr.upper (PyStr.strip (Row.aptnbr r)) = norm_unit p).
Proof.
  unfold phonetic_survivors, same_house. fold (norm_unit p) (norm_number p).
  rewrite !filter_In, !String.eqb_eq, orb_true_iff, negb_true_iff.
  rewrite nonempty_false_iff, String.eqb_eq. split.
  - intros (((H1 & H2) & H3) & H4). repeat split; auto.
    intros Hn. destruct H4; [contradiction|auto].
  - intros (H1 & H2 & H3 & H4). repeat split; auto.
    destruct (string_dec (norm_unit p) ""); [now left|right; auto].
Qed.

(** Property X4. A candidate the Phonetic matcher returns is a row of the
    store with the query's house number and the phonetic code of the
    query's street name, whose full-address score reaches the threshold and
    is returned rounded; its unit number equals the parsed one when the
    query has a unit number, and is not looked at when it has none. *)
Theorem phonetic_match_sound store tss dm p threshold h s :
  (0 < threshold)%Q ->
  value (phonetic_match store tss dm p threshold) = Returned (Some h, s) ->
  exists r,
    In r store /\ Row.hhid r = h
    /\ Row.house r = norm_number p
    /\ fst (dm (PyStr.upper (Row.street r)))
       = fst (dm (PyStr.upper (Parsed.street_name p)))
    /\ (norm_unit p <> "" ->
        PyStr.upper (PyStr.strip (Row.aptnbr r)) = norm_unit p)
    /\ (threshold <= address_score tss p r)%Q
    /\ s = round2 (address_score tss p r).
Proof.
  intros Hthr.
  destruct (PyStr.nonempty (PyStr.strip (Parsed.street_number p))) eqn:G.
  - apply nonempty_true_iff in G.
    rewrite (phonetic_match_value store tss dm p threshold G Hthr).
    destruct (argmax_first _ _) as [r|] eqn:E; [|discriminate].
    apply argmax_first_in in E. apply phonetic_survivors_iff in E.
    destruct (Qle_bool threshold _) eqn:L; [|discriminate].
    intros H. inversion H; subst. exists r.
    apply Qle_bool_iff in L. tauto.
  - unfold phonetic_match. rewrite upper_nonempty, G. discriminate.
Qed.

(** The query has no unit number and the candidate has the unit 4A. *)
Lemma phonetic_match_sound_witness :
  norm_unit Demo.q_main = ""
  /\ exists r,
      In r [Demo.main_4a] /\ Row.hhid r = 1%Z /\ Row.aptnbr r = "4A".
Proof.
  split; [reflexivity|].
  destruct (phonetic_match_sound [Demo.main_4a] RapidFuzz.token_set_ratio
              Demo.metaphone_id Demo.q_main 70 1%Z 100%Q
              ltac:(reflexivity) ltac:(vm_compute; reflexivity))
    as (r & Hin & Hid & _).
  exists r. repeat split; auto.
  destruct Hin as [<-|[]]. reflexivity.
Defined.

Lemma api_query_ret_nonempty p full :
  api_query p = ret full -> PyStr.nonempty full = true.
Proof.
  intros Hq. unfold api_query in Hq.
  destruct (Parsed.original_address p) as [sp|] eqn:Ho; [|discriminate].
  destruct (api_query_nonempty p sp Ho) as (full' & Hq' & Hfull).
  unfold api_query in Hq'. rewrite Ho in Hq'. rewrite Hq in Hq'.
  inversion Hq'; subst. now apply nonempty_true_iff.
Qed.

Section ApiOutcome.

Variable store : list Row.t.
Variable api_key : option string.
Variable http_get : string -> string -> HttpReply.
Variable p : Parsed.t.

(** The key is configured: it is there and not the empty string. *)
Lemma api_match_configured key :
  api_key = Some key -> key <> "" ->
  api_match store api_key http_get p
  = (full <- api_query p ;; api_lookup store http_get key full).
Proof.
  intros -> Hk. unfold api_match. destruct key; [congruence|reflexivity].
Qed.

Lemma api_match_unconfigured :
  api_key = None \/ api_key = Some "" ->
  api_match store api_key http_get p
  = (Returned (None, 0%Q, "no api key"), []).
Proof. intros [-> | ->]; reflexivity. Qed.

Lemma api_key_cases :
  (api_key = None \/ api_key = Some "")
  \/ exists key, api_key = Some key /\ key <> "".
Proof.
  destruct api_key as [[|c k]|]; auto.
  right. eexists. split; [reflexivity|discriminate].
Qed.

End ApiOutcome.

(** Property X5. The API matcher returns a candidate only with the reason
    'api match': the validator then answered with at least one result, the
    candidate is the first row of the store that passes the lookup for
    the normalised components of the top result, and the score is the
    accuracy of that result; further results are not looked at. *)
Theorem api_match_sound store api_key http_get p h s reason :
  value (api_match store api_key http_get p) = Returned (Some h, s, reason) ->
  reason = "api match"
  /\ exists key full top rest row after,
      api_key = Some key
      /\ api_query p = ret full
      /\ http_get full key = Response (Json (top :: rest))
      /\ filter (api_where (api_params (address_components top))) store
         = row :: after
      /\ Row.hhid row = h
      /\ s = accuracy top.
Proof.
  destruct (api_key_cases api_key) as [Hk|(key & Hk & Hne)].
  - rewrite api_match_unconfigured by exact Hk. discriminate.
  - rewrite (api_match_configured store api_key http_get p key Hk Hne).
    unfold api_query.
    destruct (Parsed.original_address p) as [sp|]; [|discriminate].
    rewrite bind_ret_l. unfold api_lookup.
    destruct (PyStr.nonempty _); cbn [negb]; [|discriminate].
    rewrite value_bind_emit.
    destruct (http_get _ key) as [|[|[|top rest]]] eqn:E; try discriminate.
    rewrite value_bind_execute.
    change (sql_where (SelectApi (api_params (address_components top))))
      with (api_where (api_params (address_components top))).
    destruct (filter _ store) as [|row after] eqn:F; [discriminate|].
    intros H. inversion H; subst. split; [reflexivity|].
    exists key. eexists. exists top, rest, row, after.
    repeat split; auto.
Qed.

Lemma api_match_sound_witness :
  exists row after,
    filter (api_where (api_params (address_components Demo.geo_main)))
      [Demo.north_main] = row :: after
    /\ Row.hhid row = 7%Z.
Proof.
  destruct (api_match_sound [Demo.north_main] (Some "key") Demo.http_main
              Demo.q_main 7%Z 1%Q "api match"
              ltac:(vm_compute; reflexivity))
    as (_ & key & full & top & rest & row & after & _ & _ & Hh & Hf & Hid & _).
  exists row, after. split; [|exact Hid].
  unfold Demo.http_main in Hh. inversion Hh; subst. exact Hf.
Defined.

(** Property X6. What the API matcher does, by the key and the reply.
    Without a configured key it returns [no api key] and sends nothing.
    With one, it raises [KeyError] before any request when the parsed
    address has no 'original_address'; it raises the decoding error, after
    its one request and before any lookup, when the body of the reply is
    not JSON; it returns when the request fails and when the body is JSON
    of the shape [Json] stands for. *)
Theorem api_match_raising store api_key http_get p :
  ((api_key = None \/ api_key = Some "") ->
   api_match store api_key http_get p
   = (Returned (None, 0%Q, "no api key"), []))
  /\ forall key,
      api_key = Some key -> key <> "" ->
      (Parsed.original_address p = None ->
       api_match store api_key http_get p
       = (Raised (KeyError "original_address"), []))
      /\ forall full,
          api_query p = ret full ->
          (http_get full key = Response NotJson ->
           api_match store api_key http_get p
           = (Raised JSONDecodeError, [HttpGet full key]))
          /\ (http_get full key = RequestError ->
              api_match store api_key http_get p
              = (Returned (None, 0%Q, "api request error"),
                 [HttpGet full key]))
          /\ (forall results,
                 http_get full key = Response (Json results) ->
                 exists v t,
                   api_match store api_key http_get p
                   = (Returned v, HttpGet full key :: t)).
Proof.
  split; [apply api_match_unconfigured|].
  intros key Hk Hne.
  rewrite (api_match_configured store api_key http_get p key Hk Hne).
  split.
  - intros Ho. unfold api_query. now rewrite Ho.
  - intros full Hq. rewrite Hq, bind_ret_l. unfold api_lookup.
    rewrite (api_query_ret_nonempty p full Hq). cbn [negb].
    unfold emit. rewrite bind_returned.
    split; [|split].
    + intros ->. reflexivity.
    + intros ->. reflexivity.
    + intros results ->. destruct results as [|top rest].
      * eexists. eexists. reflexivity.
      * rewrite bind_execute. destruct (first _); eexists; eexists;
          reflexivity.
Qed.

Lemma api_match_raising_witness :
  api_match [Demo.north_main] (Some "key") Sample.http_garbage Demo.q_main
  = (Raised JSONDecodeError,
     [HttpGet "123 MAIN ST, BROOKLYN, NY 11211" "key"]).
Proof.
  destruct (api_match_raising [Demo.north_main] (Some "key")
              Sample.http_garbage Demo.q_main) as [_ H].
  destruct (H "key" eq_refl ltac:(discriminate)) as [_ H2].
  apply (H2 "123 MAIN ST, BROOKLYN, NY 11211"); reflexivity.
Defined.

(** * Further properties of the orchestrator *)

Lemma api_reason_nonempty store api_key http_get p h s r :
  value (api_match store api_key http_get p) = Returned (h, s, r) ->
  r <> "".
Proof.
  destruct (api_key_cases api_key) as [Hk|(key & Hk & Hne)].
  - rewrite api_match_unconfigured by exact Hk.
    intros H; inversion H. discriminate.
  - rewrite (api_match_configured store api_key http_get p key Hk Hne).
    unfold api_query.
    destruct (Parsed.original_address p) as [sp|] eqn:Ho; [|discriminate].
    destruct (api_query_nonempty p sp Ho) as (full & Hq & Hfull).
    unfold api_query in Hq. rewrite Ho in Hq. rewrite Hq, bind_ret_l.
    intros H. apply api_lookup_reasons in H; auto.
    destruct H as [-> | [-> | [-> | ->]]]; discriminate.
Qed.

Lemma embedding_match_in_store store (V : Type) (enc : string -> V)
      (cos : V -> V -> Q) p threshold h s :
  (0 < threshold)%Q ->
  value (embedding_match store enc cos p threshold) = Returned (Some h, s) ->
  exists r, In r store /\ Row.hhid r = h.
Proof.
  intros Hthr.
  destruct (PyStr.nonempty (PyStr.strip (Parsed.street_number p))) eqn:G.
  - apply nonempty_true_iff in G.
    rewrite (embedding_match_run store V enc cos p threshold G Hthr).
    unfold value. cbn [fst].
    destruct (argmax_first _ _) as [r|] eqn:E; [|discriminate].
    apply argmax_first_in, embedding_eligible_in in E as (Hin & _).
    destruct (_ && _); [|discriminate].
    intros H; inversion H; subst. eauto.
  - unfold embedding_match. rewrite upper_nonempty, G. discriminate.
Qed.

Section Outcomes.

Variable store : list Row.t.
Variable tsr tss : string -> string -> Q.
Variable dm : string -> string * string.
Variable V : Type.
Variable enc : string -> V.
Variable cos : V -> V -> Q.
Variable api_key : option string.
Variable http_get : string -> string -> HttpReply.
Variable caller : Caller.
Variable p : Parsed.t.

Let the_waterfall :=
  waterfall store tsr tss dm enc cos api_key http_get caller p.
Let the_match :=
  match_one store tsr tss dm enc cos api_key http_get caller p.

(** The match raises exactly when the waterfall does. *)
Lemma match_one_raises_with_waterfall e :
  value the_match = Raised e <-> value the_waterfall = Raised e.
Proof.
  unfold the_match, match_one. fold the_waterfall.
  destruct the_waterfall as [[st|e'] t].
  - rewrite bind_returned. unfold value at 1. cbn [fst].
    destruct (resolve_address_returns store caller (l_hhid st)) as [m Hm].
    rewrite (value_bind_returned _ _ _ Hm). split; discriminate.
  - unfold bind, value. cbn [fst].
    split; intros H; inversion H; reflexivity.
Qed.

(** The waterfall raises exactly when the four first stages miss and the
    API matcher raises. *)
Lemma waterfall_raises_iff e :
  value the_waterfall = Raised e <->
  misses (exact_match store p)
  /\ misses (fuzzy_match store tsr p 70)
  /\ misses (phonetic_match store tss dm p 70)
  /\ misses (embedding_match store enc cos p (3 # 4))
  /\ value (api_match store api_key http_get p) = Raised e.
Proof.
  unfold the_waterfall. rewrite waterfall_unfold. unfold misses.
  destruct (exact_match_result store p) as (h1 & s1 & E1 & _).
  assert (V1 : value (exact_match store p) = Returned (h1, s1))
    by now rewrite E1.
  destruct (fuzzy_match_result store tsr p 70 eq_refl) as (h2 & s2 & V2 & _).
  destruct (phonetic_match_result store tss dm p 70 eq_refl)
    as (h3 & s3 & V3 & _).
  destruct (embedding_match_result store V enc cos p (3 # 4))
    as (h4 & s4 & V4 & _).
  rewrite (value_bind_returned _ _ _ V1), V1, V2, V3, V4.
  assert (Hinv : forall (h h' : option Hhid) (s s' : Q),
             Returned (h, s) = Returned (h', s') -> h = h').
  { intros h h' s s' H. now inversion H. }
  destruct (truthy h1) eqn:T1.
  { split; [discriminate|].
    intros ((h & s & H & T) & _). apply Hinv in H. congruence. }
  rewrite (value_bind_returned _ _ _ V2).
  destruct (truthy h2) eqn:T2.
  { split; [discriminate|].
    intros (_ & (h & s & H & T) & _). apply Hinv in H. congruence. }
  rewrite (value_bind_returned _ _ _ V3).
  destruct (truthy h3) eqn:T3.
  { split; [discriminate|].
    intros (_ & _ & (h & s & H & T) & _). apply Hinv in H. congruence. }
  rewrite (value_bind_returned _ _ _ V4).
  destruct (truthy h4) eqn:T4.
  { split; [discriminate|].
    intros (_ & _ & _ & (h & s & H & T) & _). apply Hinv in H. congruence. }
  destruct (api_match store api_key http_get p) as [[[[h5 s5] r5]|e'] t5].
  - rewrite bind_returned. unfold value. cbn [fst].
    destruct (truthy h5); split; try discriminate;
      intros (_ & _ & _ & _ & H); discriminate.
  - unfold value. cbn [bind fst]. split.
    + intros H. inversion H; subst.
      repeat split;
        try (eexists _, _; split; [reflexivity|assumption]).
    + intros (_ & _ & _ & _ & H). now inversion H.
Qed.

(** The reason, the match type and the candidate the waterfall ends
    with. *)
Lemma waterfall_explained st :
  value the_waterfall = Returned st ->
  l_reason st <> "" /\ l_mtype st <> None
  /\ (l_mtype st = Some mt_unmatched <-> truthy (l_hhid st) = false)
  /\ (truthy (l_hhid st) = true ->
      exists r, In r store /\ l_hhid st = Some (Row.hhid r)).
Proof.
  unfold the_waterfall. rewrite waterfall_unfold.
  destruct (exact_match_result store p) as (h1 & s1 & E1 & F1).
  rewrite E1, bind_returned. unfold value at 1. cbn [fst].
  destruct (truthy h1) eqn:T1.
  { intros H; inversion H; subst st. cbn.
    repeat split; try discriminate; try congruence.
    intros _. destruct F1 as [[-> _]|(r & Hin & -> & _)]; [discriminate|].
    eauto. }
  destruct (fuzzy_match_result store tsr p 70 eq_refl) as (h2 & s2 & E2 & F2).
  rewrite (value_bind_returned _ _ _ E2).
  destruct (truthy h2) eqn:T2.
  { intros H; inversion H; subst st. cbn.
    repeat split; try discriminate; try congruence.
    intros _. destruct F2 as [[-> _]|(r & sc & Hin & -> & _)];
      [discriminate|]. eauto. }
  destruct (phonetic_match_result store tss dm p 70 eq_refl)
    as (h3 & s3 & E3 & F3).
  rewrite (value_bind_returned _ _ _ E3).
  destruct (truthy h3) eqn:T3.
  { intros H; inversion H; subst st. cbn.
    repeat split; try discriminate; try congruence.
    intros _. destruct F3 as [[-> _]|(r & sc & Hin & -> & _)];
      [discriminate|]. eauto. }
  destruct (embedding_match_result store V enc cos p (3 # 4))
    as (h4 & s4 & E4 & F4).
  rewrite (value_bind_returned _ _ _ E4).
  destruct (truthy h4) eqn:T4.
  { intros H; inversion H; subst st. cbn.
    repeat split; try discriminate; try congruence.
    intros _. destruct h4 as [h4|]; [|discriminate].
    destruct (embedding_match_in_store store V enc cos p (3 # 4) h4 s4
                eq_refl E4) as (r & Hin & <-). eauto. }
  destruct (value (api_match store api_key http_get p))
    as [[[h5 s5] r5]|e] eqn:E5.
  - rewrite (value_bind_returned _ _ _ E5).
    pose proof (api_reason_nonempty _ _ _ _ _ _ _ E5) as Hr.
    destruct (truthy h5) eqn:T5; intros H; inversion H; subst st; cbn.
    + repeat split; try discriminate; try congruence.
      intros _. destruct h5 as [h5|]; [|discriminate].
      destruct (api_match_in_store _ _ _ _ _ _ _ E5) as (r & Hin & <-).
      eauto.
    + repeat split; try discriminate; try congruence.
      rewrite unmatched_reason_nonempty; auto.
  - destruct (api_match store api_key http_get p) as [[x|e'] t5];
      [discriminate|].
    unfold value; simpl. discriminate.
Qed.

End Outcomes.

(** Property X7. A match raises exactly when the Exact, Fuzzy, Phonetic
    and Embedding matchers all return without a candidate and the API
    matcher raises, and it raises that exception; once a stage has found a
    candidate, nothing the validator does makes the match fail. *)
Theorem match_one_raises_iff store tsr tss dm (V : Type) (enc : string -> V)
        (cos : V -> V -> Q) api_key http_get caller p e :
  value (match_one store tsr tss dm enc cos api_key http_get caller p)
  = Raised e <->
  misses (exact_match store p)
  /\ misses (fuzzy_match store tsr p 70)
  /\ misses (phonetic_match store tss dm p 70)
  /\ misses (embedding_match store enc cos p (3 # 4))
  /\ value (api_match store api_key http_get p) = Raised e.
Proof.
  rewrite match_one_raises_with_waterfall. apply waterfall_raises_iff.
Qed.

(** Property X8. Every result a match returns has its transaction
    identifier, a match type and a reason that is not empty, and its match
    type is 'unmatched' exactly when its candidate identifier is absent
    (None or 0). *)
Theorem match_result_explained store tsr tss dm (V : Type)
        (enc : string -> V) (cos : V -> V -> Q) api_key http_get caller p
        res :
  value (match_one store tsr tss dm enc cos api_key http_get caller p)
  = Returned res ->
  transaction_id res = Parsed.id p
  /\ match_type res <> None
  /\ reason res <> ""
  /\ (match_type res = Some mt_unmatched <-> truthy (address_id res) = false).
Proof.
  intros H. apply match_one_of_waterfall in H as (st & m & W & _ & ->).
  apply waterfall_explained in W as (Hr & Hm & Hu & _).
  cbn [transaction_id match_type reason address_id]. auto.
Qed.

Lemma match_result_explained_witness :
  exists res,
    value (Demo.run [Demo.north_main] None Demo.http_down Endpoint
             Demo.q_elsewhere) = Returned res
    /\ match_type res = Some mt_unmatched
    /\ reason res = "no api key".
Proof.
  eexists. split; [vm_compute; reflexivity|].
  split; [|reflexivity].
  apply (match_result_explained [Demo.north_main]
           RapidFuzz.token_sort_ratio RapidFuzz.token_set_ratio
           Demo.metaphone_id string Demo.encode_id Demo.cosine_eq None
           Demo.http_down Endpoint Demo.q_elsewhere).
  - vm_compute; reflexivity.
  - reflexivity.
Defined.

(** Property X9. A result with a candidate carries the display address of
    the first row of the store that has the candidate's identifier, which
    is another row than the matched one when identifiers repeat; a result
    without a candidate carries the empty address of its caller, and no
    by-id lookup is made for it. *)
Theorem matched_address_by_id store tsr tss dm (V : Type)
        (enc : string -> V) (cos : V -> V -> Q) api_key http_get caller p
        res :
  value (match_one store tsr tss dm enc cos api_key http_get caller p)
  = Returned res ->
  (truthy (address_id res) = true ->
   exists h row after,
     address_id res = Some h
     /\ filter (fun r => Z.eqb (Row.hhid r) h) store = row :: after
     /\ matched_address res = Some (Row.address row))
  /\ (truthy (address_id res) = false ->
      matched_address res = no_address caller
      /\ resolve_address store caller (address_id res)
         = ret (no_address caller)).
Proof.
  intros H. apply match_one_of_waterfall in H as (st & m & W & Hm & ->).
  apply waterfall_explained in W as (_ & _ & _ & Hin).
  cbn [address_id matched_address]. split.
  - intros Ht. destruct (Hin Ht) as (r & Hr & Hh).
    rewrite Hh in Hm, Ht |- *. unfold resolve_address in Hm.
    rewrite Ht in Hm. rewrite value_bind_execute in Hm.
    change (sql_where (SelectAddress (Row.hhid r)))
      with (fun x => Z.eqb (Row.hhid x) (Row.hhid r)) in Hm.
    destruct (filter _ store) as [|row after] eqn:F.
    + assert (Hf : In r (filter (fun x => Z.eqb (Row.hhid x) (Row.hhid r))
                           store)).
      { apply filter_In. split; [exact Hr|apply Z.eqb_refl]. }
      rewrite F in Hf. destruct Hf.
    + inversion Hm; subst. exists (Row.hhid r), row, after. auto.
  - intros Ht. unfold resolve_address in Hm |- *. unfold no_address.
    destruct (l_hhid st) as [id|]; [rewrite Ht in Hm |- *|];
      inversion Hm; subst; auto.
Qed.

(** The second row is the one that matches; the address is the first
    row's. *)
Lemma matched_address_by_id_witness :
  exists res,
    value (Demo.run Sample.shared_id None Demo.http_down Batch
             Demo.q_north_main) = Returned res
    /\ match_type res = Some mt_exact
    /\ matched_address res = Some "1 OAK ST".
Proof.
  eexists. split; [vm_compute; reflexivity|]. split; [reflexivity|].
  destruct (matched_address_by_id Sample.shared_id
              RapidFuzz.token_sort_ratio RapidFuzz.token_set_ratio
              Demo.metaphone_id string Demo.encode_id Demo.cosine_eq None
              Demo.http_down Batch Demo.q_north_main _
              ltac:(vm_compute; reflexivity)) as [H _].
  destruct (H eq_refl) as (h & row & after & Hh & Hf & Hm).
  cbn [address_id] in Hh. inversion Hh; subst h.
  vm_compute in Hf. inversion Hf; subst row. exact Hm.
Defined.

(** ** The two orchestrators *)

Lemma round_half_even_exact (n z : Z) (d : positive) :
  n = (z * Z.pos d)%Z -> round_half_even (n # d) = z.
Proof.
  intros ->. unfold round_half_even. cbn [Qnum Qden].
  rewrite Z.div_mul by discriminate. rewrite Z.mod_mul by discriminate.
  reflexivity.
Qed.

(** Rounding to two decimals a second time changes nothing. *)
Lemma round2_idempotent q : round2 (round2 q) = round2 q.
Proof.
  unfold round2 at 1 3.
  set (z := round_half_even (q * 100)%Q).
  set (q' := round2 q).
  assert (Hq : (Qnum q' * 100 = z * Z.pos (Qden q'))%Z).
  { pose proof (Qred_correct (z # 100)) as H. unfold Qeq in H.
    cbn [Qnum Qden] in H. exact H. }
  replace (round_half_even (q' * 100)%Q) with z; [reflexivity|].
  symmetry. unfold Qmult. cbn [Qnum Qden].
  apply round_half_even_exact. rewrite Pos.mul_1_r. exact Hq.
Qed.

Section Callers.

Variable store : list Row.t.
Variable tsr tss : string -> string -> Q.
Variable dm : string -> string * string.
Variable V : Type.
Variable enc : string -> V.
Variable cos : V -> V -> Q.
Variable api_key : option string.
Variable http_get : string -> string -> HttpReply.
Variable p : Parsed.t.

(** The waterfall of the batch driver and that of the endpoint are the
    same computation. *)
Lemma waterfall_same_for_callers :
  waterfall store tsr tss dm enc cos api_key http_get Batch p
  = waterfall store tsr tss dm enc cos api_key http_get Endpoint p.
Proof.
  rewrite !waterfall_unfold.
  apply bind_ext; intros [h1 s1]. destruct (truthy h1); [reflexivity|].
  apply bind_ext; intros [h2 s2]. destruct (truthy h2); [reflexivity|].
  apply bind_ext; intros [h3 s3]. destruct (truthy h3); [reflexivity|].
  apply bind_ext; intros [h4 s4]. destruct (truthy h4); [reflexivity|].
  apply bind_ext_on; intros [[h5 s5] r5] E5.
  destruct (truthy h5); [reflexivity|].
  apply api_reason_nonempty in E5.
  now rewrite !unmatched_reason_nonempty.
Qed.

(** The by-id lookup of the display address. *)
Lemma resolve_address_run caller h :
  resolve_address store caller h =
  match h with
  | Some id =>
      if truthy h
      then (Returned
              match filter (fun r => Z.eqb (Row.hhid r) id) store with
              | row :: _ => Some (Row.address row)
              | [] => no_address caller
              end,
            [Execute (SelectAddress id)])
      else ret (no_address caller)
  | None => ret (no_address caller)
  end.
Proof.
  unfold resolve_address, no_address. destruct h as [id|]; [|reflexivity].
  destruct (truthy (Some id)); [|reflexivity].
  rewrite bind_execute.
  change (sql_where (SelectAddress id))
    with (fun r => Z.eqb (Row.hhid r) id).
  destruct (filter _ store); reflexivity.
Qed.

Lemma resolve_address_trace caller h :
  trace (resolve_address store caller h)
  = trace (resolve_address store Batch h).
Proof.
  rewrite !resolve_address_run. destruct h as [id|]; [|reflexivity].
  destruct (truthy (Some id)); reflexivity.
Qed.

Lemma match_one_trace caller :
  trace (match_one store tsr tss dm enc cos api_key http_get caller p)
  = trace (waterfall store tsr tss dm enc cos api_key http_get Batch p)
    ++ match value (waterfall store tsr tss dm enc cos api_key http_get
                      Batch p) with
       | Returned st => trace (resolve_address store Batch (l_hhid st))
       | Raised _ => []
       end.
Proof.
  unfold match_one.
  replace (waterfall store tsr tss dm enc cos api_key http_get caller p)
    with (waterfall store tsr tss dm enc cos api_key http_get Batch p)
    by (destruct caller; [reflexivity|apply waterfall_same_for_callers]).
  destruct (waterfall store tsr tss dm enc cos api_key http_get Batch p)
    as [[st|e] t].
  - rewrite bind_returned. unfold trace at 1 3, value. cbn [fst snd].
    f_equal.
    destruct (resolve_address_returns store caller (l_hhid st)) as [m Hm].
    rewrite (trace_bind_returned _ _ _ Hm).
    unfold ret, trace at 2. cbn [snd]. rewrite app_nil_r.
    apply resolve_address_trace.
  - unfold bind, trace, value. cbn [fst snd]. now rewrite app_nil_r.
Qed.

End Callers.

(** Property X10. The batch driver and the endpoint run the same
    waterfall: for every parsed address they execute the same lookups and
    requests, raise together, and return results with the same transaction
    identifier, candidate, match type and reason. The endpoint's confidence
    is the batch's rounded to two decimals, which is the same number for
    an exact, fuzzy, phonetic or embedding match; the display address is
    the same for a result with a candidate, and '' in the batch, None in
    the endpoint, for a result without. *)
Theorem callers_agree store tsr tss dm (V : Type) (enc : string -> V)
        (cos : V -> V -> Q) api_key http_get p :
  let run c := match_one store tsr tss dm enc cos api_key http_get c p in
  trace (run Batch) = trace (run Endpoint)
  /\ (forall e, value (run Batch) = Raised e <-> value (run Endpoint) = Raised e)
  /\ forall rb,
      value (run Batch) = Returned rb ->
      exists re,
        value (run Endpoint) = Returned re
        /\ transaction_id re = transaction_id rb
        /\ address_id re = address_id rb
        /\ match_type re = match_type rb
        /\ reason re = reason rb
        /\ confidence re = round2 (confidence rb)
        /\ (match_type rb = Some mt_exact \/ match_type rb = Some mt_fuzzy
            \/ match_type rb = Some mt_phonetic
            \/ match_type rb = Some mt_embedding ->
            confidence re = confidence rb)
        /\ (truthy (address_id rb) = true ->
            matched_address re = matched_address rb)
        /\ (truthy (address_id rb) = false ->
            matched_address rb = Some "" /\ matched_address re = None).
Proof.
  intros run. unfold run. split; [|split].
  - now rewrite !match_one_trace.
  - intros e. rewrite !match_one_raises_with_waterfall.
    now rewrite waterfall_same_for_callers.
  - intros rb Hb.
    pose proof Hb as Hb'.
    apply match_one_of_waterfall in Hb as (st & mb & W & Hmb & ->).
    pose proof W as W'. rewrite waterfall_same_for_callers in W'.
    destruct (resolve_address_returns store Endpoint (l_hhid st))
      as [me Hme].
    eexists. split.
    { apply match_one_of_waterfall. exists st, me. eauto. }
    cbn [transaction_id address_id match_type reason confidence
         matched_address reported].
    repeat split.
    + intros Hm. apply waterfall_locals in W.
      destruct W as [[_ [[Hx Hs]|[[Hx Hs]|[[Hx Hs]|[[Hx Hs]|[Hx Hs]]]]]]
                    |(_ & Hx & _)].
      * rewrite Hs. reflexivity.
      * destruct Hs as (sc & _ & ->). apply round2_idempotent.
      * destruct Hs as (sc & _ & ->). apply round2_idempotent.
      * destruct Hs as (c & _ & ->). apply round2_idempotent.
      * rewrite Hx in Hm. destruct Hm as [Hm|[Hm|[Hm|Hm]]]; discriminate.
      * rewrite Hx in Hm. destruct Hm as [Hm|[Hm|[Hm|Hm]]]; discriminate.
    + intros Ht. apply waterfall_explained in W as (_ & _ & _ & Hin).
      destruct (Hin Ht) as (r & Hr & Hh).
      rewrite resolve_address_run in Hmb, Hme.
      rewrite Hh in Hmb, Hme, Ht. rewrite Ht in Hmb, Hme.
      unfold value in Hmb, Hme. cbn [fst] in Hmb, Hme.
      destruct (filter _ store) as [|row after] eqn:F.
      * assert (Hf : In r (filter (fun x => Z.eqb (Row.hhid x) (Row.hhid r))
                             store)).
        { apply filter_In. split; [exact Hr|apply Z.eqb_refl]. }
        rewrite F in Hf. destruct Hf.
      * congruence.
    + rewrite resolve_address_run in Hmb.
      destruct (l_hhid st) as [id|]; [rewrite H in Hmb|];
        now inversion Hmb.
    + rewrite resolve_address_run in Hme.
      destruct (l_hhid st) as [id|]; [rewrite H in Hme|];
        now inversion Hme.
Qed.

Lemma callers_agree_witness :
  exists re,
    value (Demo.run [Demo.main_street_4b] None Demo.http_down Endpoint
             Demo.q_main_4b) = Returned re
    /\ match_type re = Some mt_fuzzy
    /\ confidence re = (3889 # 50)%Q.
Proof.
  destruct (callers_agree [Demo.main_street_4b] RapidFuzz.token_sort_ratio
              RapidFuzz.token_set_ratio Demo.metaphone_id string
              Demo.encode_id Demo.cosine_eq None Demo.http_down
              Demo.q_main_4b) as (_ & _ & H).
  destruct (H {| transaction_id := "tx1"; address_id := Some 2%Z;
                 matched_address := Some "123 MAIN STREET APT 4B";
                 confidence := (3889 # 50)%Q;
                 match_type := Some mt_fuzzy;
                 reason := "fuzzy match" |}
              ltac:(vm_compute; reflexivity))
    as (re & Hre & _ & _ & Hm & _ & _ & Hc & _).
  exists re. split; [exact Hre|]. split; [exact Hm|].
  apply Hc. right; left. reflexivity.
Defined.

(** * The batch driver *)

Lemma match_one_result_shape store tsr tss dm (V : Type)
      (enc : string -> V) (cos : V -> V -> Q) api_key http_get caller p
      res :
  value (match_one store tsr tss dm enc cos api_key http_get caller p)
  = Returned res ->
  transaction_id res = Parsed.id p
  /\ is_unmatched res = negb (truthy (address_id res)).
Proof.
  intros H. apply match_one_of_waterfall in H as (st & m & W & _ & ->).
  apply waterfall_explained in W as (_ & Hm & Hu & _).
  unfold is_unmatched. cbn [transaction_id match_type address_id].
  split; [reflexivity|].
  destruct (truthy (l_hhid st)) eqn:T; cbn [negb].
  - destruct (l_mtype st) as [[]|]; try reflexivity.
    destruct Hu as [Hu _]. specialize (Hu eq_refl). discriminate.
  - destruct Hu as [_ Hu]. now rewrite (Hu eq_refl).
Qed.

Section BatchFacts.

Variable store : list Row.t.
Variable tsr tss : string -> string -> Q.
Variable dm : string -> string * string.
Variable V : Type.
Variable enc : string -> V.
Variable cos : V -> V -> Q.
Variable api_key : option string.
Variable http_get : string -> string -> HttpReply.

Let one := match_one store tsr tss dm enc cos api_key http_get Batch.
Let rows_run := match_rows store tsr tss dm enc cos api_key http_get.

Lemma match_rows_cons row rest :
  rows_run (row :: rest)
  = (r <- one row ;; results <- rows_run rest ;; ret (r :: results)).
Proof. reflexivity. Qed.

(** When the loop returns, every row has its result, in order, and the
    events are those of the rows, one row after the other. *)
Lemma match_rows_returned rows : forall results,
  value (rows_run rows) = Returned results ->
  Forall2 (fun row r => value (one row) = Returned r) rows results
  /\ trace (rows_run rows) = List.concat (map (fun row => trace (one row)) rows).
Proof.
  induction rows as [|row rest IH]; intros results.
  - intros H. inversion H. split; [constructor|reflexivity].
  - rewrite match_rows_cons.
    destruct (one row) as [[r|e] t] eqn:E; [|discriminate].
    rewrite bind_returned. unfold value at 1, trace at 1. cbn [fst snd].
    destruct (rows_run rest) as [[rs|e] t'] eqn:R; [|discriminate].
    rewrite bind_returned. unfold ret, value at 1, trace at 1.
    cbn [fst snd]. intros H. inversion H; subst results.
    destruct (IH rs eq_refl) as (HF & HT).
    split.
    + constructor; [now rewrite E|exact HF].
    + cbn [map List.concat]. rewrite E, <- HT.
      unfold trace. cbn [snd]. now rewrite app_nil_r.
Qed.

(** The loop stops at the first row whose match raises. *)
Lemma match_rows_raised before : forall row after e,
  (forall y, In y before -> exists r, value (one y) = Returned r) ->
  value (one row) = Raised e ->
  rows_run (before ++ row :: after)
  = (Raised e,
     List.concat (map (fun y => trace (one y)) before) ++ trace (one row)).
Proof.
  induction before as [|y before IH]; intros row after e Hb Hr.
  - cbn [app map List.concat]. rewrite match_rows_cons.
    destruct (one row) as [[r|e'] t]; [discriminate|].
    unfold value in Hr. cbn [fst] in Hr. inversion Hr; subst.
    reflexivity.
  - cbn [app map List.concat]. rewrite match_rows_cons.
    destruct (Hb y (or_introl eq_refl)) as [r Hy].
    destruct (one y) as [[r'|e'] t] eqn:E; [|discriminate].
    rewrite bind_returned.
    rewrite (IH row after e); [|intros z Hz; apply Hb; now right|exact Hr].
    unfold bind, value, trace. cbn [fst snd]. now rewrite app_assoc.
Qed.

End BatchFacts.

(** Property X11. When the batch driver returns, the table of matches has
    exactly one record per parsed row, in the order of the rows, each the
    result of matching that row alone and carrying its identifier; the
    events are those of the rows one after the other; and the unmatched
    report holds exactly the records without a candidate. *)
Theorem match_all_one_per_row store tsr tss dm (V : Type)
        (enc : string -> V) (cos : V -> V -> Q) api_key http_get rows out :
  let one := match_one store tsr tss dm enc cos api_key http_get Batch in
  value (match_all store tsr tss dm enc cos api_key http_get rows)
  = Returned out ->
  Forall2 (fun row r => value (one row) = Returned r) rows (matches out)
  /\ map transaction_id (matches out) = map Parsed.id rows
  /\ trace (match_all store tsr tss dm enc cos api_key http_get rows)
     = List.concat (map (fun row => trace (one row)) rows)
  /\ unmatched_report out
     = filter (fun r => negb (truthy (address_id r))) (matches out).
Proof.
  intros one. unfold match_all.
  destruct (match_rows store tsr tss dm enc cos api_key http_get rows)
    as [[results|e] t] eqn:R; [|discriminate].
  rewrite bind_returned. unfold ret, value at 1, trace at 1. cbn [fst snd].
  intros H. inversion H; subst out. cbn [matches unmatched_report].
  destruct (match_rows_returned store tsr tss dm V enc cos api_key http_get
              rows results) as (HF & HT); [now rewrite R|].
  rewrite R in HT. unfold trace in HT. cbn [snd] in HT. fold one in HF.
  split; [exact HF|]. split; [|split].
  - clear -HF. induction HF as [|row r rows' rs Hr _ IH]; [reflexivity|].
    cbn [map]. f_equal; [|exact IH].
    now apply match_one_result_shape in Hr.
  - rewrite app_nil_r. exact HT.
  - clear -HF. induction HF as [|row r rows' rs Hr _ IH]; [reflexivity|].
    cbn [filter]. rewrite IH.
    replace (is_unmatched r) with (negb (truthy (address_id r)));
      [reflexivity|].
    apply match_one_result_shape in Hr. symmetry. apply Hr.
Qed.

Lemma match_all_one_per_row_witness :
  exists out,
    value (match_all Demo.two_units RapidFuzz.token_sort_ratio
             RapidFuzz.token_set_ratio Demo.metaphone_id Demo.encode_id
             Demo.cosine_eq None Demo.http_down
             [Demo.q_main_4a; Demo.q_elsewhere]) = Returned out
    /\ map transaction_id (matches out) = ["tx1"; "tx1"]
    /\ List.length (unmatched_report out) = 1.
Proof.
  eexists. split; [vm_compute; reflexivity|].
  split.
  - apply (match_all_one_per_row Demo.two_units RapidFuzz.token_sort_ratio
             RapidFuzz.token_set_ratio Demo.metaphone_id string
             Demo.encode_id Demo.cosine_eq None Demo.http_down
             [Demo.q_main_4a; Demo.q_elsewhere]).
    vm_compute; reflexivity.
  - reflexivity.
Defined.

(** Property X12. When the match of a row raises, the batch driver raises
    that exception as a whole: it returns no table and no report, the rows
    before it were matched in vain, and no row after it is looked at. *)
Theorem match_all_aborts store tsr tss dm (V : Type) (enc : string -> V)
        (cos : V -> V -> Q) api_key http_get before row after e :
  let one := match_one store tsr tss dm enc cos api_key http_get Batch in
  (forall y, In y before -> exists r, value (one y) = Returned r) ->
  value (one row) = Raised e ->
  match_all store tsr tss dm enc cos api_key http_get
    (before ++ row :: after)
  = (Raised e,
     List.concat (map (fun y => trace (one y)) before) ++ trace (one row)).
Proof.
  intros one Hb Hr. unfold match_all.
  now rewrite (match_rows_raised store tsr tss dm V enc cos api_key
                 http_get before row after e Hb Hr).
Qed.

(** The validator answers the second row with a body that is not JSON; the
    third row is never matched. *)
Lemma match_all_aborts_witness :
  match_all Demo.two_units RapidFuzz.token_sort_ratio
    RapidFuzz.token_set_ratio Demo.metaphone_id Demo.encode_id
    Demo.cosine_eq (Some "key") Sample.http_garbage
    [Demo.q_main_4a; Demo.q_elsewhere; Demo.q_main_4b]
  = (Raised JSONDecodeError,
     [Execute (SelectExact Demo.q_main_4a); Execute (SelectAddress 1%Z);
      Execute (SelectExact Demo.q_elsewhere); Execute (SelectFuzzy "999");
      Execute (SelectPhonetic "999"); Execute (SelectEmbedding "999");
      HttpGet "999 MAIN ST, BROOKLYN, NY 11211" "key"]).
Proof.
  change [Demo.q_main_4a; Demo.q_elsewhere; Demo.q_main_4b]
    with ([Demo.q_main_4a] ++ Demo.q_elsewhere :: [Demo.q_main_4b]).
  rewrite (match_all_aborts Demo.two_units RapidFuzz.token_sort_ratio
             RapidFuzz.token_set_ratio Demo.metaphone_id string
             Demo.encode_id Demo.cosine_eq (Some "key") Sample.http_garbage
             [Demo.q_main_4a] Demo.q_elsewhere [Demo.q_main_4b]
             JSONDecodeError).
  - vm_compute. reflexivity.
  - intros y [<-|[]]. eexists. vm_compute. reflexivity.
  - vm_compute. reflexivity.
Defined.

(** * The parser *)

Section StripFacts.
Import PyStr.

Lemma is_space_upper_char c : is_space (upper_char c) = is_space c.
Proof. destruct c as [[] [] [] [] [] [] [] []]; reflexivity. Qed.

Lemma upper_char_idempotent c : upper_char (upper_char c) = upper_char c.
Proof. destruct c as [[] [] [] [] [] [] [] []]; reflexivity. Qed.

Lemma upper_idempotent s : upper (upper s) = upper s.
Proof.
  induction s as [|c s IH]; simpl; [reflexivity|].
  now rewrite upper_char_idempotent, IH.
Qed.

Lemma lstrip_upper s : lstrip (upper s) = upper (lstrip s).
Proof.
  induction s as [|c s IH]; simpl; [reflexivity|].
  rewrite is_space_upper_char. destruct (is_space c); [exact IH|reflexivity].
Qed.

Lemma rstrip_upper s : rstrip (upper s) = upper (rstrip s).
Proof.
  induction s as [|c s IH]; simpl; [reflexivity|].
  rewrite IH, is_space_upper_char.
  destruct (rstrip s); simpl; [destruct (is_space c)|]; reflexivity.
Qed.

Lemma strip_upper s : strip (upper s) = upper (strip s).
Proof. unfold strip. now rewrite lstrip_upper, rstrip_upper. Qed.

Lemma lstrip_idempotent s : lstrip (lstrip s) = lstrip s.
Proof.
  induction s as [|c s IH]; simpl; [reflexivity|].
  destruct (is_space c) eqn:E; [exact IH|]. simpl. now rewrite E.
Qed.

Lemma rstrip_idempotent s : rstrip (rstrip s) = rstrip s.
Proof.
  induction s as [|c s IH]; simpl; [reflexivity|].
  destruct (rstrip s) as [|d r] eqn:E.
  - destruct (is_space c) eqn:Ec; simpl; [reflexivity|now rewrite Ec].
  - change (rstrip (String c (String d r)))
      with (match rstrip (String d r) with
            | EmptyString =>
                if is_space c then EmptyString else String c EmptyString
            | String d' r' => String c (String d' r')
            end).
    now rewrite IH.
Qed.

Lemma lstrip_rstrip s : lstrip (rstrip s) = rstrip (lstrip s).
Proof.
  induction s as [|c s IH]; simpl; [reflexivity|].
  destruct (is_space c) eqn:Ec.
  - destruct (rstrip s) as [|d r] eqn:E.
    + simpl. exact IH.
    + simpl. rewrite Ec. exact IH.
  - simpl. destruct (rstrip s); simpl; now rewrite Ec.
Qed.

Lemma strip_idempotent s : strip (strip s) = strip s.
Proof.
  unfold strip.
  now rewrite lstrip_rstrip, lstrip_idempotent, rstrip_idempotent.
Qed.

(** A field the parser has normalised stays as it is under the
    normalisations of the stages. *)
Lemma normalised_fixed s :
  strip (upper (strip s)) = upper (strip s)
  /\ upper (upper (strip s)) = upper (strip s).
Proof.
  split; [now rewrite strip_upper, strip_idempotent|apply upper_idempotent].
Qed.

Lemma lstrip_of_stripped s : strip s = s -> lstrip s = s.
Proof.
  intros H. rewrite <- H at 1. unfold strip.
  now rewrite lstrip_rstrip, lstrip_idempotent.
Qed.

Lemma lstrip_length s : String.length (lstrip s) <= String.length s.
Proof.
  induction s as [|c s IH]; simpl; [lia|].
  destruct (is_space c); simpl; lia.
Qed.

Lemma lstrip_app s t :
  s <> "" -> lstrip s = s -> lstrip (s ++ t)%string = (s ++ t)%string.
Proof.
  destruct s as [|c s]; [congruence|]. intros _ H. simpl in *.
  destruct (is_space c); [|reflexivity].
  exfalso. pose proof (lstrip_length s) as L. rewrite H in L. simpl in L. lia.
Qed.

Lemma rstrip_app s t :
  rstrip t <> "" -> rstrip (s ++ t)%string = (s ++ rstrip t)%string.
Proof.
  intros H. induction s as [|c s IH]; simpl; [reflexivity|].
  rewrite IH. destruct (s ++ rstrip t)%string eqn:E; [|reflexivity].
  destruct s; simpl in E; [contradiction|discriminate].
Qed.

End StripFacts.

Lemma dict_get_absent d key default :
  (forall v, ~ In (key, v) d) -> dict_get d key default = default.
Proof.
  induction d as [|[k v] d IH]; simpl; intros H; [reflexivity|].
  destruct (k =s key) eqn:E.
  - apply String.eqb_eq in E. subst k. exfalso. apply (H v). now left.
  - apply IH. intros v' Hin. apply (H v'). now right.
Qed.

Lemma upper_empty_iff s : PyStr.upper s = "" <-> s = "".
Proof. destruct s; simpl; split; congruence. Qed.

(** The labels of the tagger that the parser reads, in the order of the
    components they give. *)
Lemma parsed_field tagged label :
  let f := PyStr.upper (PyStr.strip (dict_get tagged label "")) in
  PyStr.strip f = f
  /\ PyStr.upper f = f
  /\ ((forall v, ~ In (label, v) tagged) -> f = "")
  /\ (f = "" <-> PyStr.all_space (dict_get tagged label "") = true).
Proof.
  intros f. unfold f.
  split; [apply normalised_fixed|]. split; [apply normalised_fixed|].
  split.
  - intros H. now rewrite dict_get_absent.
  - now rewrite upper_empty_iff, strip_empty_iff.
Qed.

(** Property X13. For tags whose text has its upper-case form in the
    alphabet (none of the code points 181, 223 and 255), each of the seven
    address components the parser builds is the text of its label, trimmed
    and upper-cased, so that the trimming and upper-casing the stages
    apply again change nothing; a label the tagger did not produce gives
    the empty string, and so does, and only does, a text that is blank;
    the raw address is kept as it came. *)
Theorem parse_tagged_normalised tagged record_id raw :
  Forall (fun kv => PyStr.upper_stays (snd kv) = true) tagged ->
  let p := parse_tagged tagged record_id raw in
  Forall2
    (fun label f =>
       f = PyStr.upper (PyStr.strip (dict_get tagged label ""))
       /\ PyStr.strip f = f
       /\ PyStr.upper f = f
       /\ ((forall v, ~ In (label, v) tagged) -> f = "")
       /\ (f = "" <-> PyStr.all_space (dict_get tagged label "") = true))
    ["AddressNumber"; "StreetNamePreDirectional"; "StreetName";
     "StreetNamePostType"; "StreetNamePostDirectional"; "OccupancyType";
     "OccupancyIdentifier"]
    [Parsed.street_number p; Parsed.predir p; Parsed.street_name p;
     Parsed.street_type p; Parsed.postdir p; Parsed.apt_type p;
     Parsed.unit p]
  /\ norm_number p = Parsed.street_number p
  /\ norm_unit p = Parsed.unit p
  /\ Parsed.original_address p = Some raw
  /\ Parsed.id p = record_id.
Proof.
  intros _ p. unfold p, parse_tagged, norm_number, norm_unit.
  cbn [Parsed.street_number Parsed.predir Parsed.street_name
       Parsed.street_type Parsed.postdir Parsed.apt_type Parsed.unit
       Parsed.original_address Parsed.id].
  split.
  { repeat (constructor; [split; [reflexivity|apply parsed_field]|]).
    constructor. }
  split; [rewrite (proj1 (normalised_fixed _)); apply upper_idempotent|].
  split; [rewrite (proj1 (normalised_fixed _)); apply upper_idempotent|].
  split; reflexivity.
Qed.

Lemma parse_tagged_normalised_witness :
  norm_number (parse_tagged Sample.tags_main "tx" "123 n main st apt 4b")
  = "123"
  /\ norm_unit (parse_tagged Sample.tags_main "tx" "123 n main st apt 4b")
     = "4B".
Proof.
  pose proof (parse_tagged_normalised Sample.tags_main "tx"
                "123 n main st apt 4b" ltac:(repeat constructor)) as H.
  cbv zeta in H. destruct H as (_ & H1 & H2 & _).
  rewrite H1, H2. split; reflexivity.
Defined.

Lemma phonetic_match_trace store tss dm p threshold :
  PyStr.strip (Parsed.street_number p) <> "" ->
  trace (phonetic_match store tss dm p threshold)
  = [Execute (SelectPhonetic (norm_number p))].
Proof.
  intros Hnum. unfold phonetic_match. fold (norm_number p).
  apply nonempty_true_iff in Hnum. unfold norm_number at 1.
  rewrite upper_nonempty, Hnum. cbn [negb].
  rewrite bind_execute. unfold trace at 1. cbn [snd].
  repeat match goal with
         | |- context [if ?b then _ else _] => destruct b
         end; reflexivity.
Qed.

(** Property X14. On an address that comes from the parser, for a house
    number whose upper-case form is in the alphabet (none of the code
    points 181, 223 and 255), the Fuzzy, Phonetic and Embedding matchers
    are skipped, without any lookup, exactly when the tagger gave no house
    number or a blank one; otherwise each of them blocks on the same key,
    the parsed street number as it stands. *)
Theorem parsed_house_number_blocks store tsr tss dm (V : Type)
        (enc : string -> V) (cos : V -> V -> Q) tagged record_id raw thr :
  PyStr.upper_stays (dict_get tagged "AddressNumber" "") = true ->
  let p := parse_tagged tagged record_id raw in
  (0 < thr)%Q ->
  (PyStr.all_space (dict_get tagged "AddressNumber" "") = true ->
   fuzzy_match store tsr p thr = (Returned (None, 0%Q), [])
   /\ phonetic_match store tss dm p thr = (Returned (None, 0%Q), [])
   /\ embedding_match store enc cos p thr = (Returned (None, 0%Q), []))
  /\ (PyStr.all_space (dict_get tagged "AddressNumber" "") = false ->
      trace (fuzzy_match store tsr p thr)
      = [Execute (SelectFuzzy (Parsed.street_number p))]
      /\ trace (phonetic_match store tss dm p thr)
         = [Execute (SelectPhonetic (Parsed.street_number p))]
      /\ exists encodings,
          trace (embedding_match store enc cos p thr)
          = Execute (SelectEmbedding (Parsed.street_number p)) :: encodings).
Proof.
  intros _ p Hthr.
  assert (Hfix : PyStr.strip (Parsed.street_number p)
                 = Parsed.street_number p).
  { apply normalised_fixed. }
  assert (Hnn : norm_number p = Parsed.street_number p).
  { unfold norm_number. rewrite Hfix. apply upper_idempotent. }
  assert (Hblank : Parsed.street_number p = "" <->
                   PyStr.all_space (dict_get tagged "AddressNumber" "")
                   = true).
  { cbn [p parse_tagged Parsed.street_number].
    rewrite <- strip_empty_iff.
    destruct (PyStr.strip (dict_get tagged "AddressNumber" ""));
      simpl; split; congruence. }
  split.
  - intros Hb. apply Hblank in Hb.
    unfold fuzzy_match, phonetic_match, embedding_match.
    now rewrite Hb.
  - intros Hb.
    assert (Hne : PyStr.strip (Parsed.street_number p) <> "").
    { rewrite Hfix. intros E. apply Hblank in E. congruence. }
    split; [|split].
    + rewrite (fuzzy_match_value store tsr p thr Hne Hthr).
      unfold trace. cbn [snd]. now rewrite Hfix.
    + rewrite (phonetic_match_trace store tss dm p thr Hne). now rewrite Hnn.
    + rewrite (embedding_match_run store V enc cos p thr Hne Hthr).
      unfold trace. cbn [snd]. rewrite Hnn. eexists. reflexivity.
Qed.

Lemma parsed_house_number_blocks_witness :
  trace (fuzzy_match Demo.two_units RapidFuzz.token_sort_ratio
           (parse_tagged Sample.tags_main "tx" "123 n main st apt 4b") 70)
  = [Execute (SelectFuzzy "123")].
Proof.
  destruct (parsed_house_number_blocks Demo.two_units
              RapidFuzz.token_sort_ratio RapidFuzz.token_set_ratio
              Demo.metaphone_id string Demo.encode_id Demo.cosine_eq
              Sample.tags_main "tx" "123 n main st apt 4b" 70
              ltac:(reflexivity) ltac:(reflexivity)) as [_ H].
  apply H. reflexivity.
Defined.

(** Property X15. The parser sets no city, state or zip code, and the
    endpoint adds none: for the trimmed, non-empty raw address the endpoint
    parses, the query the API matcher sends to the validator is that
    address followed by [", ,"]. *)
Theorem endpoint_query_has_no_place tagged record_id raw :
  PyStr.strip raw = raw ->
  raw <> "" ->
  api_query (parse_tagged tagged record_id raw) = ret (raw ++ ", ,")%string.
Proof.
  intros Hs Hne. unfold api_query, parse_tagged.
  cbn [Parsed.original_address Parsed.city Parsed.state Parsed.zip_code].
  change (", " ++ "" ++ ", " ++ "" ++ " " ++ "")%string with ", ,  ".
  f_equal. unfold PyStr.strip.
  rewrite lstrip_app; [|exact Hne|now apply lstrip_of_stripped].
  rewrite rstrip_app; [reflexivity|]. simpl. discriminate.
Qed.

Lemma endpoint_query_has_no_place_witness :
  api_query (parse_tagged Sample.tags_main "tx" "123 n main st apt 4b")
  = ret "123 n main st apt 4b, ,".
Proof.
  apply (endpoint_query_has_no_place Sample.tags_main "tx"
           "123 n main st apt 4b").
  - reflexivity.
  - discriminate.
Defined.

(** Property X16. The endpoint refuses a request with the error
    'raw_address is required' exactly when the raw address is absent,
    empty or made of white space only; it then parses nothing and looks
    nothing up. *)
Theorem match_address_requires_raw store tsr tss dm (V : Type)
        (enc : string -> V) (cos : V -> V -> Q) api_key http_get tagger
        raw_address :
  match_address store tsr tss dm enc cos api_key http_get tagger raw_address
  = (BadRequest "raw_address is required", [])
  <-> PyStr.all_space (or_empty raw_address) = true.
Proof.
  unfold match_address. rewrite <- strip_empty_iff.
  destruct (PyStr.strip (or_empty raw_address)) as [|c s] eqn:E;
    cbn [PyStr.nonempty negb].
  - tauto.
  - split; [|discriminate].
    destruct (parse_address tagger _ _) as [parsed|]; [|discriminate].
    destruct (match_one _ _ _ _ _ _ _ _ _ _) as [[r0|e0] t0]; discriminate.
Qed.

(** Property X17. Parsing a batch is all or nothing: [parse_all] fails
    exactly when the tagger raises on the joined address lines of some
    row, and otherwise yields one parsed row per transaction, in order,
    with the transaction's identifier, city, state and zip code, and with
    the joined address lines as its original address. *)
Theorem parse_all_all_or_nothing tagger rows :
  (parse_all tagger rows = None <->
   exists row, In row rows /\ tagger (full_addr row) = None)
  /\ forall parsed,
      parse_all tagger rows = Some parsed ->
      Forall2
        (fun row p =>
           exists tagged,
             tagger (full_addr row) = Some tagged
             /\ p = with_place
                      (parse_tagged tagged (raw_id row) (full_addr row)) row)
        rows parsed.
Proof.
  induction rows as [|row rest [IHn IHs]]; cbn [parse_all].
  - split.
    + split; [discriminate|]. intros (row & [] & _).
    + intros parsed H. inversion H. constructor.
  - unfold parse_address.
    destruct (tagger (full_addr row)) as [tagged|] eqn:T.
    + destruct (parse_all tagger rest) as [ps|] eqn:P.
      * split.
        -- split; [discriminate|].
           intros (r & [<-|Hin] & Hr); [congruence|].
           assert (Hn : Some ps = None) by (apply IHn; eauto).
           discriminate.
        -- intros parsed H. inversion H; subst.
           constructor; [eauto|]. now apply IHs.
      * split.
        -- split; [|reflexivity]. intros _.
           destruct (proj1 IHn eq_refl) as (r & Hin & Hr).
           exists r. split; [now right|exact Hr].
        -- discriminate.
    + split.
      * split; [|reflexivity]. intros _. exists row. split; [now left|exact T].
      * discriminate.
Qed.

Lemma parse_all_all_or_nothing_witness :
  parse_all Sample.tagger [Sample.tx "a" "123 n main st"; Sample.tx "b" "?"]
  = None
  /\ parse_all Sample.tagger [Sample.tx "a" "123 n main st"] <> None.
Proof.
  split.
  - apply (parse_all_all_or_nothing Sample.tagger).
    exists (Sample.tx "b" "?"). split; [right; left; reflexivity|].
    reflexivity.
  - intros H.
    apply (parse_all_all_or_nothing Sample.tagger) in H
      as (row & [<-|[]] & Hr).
    vm_compute in Hr. discriminate.
Defined.

(** * The endpoint *)

(** Property X18. A 200 answer of the endpoint echoes the trimmed raw
    address, which is not empty; its transaction identifier is that
    address in lower case with every space replaced by an underscore; and
    its result and events are those of matching, as the endpoint does, the
    address the parser builds from the tagger's output, so that it has a
    match type and a reason that is not empty. *)
Theorem match_address_answer store tsr tss dm (V : Type)
        (enc : string -> V) (cos : V -> V -> Q) api_key http_get tagger
        raw_address echoed res t :
  match_address store tsr tss dm enc cos api_key http_get tagger raw_address
  = (Answer echoed res, t) ->
  echoed = PyStr.strip (or_empty raw_address)
  /\ echoed <> ""
  /\ transaction_id res = lower_underscore echoed
  /\ match_type res <> None
  /\ reason res <> ""
  /\ exists tagged,
      tagger echoed = Some tagged
      /\ match_one store tsr tss dm enc cos api_key http_get Endpoint
           (parse_tagged tagged (lower_underscore echoed) echoed)
         = (Returned res, t).
Proof.
  unfold match_address, parse_address.
  destruct (PyStr.nonempty (PyStr.strip (or_empty raw_address))) eqn:N;
    cbn [negb]; [|discriminate].
  destruct (tagger (PyStr.strip (or_empty raw_address))) as [tagged|] eqn:T;
    [|discriminate].
  destruct (match_one _ _ _ _ _ _ _ _ _ _) as [[r0|e0] t0] eqn:E;
    [|discriminate].
  intros H. inversion H; subst.
  assert (Hv : value (match_one store tsr tss dm enc cos api_key http_get
                        Endpoint
                        (parse_tagged tagged
                           (lower_underscore
                              (PyStr.strip (or_empty raw_address)))
                           (PyStr.strip (or_empty raw_address))))
               = Returned res) by now rewrite E.
  pose proof (match_one_result_shape _ _ _ _ _ _ _ _ _ _ _ _ Hv) as [Hid _].
  apply match_one_of_waterfall in Hv as (st & m & W & _ & Hres).
  apply waterfall_explained in W as (Hr & Hm & _).
  split; [reflexivity|]. split; [now apply nonempty_true_iff|].
  split; [exact Hid|]. rewrite Hres at 1 2.
  cbn [match_type reason]. split; [exact Hm|]. split; [exact Hr|].
  exists tagged. split; [exact T|exact E].
Qed.

Lemma match_address_answer_witness :
  exists res t,
    match_address Demo.two_units RapidFuzz.token_sort_ratio
      RapidFuzz.token_set_ratio Demo.metaphone_id Demo.encode_id
      Demo.cosine_eq None Demo.http_down Sample.tagger
      (Some "  123 N Main St Apt 4B ")
    = (Answer "123 N Main St Apt 4B" res, t)
    /\ transaction_id res = "123_n_main_st_apt_4b".
Proof.
  eexists _, _. split; [vm_compute; reflexivity|].
  eapply (match_address_answer Demo.two_units RapidFuzz.token_sort_ratio
            RapidFuzz.token_set_ratio Demo.metaphone_id string
            Demo.encode_id Demo.cosine_eq None Demo.http_down Sample.tagger
            (Some "  123 N Main St Apt 4B ") "123 N Main St Apt 4B").
  vm_compute. reflexivity.
Defined.

(** * Requests to the validator *)

Lemma requests_app t u : requests (t ++ u) = requests t ++ requests u.
Proof.
  induction t as [|e t IH]; [reflexivity|].
  destruct e; cbn [app requests]; now rewrite IH.
Qed.

Lemma requests_encodings {A} (f : A -> string) l :
  requests (map (fun x => Encode (f x)) l) = [].
Proof. induction l; [reflexivity|exact IHl]. Qed.

Section RequestFacts.

Variable store : list Row.t.
Variable tsr tss : string -> string -> Q.
Variable dm : string -> string * string.
Variable V : Type.
Variable enc : string -> V.
Variable cos : V -> V -> Q.
Variable api_key : option string.
Variable http_get : string -> string -> HttpReply.
Variable p : Parsed.t.

Lemma fuzzy_match_no_request :
  requests (trace (fuzzy_match store tsr p 70)) = [].
Proof.
  destruct (PyStr.nonempty (PyStr.strip (Parsed.street_number p))) eqn:G.
  - apply nonempty_true_iff in G.
    now rewrite (fuzzy_match_value store tsr p 70 G eq_refl).
  - unfold fuzzy_match. now rewrite G.
Qed.

Lemma phonetic_match_no_request :
  requests (trace (phonetic_match store tss dm p 70)) = [].
Proof.
  destruct (PyStr.nonempty (PyStr.strip (Parsed.street_number p))) eqn:G.
  - apply nonempty_true_iff in G.
    now rewrite (phonetic_match_trace store tss dm p 70 G).
  - unfold phonetic_match. now rewrite upper_nonempty, G.
Qed.

Lemma embedding_match_no_request :
  requests (trace (embedding_match store enc cos p (3 # 4))) = [].
Proof.
  destruct (PyStr.nonempty (PyStr.strip (Parsed.street_number p))) eqn:G.
  - apply nonempty_true_iff in G.
    rewrite (embedding_match_run store V enc cos p (3 # 4) G eq_refl).
    unfold trace. cbn [snd requests].
    destruct (same_house store (norm_number p)); [reflexivity|].
    cbn [requests]. apply requests_encodings.
  - unfold embedding_match. now rewrite upper_nonempty, G.
Qed.

(** The API matcher makes no request, or the one request for its query
    with the configured key. *)
Lemma api_match_requests :
  requests (trace (api_match store api_key http_get p)) = []
  \/ exists key full,
      api_key = Some key /\ key <> "" /\ api_query p = ret full
      /\ requests (trace (api_match store api_key http_get p))
         = [(full, key)].
Proof.
  destruct (api_key_cases api_key) as [Hk|(key & Hk & Hne)].
  - left. now rewrite api_match_unconfigured.
  - rewrite (api_match_configured store api_key http_get p key Hk Hne).
    destruct (Parsed.original_address p) as [sp|] eqn:Ho.
    + destruct (api_query_nonempty p sp Ho) as (full & Hq & _).
      right. exists key, full. repeat split; auto.
      rewrite Hq, bind_ret_l. unfold api_lookup.
      rewrite (api_query_ret_nonempty p full Hq). cbn [negb].
      unfold emit. rewrite bind_returned. unfold trace at 1. cbn [snd app].
      cbn [requests]. f_equal.
      destruct (http_get full key) as [|[|[|top rest]]]; try reflexivity.
      rewrite bind_execute. unfold trace. cbn [snd requests].
      destruct (first _); reflexivity.
    + left. unfold api_query. now rewrite Ho.
Qed.

End RequestFacts.

(** Property X19. A match sends at most one request to the validator. It
    sends one only when the key is configured and the Exact, Fuzzy,
    Phonetic and Embedding matchers have all returned without a candidate,
    and the request then carries the query built from the original
    address, city, state and zip code. *)
Theorem match_one_requests store tsr tss dm (V : Type) (enc : string -> V)
        (cos : V -> V -> Q) api_key http_get caller p :
  let sent :=
    requests (trace (match_one store tsr tss dm enc cos api_key http_get
                       caller p)) in
  sent = []
  \/ exists key full,
      sent = [(full, key)]
      /\ api_key = Some key /\ key <> ""
      /\ api_query p = ret full
      /\ misses (exact_match store p)
      /\ misses (fuzzy_match store tsr p 70)
      /\ misses (phonetic_match store tss dm p 70)
      /\ misses (embedding_match store enc cos p (3 # 4)).
Proof.
  intros sent. unfold sent. clear sent.
  rewrite match_one_trace, requests_app.
  assert (Hres : forall h, requests (trace (resolve_address store Batch h))
                           = []).
  { intros h. rewrite resolve_address_run. destruct h as [id|]; [|reflexivity].
    destruct (truthy (Some id)); reflexivity. }
  replace (requests
             match value (waterfall store tsr tss dm enc cos api_key
                            http_get Batch p) with
             | Returned st => trace (resolve_address store Batch (l_hhid st))
             | Raised _ => []
             end) with (@nil (string * string))
    by (destruct (value _); [now rewrite Hres|reflexivity]).
  rewrite app_nil_r, waterfall_unfold.
  destruct (exact_match_result store p) as (h1 & s1 & E1 & _).
  assert (V1 : value (exact_match store p) = Returned (h1, s1))
    by now rewrite E1.
  rewrite (trace_bind_returned _ _ _ V1), requests_app, E1.
  unfold trace at 1. cbn [snd requests app].
  destruct (truthy h1) eqn:T1; [now left|].
  destruct (fuzzy_match_result store tsr p 70 eq_refl) as (h2 & s2 & V2 & _).
  rewrite (trace_bind_returned _ _ _ V2), requests_app,
    fuzzy_match_no_request. cbn [app].
  destruct (truthy h2) eqn:T2; [now left|].
  destruct (phonetic_match_result store tss dm p 70 eq_refl)
    as (h3 & s3 & V3 & _).
  rewrite (trace_bind_returned _ _ _ V3), requests_app,
    phonetic_match_no_request. cbn [app].
  destruct (truthy h3) eqn:T3; [now left|].
  destruct (embedding_match_result store V enc cos p (3 # 4))
    as (h4 & s4 & V4 & _).
  rewrite (trace_bind_returned _ _ _ V4), requests_app,
    embedding_match_no_request. cbn [app].
  destruct (truthy h4) eqn:T4; [now left|].
  assert (Hapi : requests
                   (trace
                      ('(h5, s5, r5) <- api_match store api_key http_get p ;;
                       if truthy h5 then ret (hit_locals h5 s5 mt_api r5)
                       else ret (hit_locals h5 s5 mt_unmatched
                                   (unmatched_reason Batch r5))))
                 = requests (trace (api_match store api_key http_get p))).
  { destruct (api_match store api_key http_get p) as [[[[h5 s5] r5]|e] t5].
    - rewrite bind_returned. unfold trace. cbn [snd].
      destruct (truthy h5); unfold ret; cbn [snd]; now rewrite app_nil_r.
    - reflexivity. }
  rewrite Hapi.
  destruct (api_match_requests store api_key http_get p)
    as [H|(key & full & Hk & Hne & Hq & H)]; [now left|].
  right. exists key, full. rewrite H. unfold misses.
  split; [reflexivity|]. split; [exact Hk|]. split; [exact Hne|].
  split; [exact Hq|].
  split; [exists h1, s1; auto|]. split; [exists h2, s2; auto|].
  split; [exists h3, s3; auto|]. exists h4, s4; auto.
Qed.

Lemma match_one_requests_witness :
  requests (trace (Demo.run Demo.two_units (Some "key") Demo.http_down Batch
                     Demo.q_elsewhere))
  = [("999 MAIN ST, BROOKLYN, NY 11211", "key")]
  /\ requests (trace (Demo.run Demo.two_units (Some "key") Demo.http_down
                        Batch Demo.q_main_4a)) = [].
Proof.
  split.
  - destruct (match_one_requests Demo.two_units RapidFuzz.token_sort_ratio
                RapidFuzz.token_set_ratio Demo.metaphone_id string
                Demo.encode_id Demo.cosine_eq (Some "key") Demo.http_down
                Batch Demo.q_elsewhere)
      as [H|(key & full & H & Hk & _ & Hq & _)].
    + vm_compute in H. discriminate.
    + inversion Hk; subst key. vm_compute in Hq. inversion Hq; subst full.
      exact H.
  - vm_compute. reflexivity.
Defined.
